(** * Type-directed synthesis over a catalog of typed transformations

    A shallow embedding of [synth_lib.py] (catalog, proof terms, the
    backward best-first search and the multi-source DAG planner),
    [executor.py] (the DAG interpreter and the dispatch on implementation
    descriptors) and [provenance.py] (the PROV graph and its tracker),
    followed by the properties proved about them.

    Conventions of the embedding.
    - Python [float] costs and confidences are rendered twice.  The
      first rendering of [synth_lib.py] idealises them as exact rationals
      ([Q]); it carries the properties of control flow and structure:
      termination, the order of the results, the shape of plans and of
      proof terms.  The module [Binary64] renders the same functions on
      binary64 numbers with the machine's addition, multiplication and
      comparisons; what is said about the values of costs and
      confidences is proved there.  Unit factors are rationals.
    - Python [str] is [string]; only code points below 128 are considered
      where a character class matters ([str.strip]).
    - A Python [dict] is an association list in insertion order whose
      keys are kept unique by [dict_set]; iteration (items(), values())
      walks the list from its head.
    - A Python call either returns, raises or does not terminate:
      [outcome] has the three cases, the last one as exhausted fuel. *)

From Stdlib Require Import PrimFloat.
From Stdlib Require Import List String Ascii QArith ZArith Lia Bool.
From Stdlib Require Import DecimalString DecimalNat Permutation Sorted.
Import ListNotations.
Set Warnings "-register-all,-inexact-float".
Local Close Scope Q_scope.
Local Open Scope nat_scope.
Local Open Scope string_scope.
Local Open Scope list_scope.

(* ================================================================= *)
(** ** Python values, exceptions and outcomes *)

Inductive Value : Type :=
| VNone
| VBool (b : bool)
| VNum (q : Q)
| VStr (s : string)
| VList (vs : list Value)
| VTuple (vs : list Value)
| VDict (kvs : list (string * Value)).

Inductive exn : Type :=
| ValueError (msg : string)
| KeyError (key : string)
| IndexError (msg : string)
| TypeError (msg : string)
| ExecutionError (msg : string).

Inductive outcome (A : Type) : Type :=
| Ok (a : A)
| Raise (e : exn)
| OutOfFuel.

Arguments Ok {A} a.
Arguments Raise {A} e.
Arguments OutOfFuel {A}.

Definition bind {A B : Type} (m : outcome A) (k : A -> outcome B) : outcome B :=
  match m with
  | Ok a => k a
  | Raise e => Raise e
  | OutOfFuel => OutOfFuel
  end.

Notation "x <- m ;; k" := (bind m (fun x => k))
  (at level 61, m at next level, right associativity).

(* ================================================================= *)
(** ** Dictionaries in insertion order *)

Section Dict.
Context {V : Type}.

Fixpoint dict_get (d : list (string * V)) (k : string) : option V :=
  match d with
  | [] => None
  | (k', v) :: d' => if String.eqb k' k then Some v else dict_get d' k
  end.

Definition dict_mem (d : list (string * V)) (k : string) : bool :=
  match dict_get d k with Some _ => true | None => false end.

(** [d[k] = v]: an existing key keeps its position, a new one goes last. *)
Fixpoint dict_set (d : list (string * V)) (k : string) (v : V)
  : list (string * V) :=
  match d with
  | [] => [(k, v)]
  | (k', v') :: d' =>
      if String.eqb k' k then (k, v) :: d' else (k', v') :: dict_set d' k v
  end.

Definition dict_keys (d : list (string * V)) : list string := map fst d.
Definition dict_values (d : list (string * V)) : list V := map snd d.
End Dict.

(** [x in s] on a set kept as a list. *)
Definition set_mem (x : string) (s : list string) : bool :=
  existsb (String.eqb x) s.

(* ================================================================= *)
(** ** Strings: the [str] operations the code uses *)

(** [a in b] for strings: [a] occurs in [b] as a contiguous substring. *)
Fixpoint py_in (a b : string) : bool :=
  if String.prefix a b then true
  else match b with
       | EmptyString => false
       | String _ b' => py_in a b'
       end.

(** [str(i)] for a non-negative integer. *)
Definition str_of_nat (i : nat) : string :=
  NilEmpty.string_of_uint (Nat.to_uint i).

(** [str.isspace] on the code points below 128. *)
Definition is_space (c : ascii) : bool :=
  let n := nat_of_ascii c in
  ((9 <=? n)%nat && (n <=? 13)%nat) || ((28 <=? n)%nat && (n <=? 32)%nat).

Fixpoint lstrip (s : string) : string :=
  match s with
  | EmptyString => EmptyString
  | String c s' => if is_space c then lstrip s' else s
  end.

Fixpoint rstrip (s : string) : string :=
  match s with
  | EmptyString => EmptyString
  | String c s' =>
      match rstrip s' with
      | EmptyString => if is_space c then EmptyString else String c EmptyString
      | r => String c r
      end
  end.

Definition strip (s : string) : string := lstrip (rstrip s).

(** [c in s] for a one-character needle. *)
Fixpoint contains_char (c : ascii) (s : string) : bool :=
  match s with
  | EmptyString => false
  | String c' s' => if Ascii.eqb c' c then true else contains_char c s'
  end.

(** [s.split(c, 1)]: the text before and after the first [c]; a single
    part when [c] does not occur. *)
Fixpoint split_once (c : ascii) (s : string) : list string :=
  match s with
  | EmptyString => [EmptyString]
  | String c' s' =>
      if Ascii.eqb c' c then [EmptyString; s']
      else match split_once c s' with
           | [rest] => [String c' rest]
           | before :: after => String c' before :: after
           | [] => []
           end
  end.

(** Python's [str(list_of_str)], for names without quotes or escapes. *)
Definition str_of_str_list (l : list string) : string :=
  ("[" ++ String.concat ", " (map (fun s => "'" ++ s ++ "'")%string l) ++ "]")%string.

(* ================================================================= *)
(** ** [sorted(l, key=...)]: a stable sort on a rational key *)

Section Sorted.
Context {A : Type} (key : A -> Q).

(** [x] goes before the first element whose key is strictly greater. *)
Fixpoint insert_sorted (x : A) (l : list A) : list A :=
  match l with
  | [] => [x]
  | y :: l' =>
      if Qle_bool (key y) (key x) then y :: insert_sorted x l'
      else x :: l
  end.

(** Elements are inserted in their original order, so equal keys keep
    that order. *)
Definition sorted (l : list A) : list A :=
  fold_left (fun acc x => insert_sorted x acc) l [].

(** Vocabulary for its specification: the order on keys, and the
    elements with a given key, in list order. *)
Definition key_le (a b : A) : Prop := (key a <= key b)%Q.

Definition with_key (c : Q) (l : list A) : list A :=
  filter (fun a => Qeq_bool (key a) c) l.
End Sorted.

(* ================================================================= *)
(** ** synth_lib.py: the data model *)

Record TypeDef : Type := mkTypeDef {
  td_name : string;
  td_attrs : list (string * string);
  td_schema : option (list (string * Value))
}.

Definition is_structured (t : TypeDef) : bool :=
  match td_schema t with Some _ => true | None => false end.

Record ProductType : Type := mkProductType {
  pt_name : string;
  pt_components : list string
}.

(** [dom: Union[str, List[str]]] *)
Inductive Dom : Type :=
| Single (t : string)
| Multi (ts : list string).

Record Func : Type := mkFunc {
  f_id : string;
  f_dom : Dom;
  f_cod : string;
  f_cost : Q;
  f_conf : Q;
  f_impl : list (string * Value);
  f_inverse_of : option string;
  f_doc : string
}.

Definition is_multiarg (f : Func) : bool :=
  match f_dom f with Multi _ => true | Single _ => false end.

Definition dom_types (f : Func) : list string :=
  match f_dom f with Multi ts => ts | Single t => [t] end.

Definition arity (f : Func) : nat := List.length (dom_types f).

Definition signature (f : Func) : string :=
  let dom_str :=
    match f_dom f with
    | Multi ts => ("(" ++ String.concat ", " ts ++ ")")%string
    | Single t => t
    end in
  (dom_str ++ " -> " ++ f_cod f)%string.

Record UnitConversion : Type := mkUnitConversion {
  from_unit : string;
  to_unit : string;
  factor : Q
}.

Definition convert (u : UnitConversion) (value : Q) : Q := (value * factor u)%Q.

(** [UnitRegistry.conversions], keyed by the pair of units. *)
Definition UnitRegistry : Type := list ((string * string) * UnitConversion).

Definition unit_key_eqb (a b : string * string) : bool :=
  String.eqb (fst a) (fst b) && String.eqb (snd a) (snd b).

Fixpoint registry_get (r : UnitRegistry) (k : string * string)
  : option UnitConversion :=
  match r with
  | [] => None
  | (k', c) :: r' => if unit_key_eqb k' k then Some c else registry_get r' k
  end.

Fixpoint registry_set (r : UnitRegistry) (k : string * string)
  (c : UnitConversion) : UnitRegistry :=
  match r with
  | [] => [(k, c)]
  | (k', c') :: r' =>
      if unit_key_eqb k' k then (k, c) :: r' else (k', c') :: registry_set r' k c
  end.

Definition register (r : UnitRegistry) (from_u to_u : string) (fac : Q)
  : UnitRegistry :=
  registry_set r (from_u, to_u) (mkUnitConversion from_u to_u fac).

Definition default_conversions : list (string * string * Q) :=
  [ ("J", "kWh", 1 / 3600000); ("kWh", "J", 3600000);
    ("MJ", "J", 1000000); ("J", "MJ", 1 / 1000000);
    ("MJ", "kWh", 10 / 36); ("kWh", "MJ", 36 / 10);
    ("kg", "t", 1 / 1000); ("t", "kg", 1000);
    ("g", "kg", 1 / 1000); ("kg", "g", 1000);
    ("m", "km", 1 / 1000); ("km", "m", 1000);
    ("kg-CO2", "t-CO2", 1 / 1000); ("t-CO2", "kg-CO2", 1000) ]%Q.

Definition UnitRegistry_init : UnitRegistry :=
  fold_left (fun r '(from_u, to_u, fac) => register r from_u to_u fac)
            default_conversions [].

Definition can_convert (r : UnitRegistry) (from_u to_u : string) : bool :=
  if String.eqb from_u to_u then true
  else match registry_get r (from_u, to_u) with
       | Some _ => true
       | None => false
       end.

Definition get_conversion (r : UnitRegistry) (from_u to_u : string)
  : option UnitConversion :=
  if String.eqb from_u to_u then Some (mkUnitConversion from_u to_u 1)
  else registry_get r (from_u, to_u).

Record Catalog : Type := mkCatalog {
  types : list (string * TypeDef);
  product_types : list (string * ProductType);
  funcs : list Func;
  by_cod : list (string * list Func);
  by_dom : list (string * list Func);
  unit_registry : UnitRegistry
}.

Definition Catalog_init : Catalog :=
  mkCatalog [] [] [] [] [] UnitRegistry_init.

Definition add_type (c : Catalog) (t : TypeDef) : Catalog :=
  mkCatalog (dict_set (types c) (td_name t) t) (product_types c) (funcs c)
            (by_cod c) (by_dom c) (unit_registry c).

Definition add_product_type (c : Catalog) (p : ProductType) : Catalog :=
  mkCatalog (types c) (dict_set (product_types c) (pt_name p) p) (funcs c)
            (by_cod c) (by_dom c) (unit_registry c).

(** [index[k].append(f)], creating the bucket when the key is new. *)
Definition index_append (index : list (string * list Func)) (k : string)
  (f : Func) : list (string * list Func) :=
  match dict_get index k with
  | Some bucket => dict_set index k (bucket ++ [f])
  | None => dict_set index k [f]
  end.

Definition add_func (c : Catalog) (f : Func) : Catalog :=
  mkCatalog (types c) (product_types c) (funcs c ++ [f])
            (index_append (by_cod c) (f_cod f) f)
            (fold_left (fun idx t => index_append idx t f) (dom_types f)
                       (by_dom c))
            (unit_registry c).

Definition funcs_returning (c : Catalog) (type_name : string) : list Func :=
  match dict_get (by_cod c) type_name with Some l => l | None => [] end.

Definition funcs_accepting (c : Catalog) (type_name : string) : list Func :=
  match dict_get (by_dom c) type_name with Some l => l | None => [] end.

Inductive TypeView : Type :=
| BaseType (t : TypeDef)
| ProdType (p : ProductType).

Definition get_type (c : Catalog) (type_name : string) : option TypeView :=
  match dict_get (types c) type_name with
  | Some t => Some (BaseType t)
  | None =>
      match dict_get (product_types c) type_name with
      | Some p => Some (ProdType p)
      | None => None
      end
  end.

Definition is_product_type (c : Catalog) (type_name : string) : bool :=
  dict_mem (product_types c) type_name.

Definition get_unit (c : Catalog) (type_name : string) : option string :=
  match dict_get (types c) type_name with
  | Some t => dict_get (td_attrs t) "unit"
  | None => None
  end.

(* ================================================================= *)
(** ** Proof terms *)

Inductive ProofNodeType : Type :=
| IDENTITY | FUNCTION | COMPOSITION | TUPLE | PROJECTION.

Definition ProofNodeType_eqb (a b : ProofNodeType) : bool :=
  match a, b with
  | IDENTITY, IDENTITY | FUNCTION, FUNCTION | COMPOSITION, COMPOSITION
  | TUPLE, TUPLE | PROJECTION, PROJECTION => true
  | _, _ => false
  end.

(** The [ProofNode] dataclass, field by field. *)
Inductive ProofNode : Type :=
| mkProofNode (node_type : ProofNodeType) (func : option Func)
    (children : list ProofNode) (index : Z)
    (source_type target_type : string).

Definition pn_node_type (p : ProofNode) : ProofNodeType :=
  match p with mkProofNode t _ _ _ _ _ => t end.
Definition pn_func (p : ProofNode) : option Func :=
  match p with mkProofNode _ f _ _ _ _ => f end.
Definition pn_children (p : ProofNode) : list ProofNode :=
  match p with mkProofNode _ _ c _ _ _ => c end.
Definition pn_index (p : ProofNode) : Z :=
  match p with mkProofNode _ _ _ i _ _ => i end.
Definition pn_source_type (p : ProofNode) : string :=
  match p with mkProofNode _ _ _ _ s _ => s end.
Definition pn_target_type (p : ProofNode) : string :=
  match p with mkProofNode _ _ _ _ _ t => t end.

Definition make_identity (type_name : string) : ProofNode :=
  mkProofNode IDENTITY None [] 0 type_name type_name.

Definition make_func (f : Func) : ProofNode :=
  mkProofNode FUNCTION (Some f) [] 0
    (match f_dom f with
     | Single t => t
     | Multi ts => str_of_str_list ts
     end)
    (f_cod f).

(** The flattening loop of [make_composition]. *)
Definition flatten_proofs (proofs : list ProofNode) : list ProofNode :=
  flat_map (fun p =>
              match pn_node_type p with
              | COMPOSITION => pn_children p
              | IDENTITY => []
              | _ => [p]
              end) proofs.

Definition make_composition (proofs : list ProofNode) : outcome ProofNode :=
  match proofs with
  | [] => Raise (ValueError "Empty composition")
  | [p] => Ok p
  | p0 :: _ =>
      match flatten_proofs proofs with
      | [] => Ok (make_identity (pn_source_type p0))
      | [q] => Ok q
      | q0 :: rest =>
          Ok (mkProofNode COMPOSITION None (q0 :: rest) 0
                (pn_source_type q0) (pn_target_type (last rest q0)))
      end
  end.

Definition make_tuple (proofs : list ProofNode) : ProofNode :=
  mkProofNode TUPLE None proofs 0
    ("(" ++ String.concat ", " (map pn_source_type proofs) ++ ")")%string
    ("(" ++ String.concat ", " (map pn_target_type proofs) ++ ")")%string.

(* ================================================================= *)
(** ** Synthesis results *)

Record SynthesisResult : Type := mkSynthesisResult {
  sr_cost : Q;
  sr_confidence : Q;
  sr_path : list Func;
  sr_proof : ProofNode
}.

Record DAGNode : Type := mkDAGNode {
  n_id : string;
  n_node_type : string;   (* "source", "transform", "aggregate", "goal" *)
  n_type_name : string;
  n_func : option Func;
  n_inputs : list string;
  n_path : list Func;
  n_value : Value
}.

Record SynthesisDAG : Type := mkSynthesisDAG {
  nodes : list (string * DAGNode);
  source_nodes : list string;
  goal_node : string;
  total_cost : Q;
  total_confidence : Q;
  proof : ProofNode
}.

(** [compute_cost] and [compute_confidence]: Python's [sum] and
    [reduce(operator.mul, ..., 1.0)], both folding from the left. *)
Definition compute_cost (path : list Func) : Q :=
  fold_left Qplus (map f_cost path) 0%Q.

Definition compute_confidence (path : list Func) : Q :=
  match path with
  | [] => 1%Q
  | _ => fold_left Qmult (map f_conf path) 1%Q
  end.

(* ================================================================= *)
(** ** [synthesize_backward]: the single-source search *)

(** A queue entry [(cum_cost, counter, cur_type, path, confidence)]. *)
Record Entry : Type := mkEntry {
  e_cost : Q;
  e_counter : nat;
  e_type : string;
  e_path : list Func;
  e_conf : Q
}.

Definition Qlt_bool (x y : Q) : bool := negb (Qle_bool y x).

(** Tuple comparison on the first two components.  The counter is unique
    in the queue, so Python never compares the remaining ones. *)
Definition entry_ltb (a b : Entry) : bool :=
  Qlt_bool (e_cost a) (e_cost b)
  || (Qeq_bool (e_cost a) (e_cost b) && (e_counter a <? e_counter b)%nat).

(** [heapq.heappush] and [heapq.heappop].  A heap is observed only
    through the entries popped from it, so the queue is the bag of its
    entries and a pop removes the least one. *)
Definition heappush (pq : list Entry) (e : Entry) : list Entry := e :: pq.

Fixpoint heappop (pq : list Entry) : option (Entry * list Entry) :=
  match pq with
  | [] => None
  | e :: rest =>
      match heappop rest with
      | None => Some (e, [])
      | Some (m, rest') =>
          if entry_ltb m e then Some (m, e :: rest') else Some (e, rest)
      end
  end.

(** The expansion loop [for f in catalog.funcs_returning(cur_type)]. *)
Fixpoint expand (fs : list Func) (cum_cost : Q) (path : list Func)
  (confidence : Q) (max_cost : Q) (counter : nat) (pq : list Entry)
  : nat * list Entry :=
  match fs with
  | [] => (counter, pq)
  | f :: fs' =>
      match f_dom f with
      | Multi _ => expand fs' cum_cost path confidence max_cost counter pq
      | Single next_type =>
          let new_cost := (cum_cost + f_cost f)%Q in
          if Qlt_bool max_cost new_cost
          then expand fs' cum_cost path confidence max_cost counter pq
          else
            let new_path := f :: path in
            let new_confidence := (confidence * f_conf f)%Q in
            let counter' := S counter in
            expand fs' cum_cost path confidence max_cost counter'
              (heappush pq (mkEntry new_cost counter' next_type new_path
                              new_confidence))
      end
  end.

(** [cur_type in visited_best and cum_cost >= visited_best[cur_type]] *)
Definition pruned (visited_best : list (string * Q)) (cur_type : string)
  (cum_cost : Q) : bool :=
  match dict_get visited_best cur_type with
  | Some best => Qle_bool best cum_cost
  | None => false
  end.

(** The proof attached to a found path. *)
Definition result_proof (src_type : string) (path : list Func)
  : outcome ProofNode :=
  match path with
  | [] => Ok (make_identity src_type)
  | _ => make_composition (map make_func path)
  end.

(** The [while pq and len(results) < max_results] loop; one unit of fuel
    per iteration. *)
Fixpoint search_loop (fuel : nat) (catalog : Catalog) (src_type : string)
  (max_cost : Q) (max_results : Z) (counter : nat) (pq : list Entry)
  (visited_best : list (string * Q)) (results : list SynthesisResult)
  : outcome (list SynthesisResult) :=
  match fuel with
  | O => OutOfFuel
  | S fuel' =>
      if negb (Z.of_nat (List.length results) <? max_results)%Z
      then Ok results
      else
        match heappop pq with
        | None => Ok results
        | Some (e, pq') =>
            if String.eqb (e_type e) src_type then
              pr <- result_proof src_type (e_path e) ;;
              search_loop fuel' catalog src_type max_cost max_results counter
                pq' visited_best
                (results ++ [mkSynthesisResult (e_cost e) (e_conf e)
                                               (e_path e) pr])
            else if pruned visited_best (e_type e) (e_cost e) then
              search_loop fuel' catalog src_type max_cost max_results counter
                pq' visited_best results
            else
              let visited_best' :=
                dict_set visited_best (e_type e) (e_cost e) in
              let '(counter', pq'') :=
                expand (funcs_returning catalog (e_type e)) (e_cost e)
                       (e_path e) (e_conf e) max_cost counter pq' in
              search_loop fuel' catalog src_type max_cost max_results
                counter' pq'' visited_best' results
        end
  end.

(** The discovery-ordered [results] list, before the final sort. *)
Definition discovered (fuel : nat) (catalog : Catalog)
  (src_type goal_type : string) (max_cost : Q) (max_results : Z)
  : outcome (list SynthesisResult) :=
  search_loop fuel catalog src_type max_cost max_results 0
    [mkEntry 0 0 goal_type [] 1] [] [].

Definition synthesize_backward (fuel : nat) (catalog : Catalog)
  (src_type goal_type : string) (max_cost : Q) (max_results : Z)
  : outcome (list SynthesisResult) :=
  results <- discovered fuel catalog src_type goal_type max_cost max_results ;;
  Ok (sorted sr_cost results).

(** The defaults [max_cost=100.0] and [max_results=10]. *)
Definition default_max_cost : Q := 100.
Definition default_max_results : Z := 10.

(** Fuel that suffices when costs are non-negative: every iteration pops
    one entry, and every entry but the first was pushed for one function
    of the [by_cod] index when its codomain was first expanded. *)
Definition index_size (index : list (string * list Func)) : nat :=
  fold_right (fun kv acc => (List.length (snd kv) + acc)%nat) 0%nat index.

Definition search_fuel (catalog : Catalog) : nat :=
  S (S (index_size (by_cod catalog))).

(* ================================================================= *)
(** ** The multi-source planner: argument resolution *)

(** [for src_id, src_type in sources.items(): if src_type == required_type
    and src_id not in used_sources: ... break] *)
Fixpoint find_direct (sources : list (string * string))
  (required_type : string) (used_sources : list string) : option string :=
  match sources with
  | [] => None
  | (src_id, src_type) :: rest =>
      if String.eqb src_type required_type && negb (set_mem src_id used_sources)
      then Some src_id
      else find_direct rest required_type used_sources
  end.

(** [for src_id, src_type in sources.items(): results =
    synthesize_backward(catalog, src_type, required_type, budget);
    if results: ... break] *)
Fixpoint find_by_search (fuel : nat) (catalog : Catalog)
  (sources : list (string * string)) (required_type : string) (budget : Q)
  : outcome (option (string * SynthesisResult)) :=
  match sources with
  | [] => Ok None
  | (src_id, src_type) :: rest =>
      results <- synthesize_backward fuel catalog src_type required_type
                   budget default_max_results ;;
      match results with
      | r :: _ => Ok (Some (src_id, r))
      | [] => find_by_search fuel catalog rest required_type budget
      end
  end.

Definition identity_result (type_name : string) : SynthesisResult :=
  mkSynthesisResult 0 1 [] (make_identity type_name).

(** The local variables of [_try_synthesize_multiarg_func]. *)
Record ArgState : Type := mkArgState {
  arg_results : list (string * SynthesisResult);
  as_total_cost : Q;
  as_total_confidence : Q;
  used_sources : list string
}.

(** [for required_type in required_types: ...]; [None] is the early
    [return None]. *)
Fixpoint resolve_args (fuel : nat) (catalog : Catalog)
  (sources : list (string * string)) (required_types : list string)
  (remaining_cost : Q) (st : ArgState) : outcome (option ArgState) :=
  match required_types with
  | [] => Ok (Some st)
  | required_type :: rest =>
      match find_direct sources required_type (used_sources st) with
      | Some src_id =>
          resolve_args fuel catalog sources rest remaining_cost
            (mkArgState
               (arg_results st ++ [(src_id, identity_result required_type)])
               (as_total_cost st) (as_total_confidence st)
               (src_id :: used_sources st))
      | None =>
          found <- find_by_search fuel catalog sources required_type
                     (remaining_cost - as_total_cost st)%Q ;;
          match found with
          | Some (src_id, r) =>
              resolve_args fuel catalog sources rest remaining_cost
                (mkArgState
                   (arg_results st ++ [(src_id, r)])
                   (as_total_cost st + sr_cost r)%Q
                   (as_total_confidence st * sr_confidence r)%Q
                   (used_sources st))
          | None => Ok None
          end
      end
  end.

(** The component loop of [_try_synthesize_via_product]: the same, with
    no set of used sources. *)
Fixpoint find_direct_component (sources : list (string * string))
  (component : string) : option string :=
  match sources with
  | [] => None
  | (src_id, src_type) :: rest =>
      if String.eqb src_type component then Some src_id
      else find_direct_component rest component
  end.

Record CompState : Type := mkCompState {
  component_results : list (string * string * SynthesisResult);
  cs_total_cost : Q;
  cs_total_confidence : Q
}.

Fixpoint resolve_components (fuel : nat) (catalog : Catalog)
  (sources : list (string * string)) (components : list string)
  (remaining_cost : Q) (st : CompState) : outcome (option CompState) :=
  match components with
  | [] => Ok (Some st)
  | component :: rest =>
      match find_direct_component sources component with
      | Some src_id =>
          resolve_components fuel catalog sources rest remaining_cost
            (mkCompState
               (component_results st
                  ++ [(src_id, component, identity_result component)])
               (cs_total_cost st) (cs_total_confidence st))
      | None =>
          found <- find_by_search fuel catalog sources component
                     (remaining_cost - cs_total_cost st)%Q ;;
          match found with
          | Some (src_id, r) =>
              resolve_components fuel catalog sources rest remaining_cost
                (mkCompState
                   (component_results st ++ [(src_id, component, r)])
                   (cs_total_cost st + sr_cost r)%Q
                   (cs_total_confidence st * sr_confidence r)%Q)
          | None => Ok None
          end
      end
  end.

(* ================================================================= *)
(** ** The multi-source planner: DAG construction *)

Definition source_node (src_id src_type : string) : DAGNode :=
  mkDAGNode src_id "source" src_type None [] [] VNone.

(** [for src_id, src_type in sources.items(): nodes[src_id] = ...] *)
Definition add_source_nodes (sources : list (string * string))
  : list (string * DAGNode) :=
  fold_left (fun nodes '(src_id, src_type) =>
               dict_set nodes src_id (source_node src_id src_type))
            sources [].

(** [path[-1] if path else None] *)
Definition last_func (path : list Func) : option Func :=
  match path with
  | [] => None
  | f :: rest => Some (last rest f)
  end.

(** [path[0] if path else None] *)
Definition first_func (path : list Func) : option Func :=
  match path with
  | [] => None
  | f :: _ => Some f
  end.

Definition transform_id (type_name : string) (i : nat) : string :=
  ("transform_" ++ type_name ++ "_" ++ str_of_nat i)%string.

Definition transform_node (type_name : string) (i : nat) (src_id : string)
  (path : list Func) : DAGNode :=
  mkDAGNode (transform_id type_name i) "transform" type_name (last_func path)
            [src_id] path VNone.

(** What the two construction loops accumulate. *)
Record BuildState : Type := mkBuildState {
  bs_nodes : list (string * DAGNode);
  bs_inputs : list string;
  bs_proofs : list ProofNode
}.

(** One round of either loop, for the argument or component of type
    [type_name] at position [i]. *)
Definition build_step (type_name : string) (i : nat) (src_id : string)
  (result : SynthesisResult) (st : BuildState) : BuildState :=
  match sr_path result with
  | [] =>
      mkBuildState (bs_nodes st) (bs_inputs st ++ [src_id])
                   (bs_proofs st ++ [make_identity type_name])
  | _ :: _ =>
      mkBuildState
        (dict_set (bs_nodes st) (transform_id type_name i)
                  (transform_node type_name i src_id (sr_path result)))
        (bs_inputs st ++ [transform_id type_name i])
        (bs_proofs st ++ [sr_proof result])
  end.

(** [for i, (src_id, result) in enumerate(arg_results)], reading
    [goal_func.dom_types[i]]. *)
Fixpoint build_arg_nodes (goal_func : Func) (i : nat)
  (args : list (string * SynthesisResult)) (st : BuildState)
  : outcome BuildState :=
  match args with
  | [] => Ok st
  | (src_id, result) :: rest =>
      match nth_error (dom_types goal_func) i with
      | None => Raise (IndexError "list index out of range")
      | Some required_type =>
          build_arg_nodes goal_func (S i) rest
            (build_step required_type i src_id result st)
      end
  end.

Definition _build_dag_from_multiarg (sources : list (string * string))
  (goal_type : string) (goal_func : Func)
  (args : list (string * SynthesisResult)) (total_cost total_confidence : Q)
  : outcome SynthesisDAG :=
  st <- build_arg_nodes goal_func 0 args
          (mkBuildState (add_source_nodes sources) [] []) ;;
  let goal_node_id := "goal" in
  let nodes :=
    dict_set (bs_nodes st) goal_node_id
      (mkDAGNode goal_node_id "goal" goal_type (Some goal_func)
                 (bs_inputs st) [] VNone) in
  let tuple_proof := make_tuple (bs_proofs st) in
  full_proof <- make_composition [tuple_proof; make_func goal_func] ;;
  Ok (mkSynthesisDAG nodes (map fst sources) goal_node_id total_cost
                     total_confidence full_proof).

(** [for i, (src_id, component, result) in enumerate(component_results)] *)
Fixpoint build_component_nodes (i : nat)
  (comps : list (string * string * SynthesisResult)) (st : BuildState)
  : BuildState :=
  match comps with
  | [] => st
  | (src_id, component, result) :: rest =>
      build_component_nodes (S i) rest
        (build_step component i src_id result st)
  end.

Definition _build_dag_from_product (sources : list (string * string))
  (goal_type : string) (product_name : string) (product_type : ProductType)
  (comps : list (string * string * SynthesisResult))
  (agg_result : SynthesisResult) (total_cost total_confidence : Q)
  : outcome SynthesisDAG :=
  let st := build_component_nodes 0 comps
              (mkBuildState (add_source_nodes sources) [] []) in
  let agg_node_id := "aggregate" in
  let nodes :=
    dict_set (bs_nodes st) agg_node_id
      (mkDAGNode agg_node_id "aggregate" goal_type
                 (first_func (sr_path agg_result)) (bs_inputs st)
                 (sr_path agg_result) VNone) in
  let tuple_proof := make_tuple (bs_proofs st) in
  full_proof <- match sr_path agg_result with
                | [] => Ok tuple_proof
                | _ :: _ => make_composition [tuple_proof; sr_proof agg_result]
                end ;;
  Ok (mkSynthesisDAG nodes (map fst sources) agg_node_id total_cost
                     total_confidence full_proof).

Definition _single_path_to_dag (src_id src_type goal_type : string)
  (result : SynthesisResult) : SynthesisDAG :=
  let nodes := dict_set [] src_id (source_node src_id src_type) in
  let nodes :=
    dict_set nodes "goal"
      (mkDAGNode "goal" "goal" goal_type (last_func (sr_path result))
                 [src_id] (sr_path result) VNone) in
  mkSynthesisDAG nodes [src_id] "goal" (sr_cost result)
                 (sr_confidence result) (sr_proof result).

(* ================================================================= *)
(** ** The three strategies and the selection *)

Definition _try_synthesize_multiarg_func (fuel : nat) (catalog : Catalog)
  (sources : list (string * string)) (goal_type : string) (goal_func : Func)
  (max_cost : Q) : outcome (option SynthesisDAG) :=
  let required_types := dom_types goal_func in
  let remaining_cost := (max_cost - f_cost goal_func)%Q in
  st <- resolve_args fuel catalog sources required_types remaining_cost
          (mkArgState [] (f_cost goal_func) (f_conf goal_func) []) ;;
  match st with
  | None => Ok None
  | Some st =>
      dag <- _build_dag_from_multiarg sources goal_type goal_func
               (arg_results st) (as_total_cost st) (as_total_confidence st) ;;
      Ok (Some dag)
  end.

Definition _try_synthesize_via_product (fuel : nat) (catalog : Catalog)
  (sources : list (string * string)) (goal_type : string)
  (product_name : string) (product_type : ProductType) (max_cost : Q)
  : outcome (option SynthesisDAG) :=
  agg_results <- synthesize_backward fuel catalog product_name goal_type
                   max_cost default_max_results ;;
  match agg_results with
  | [] => Ok None
  | agg_result :: _ =>
      let remaining_cost := (max_cost - sr_cost agg_result)%Q in
      st <- resolve_components fuel catalog sources
              (pt_components product_type) remaining_cost
              (mkCompState [] (sr_cost agg_result)
                           (sr_confidence agg_result)) ;;
      match st with
      | None => Ok None
      | Some st =>
          dag <- _build_dag_from_product sources goal_type product_name
                   product_type (component_results st) agg_result
                   (cs_total_cost st) (cs_total_confidence st) ;;
          Ok (Some dag)
      end
  end.

(** Strategy A: [for goal_func in catalog.funcs_returning(goal_type)]. *)
Fixpoint multiarg_results (fuel : nat) (catalog : Catalog)
  (sources : list (string * string)) (goal_type : string) (max_cost : Q)
  (goal_funcs : list Func) : outcome (list SynthesisDAG) :=
  match goal_funcs with
  | [] => Ok []
  | goal_func :: rest =>
      if is_multiarg goal_func then
        result <- _try_synthesize_multiarg_func fuel catalog sources
                    goal_type goal_func max_cost ;;
        others <- multiarg_results fuel catalog sources goal_type max_cost
                    rest ;;
        Ok (match result with
            | Some dag => dag :: others
            | None => others
            end)
      else multiarg_results fuel catalog sources goal_type max_cost rest
  end.

(** Strategy B: [for product_name, product_type in
    catalog.product_types.items()]. *)
Fixpoint product_results (fuel : nat) (catalog : Catalog)
  (sources : list (string * string)) (goal_type : string) (max_cost : Q)
  (products : list (string * ProductType)) : outcome (list SynthesisDAG) :=
  match products with
  | [] => Ok []
  | (product_name, product_type) :: rest =>
      result <- _try_synthesize_via_product fuel catalog sources goal_type
                  product_name product_type max_cost ;;
      others <- product_results fuel catalog sources goal_type max_cost rest ;;
      Ok (match result with
          | Some dag => dag :: others
          | None => others
          end)
  end.

(** Strategy C: [for src_id, src_type in sources.items()]. *)
Fixpoint single_results (fuel : nat) (catalog : Catalog)
  (goal_type : string) (max_cost : Q) (srcs : list (string * string))
  : outcome (list SynthesisDAG) :=
  match srcs with
  | [] => Ok []
  | (src_id, src_type) :: rest =>
      results <- synthesize_backward fuel catalog src_type goal_type max_cost
                   default_max_results ;;
      others <- single_results fuel catalog goal_type max_cost rest ;;
      Ok (match results with
          | r :: _ => _single_path_to_dag src_id src_type goal_type r :: others
          | [] => others
          end)
  end.

(** The selection at the end of [synthesize_multiarg_full]. *)
Definition select_result (prefer_multiarg : bool)
  (ma pr si : list SynthesisDAG) : option SynthesisDAG :=
  let all_results :=
    if prefer_multiarg
    then sorted total_cost ma ++ sorted total_cost pr ++ sorted total_cost si
    else sorted total_cost (ma ++ pr ++ si) in
  match all_results with
  | d :: _ => Some d
  | [] => None
  end.

Definition synthesize_multiarg_full (fuel : nat) (catalog : Catalog)
  (sources : list (string * string)) (goal_type : string) (max_cost : Q)
  (prefer_multiarg : bool) : outcome (option SynthesisDAG) :=
  ma <- multiarg_results fuel catalog sources goal_type max_cost
          (funcs_returning catalog goal_type) ;;
  pr <- product_results fuel catalog sources goal_type max_cost
          (product_types catalog) ;;
  si <- single_results fuel catalog goal_type max_cost sources ;;
  Ok (select_result prefer_multiarg ma pr si).

(** The wrapper [synthesize_multiarg]: sources are [(type_name, value)]
    pairs, named [source_<type>_<i>]. *)
Fixpoint number_sources {V : Type} (i : nat) (sources : list (string * V))
  (acc : list (string * string)) : list (string * string) :=
  match sources with
  | [] => acc
  | (type_name, _) :: rest =>
      number_sources (S i) rest
        (dict_set acc ("source_" ++ type_name ++ "_" ++ str_of_nat i)%string
                  type_name)
  end.

Definition synthesize_multiarg (fuel : nat) (catalog : Catalog)
  (sources : list (string * Value)) (goal_type : string) (max_cost : Q)
  : outcome (option SynthesisDAG) :=
  synthesize_multiarg_full fuel catalog (number_sources 0 sources [])
    goal_type max_cost true.

(* ================================================================= *)
(** ** [SynthesisDAG.topological_order] *)

Fixpoint fold_bind {A S : Type} (f : A -> S -> outcome S) (l : list A)
  (s : S) : outcome S :=
  match l with
  | [] => Ok s
  | a :: l' => s' <- f a s ;; fold_bind f l' s'
  end.

(** The nested [visit]; the state is [(visited, order)] and one unit of
    fuel is one level of recursion. *)
Fixpoint visit (fuel : nat) (nodes : list (string * DAGNode))
  (node_id : string) (st : list string * list string)
  : outcome (list string * list string) :=
  match fuel with
  | O => OutOfFuel
  | S fuel' =>
      if set_mem node_id (fst st) then Ok st
      else
        match dict_get nodes node_id with
        | None => Raise (KeyError node_id)
        | Some node =>
            st' <- fold_bind (visit fuel' nodes) (n_inputs node)
                     (node_id :: fst st, snd st) ;;
            Ok (fst st', snd st' ++ [node_id])
        end
  end.

Definition topological_order (fuel : nat) (dag : SynthesisDAG)
  : outcome (list string) :=
  st <- visit fuel (nodes dag) (goal_node dag) ([], []) ;;
  Ok (snd st).

(* ================================================================= *)
(** ** executor.py *)

(** More of [str]. *)
Fixpoint str_replace_aux (old new : string) (skip : nat) (s : string)
  : string :=
  match s with
  | EmptyString => EmptyString
  | String c s' =>
      match skip with
      | S k => str_replace_aux old new k s'
      | O =>
          if String.prefix old s
          then (new ++ str_replace_aux old new (String.length old - 1) s')%string
          else String c (str_replace_aux old new 0 s')
      end
  end.

Fixpoint intersperse (new s : string) : string :=
  match s with
  | EmptyString => new
  | String c s' => (new ++ String c (intersperse new s'))%string
  end.

(** [s.replace(old, new)] *)
Definition str_replace (old new s : string) : string :=
  match old with
  | EmptyString => intersperse new s
  | _ => str_replace_aux old new 0 s
  end.

Definition upper_char (c : ascii) : ascii :=
  let n := nat_of_ascii c in
  if ((97 <=? n)%nat && (n <=? 122)%nat)%bool then ascii_of_nat (n - 32) else c.

Fixpoint upper (s : string) : string :=
  match s with
  | EmptyString => EmptyString
  | String c s' => String (upper_char c) (upper s')
  end.

Definition exn_msg (e : exn) : string :=
  match e with
  | ValueError m | IndexError m | TypeError m | ExecutionError m => m
  | KeyError k => ("'" ++ k ++ "'")%string
  end.

(** What the interpreter borrows from the host language and from the
    network, which are not modelled: [str()], [eval()], arithmetic on
    arbitrary values, and the HTTP client. *)
Record PythonHost : Type := mkPythonHost {
  py_str : Value -> string;
  py_str_str : forall s, py_str (VStr s) = s;
  py_eval : string -> list string -> list (string * Value) -> outcome Value;
  py_mul : Value -> Value -> outcome Value;
  py_sum : list Value -> outcome Value;
  math_prod : list Value -> outcome Value;
  py_truediv : Value -> Value -> outcome Value;
  py_abs : Value -> outcome Value;
  py_round : Value -> outcome Value;
  (* the [try] block of [_execute_sparql] with an endpoint *)
  sparql_remote : string -> list (string * string) -> string -> outcome Value;
  requests_available : bool;
  (* [requests.get] / [requests.post], [raise_for_status] and the decoding
     of the body *)
  requests_get : string -> list (string * string) -> outcome Value;
  requests_post : string -> Value -> list (string * string) -> outcome Value
}.

Record ExecutionContext : Type := mkExecutionContext {
  sparql_endpoint : option string;
  sparql_prefixes : list (string * string);
  rest_headers : list (string * string);
  variables : list (string * Value);
  constants : list (string * Value)
}.

Definition default_constants : list (string * Value) :=
  [ ("emission_factor", VNum (25 / 10)); ("efficiency", VNum (35 / 100));
    ("kWh_to_CO2", VNum (5 / 10)) ]%Q.

(** [ExecutionContext()] after [__post_init__]. *)
Definition ExecutionContext_default : ExecutionContext :=
  mkExecutionContext None [] [] [] default_constants.

Record Executor : Type := mkExecutor {
  context : ExecutionContext;
  builtins : list (string * (Value -> outcome Value))
}.

(** [d.update(other)] *)
Definition dict_update {V : Type} (d other : list (string * V))
  : list (string * V) :=
  fold_left (fun acc kv => dict_set acc (fst kv) (snd kv)) other d.

Definition first_elem (vs : list Value) : outcome Value :=
  match vs with
  | v :: _ => Ok v
  | [] => Raise (IndexError "index out of range")
  end.

Definition last_elem (vs : list Value) : outcome Value :=
  match vs with
  | v :: rest => Ok (last rest v)
  | [] => Raise (IndexError "index out of range")
  end.

Section Interpreter.
Variable host : PythonHost.

(** The registry built by [Executor.__init__]. *)
Definition default_builtins : list (string * (Value -> outcome Value)) :=
  [ ("identity", fun x => Ok x);
    ("sum", fun x => match x with
                     | VList vs | VTuple vs => py_sum host vs
                     | _ => Ok x
                     end);
    ("product", fun x => match x with
                         | VList vs | VTuple vs => math_prod host vs
                         | _ => Ok x
                         end);
    ("average", fun x => match x with
                         | VList (v :: vs) | VTuple (v :: vs) =>
                             s <- py_sum host (v :: vs) ;;
                             py_truediv host s
                               (VNum (inject_Z (Z.of_nat (List.length (v :: vs)))))
                         | _ => Ok x
                         end);
    ("first", fun x => match x with
                       | VList vs | VTuple vs => first_elem vs
                       | _ => Ok x
                       end);
    ("last", fun x => match x with
                      | VList vs | VTuple vs => last_elem vs
                      | _ => Ok x
                      end);
    ("count", fun x => match x with
                       | VList vs | VTuple vs =>
                           Ok (VNum (inject_Z (Z.of_nat (List.length vs))))
                       | _ => Ok (VNum 1)
                       end);
    ("abs", py_abs host);
    ("round", py_round host) ].

Definition Executor_init (ctx : option ExecutionContext) : Executor :=
  mkExecutor (match ctx with
              | Some c => c
              | None => ExecutionContext_default
              end)
             default_builtins.

Definition register_builtin (ex : Executor) (name : string)
  (func : Value -> outcome Value) : Executor :=
  mkExecutor (context ex) (dict_set (builtins ex) name func).

(** [_substitute_placeholders] *)
Definition _substitute_placeholders (template : string)
  (input_value : Value) : string :=
  match input_value with
  | VDict kvs =>
      fold_left
        (fun result kv =>
           let result :=
             str_replace ("{" ++ fst kv ++ "}")%string
                         (py_str host (snd kv)) result in
           str_replace ("?" ++ fst kv)%string (py_str host (snd kv)) result)
        kvs template
  | _ =>
      let result := str_replace "{id}" (py_str host input_value) template in
      let result := str_replace "{value}" (py_str host input_value) result in
      str_replace "?input" (py_str host input_value) result
  end.

(** [_mock_sparql] *)
Definition _mock_sparql (query : string) (input_value : Value) : Value :=
  match input_value with
  | VDict kvs =>
      match dict_get kvs "energy" with
      | Some v => v
      | None =>
          match dict_get kvs "fuel" with
          | Some v => v
          | None =>
              match dict_get kvs "elec" with
              | Some v => v
              | None => VNum 1000
              end
          end
      end
  | _ => VNum 1000
  end.

(** [impl.get(key, default)] where the code goes on to use the value
    as a [str].  The descriptor tags of the catalog type these payloads;
    with a payload of another type the code fails at its first string
    operation on it, which the model renders as one [TypeError].  The
    properties below are stated for payloads of the expected type. *)
Definition impl_get_str (impl : list (string * Value)) (key default : string)
  : outcome string :=
  match dict_get impl key with
  | None => Ok default
  | Some (VStr s) => Ok s
  | Some _ => Raise (TypeError "value is not a str")
  end.

Definition _execute_sparql (ex : Executor) (impl : list (string * Value))
  (input_value : Value) : outcome Value :=
  query <- impl_get_str impl "query" "" ;;
  let query := _substitute_placeholders query input_value in
  match sparql_endpoint (context ex) with
  | Some endpoint =>
      sparql_remote host endpoint (sparql_prefixes (context ex)) query
  | None => Ok (_mock_sparql query input_value)
  end.

(** The identifiers of a formula, as [re.findall] returns them for the
    pattern "word boundary, a letter or underscore, then letters, digits
    or underscores, word boundary": the maximal runs of word characters
    that do not start with a digit. *)
Definition is_digit (c : ascii) : bool :=
  let n := nat_of_ascii c in ((48 <=? n)%nat && (n <=? 57)%nat)%bool.

Definition is_ident_start (c : ascii) : bool :=
  let n := nat_of_ascii c in
  (((65 <=? n)%nat && (n <=? 90)%nat) || ((97 <=? n)%nat && (n <=? 122)%nat)
   || (n =? 95)%nat)%bool.

Definition is_word (c : ascii) : bool := (is_ident_start c || is_digit c)%bool.

(** [cur] is the run of word characters being read, reversed, if any. *)
Fixpoint word_runs (s : string) (cur : option string) : list string :=
  match s with
  | EmptyString =>
      match cur with Some w => [w] | None => [] end
  | String c s' =>
      if is_word c then
        word_runs s' (Some (match cur with
                            | Some w => (w ++ String c EmptyString)%string
                            | None => String c EmptyString
                            end))
      else
        match cur with
        | Some w => w :: word_runs s' None
        | None => word_runs s' None
        end
  end.

Definition starts_ident (w : string) : bool :=
  match w with
  | String c _ => is_ident_start c
  | EmptyString => false
  end.

Definition identifiers (expr : string) : list string :=
  filter starts_ident (word_runs expr None).

Definition reserved : list string :=
  ["and"; "or"; "not"; "if"; "else"; "for"; "in"; "True"; "False"; "None"].

(** [for i, val in enumerate(input_value): local_vars[f"arg{i}"] = val;
    local_vars[f"x{i}"] = val] *)
Fixpoint bind_tuple_args (with_x : bool) (i : nat) (vals : list Value)
  (local_vars : list (string * Value)) : list (string * Value) :=
  match vals with
  | [] => local_vars
  | val :: rest =>
      let lv := dict_set local_vars ("arg" ++ str_of_nat i)%string val in
      let lv := if with_x
                then dict_set lv ("x" ++ str_of_nat i)%string val
                else lv in
      bind_tuple_args with_x (S i) rest lv
  end.

Definition bind_scopes (vals : list Value)
  (local_vars : list (string * Value)) : list (string * Value) :=
  match vals with
  | [v0; v1; v2] =>
      dict_set (dict_set (dict_set local_vars "scope1" v0) "scope2" v1)
               "scope3" v2
  | _ => local_vars
  end.

Definition bind_pair (vals : list Value)
  (local_vars : list (string * Value)) : list (string * Value) :=
  match vals with
  | [v0; v1] => dict_set (dict_set local_vars "a" v0) "b" v1
  | _ => local_vars
  end.

(** [local_vars = dict(constants); local_vars.update(variables)] *)
Definition base_locals (ex : Executor) : list (string * Value) :=
  dict_update (dict_update [] (constants (context ex)))
              (variables (context ex)).

(** The symbol table of [_execute_formula].  The free identifiers are
    bound in the order of their first occurrence; Python walks a [set],
    whose order is not observable through the resulting mapping. *)
Definition formula_locals (ex : Executor) (expr : string)
  (input_value : Value) : list (string * Value) :=
  let local_vars := base_locals ex in
  match input_value with
  | VTuple vals =>
      bind_pair vals (bind_scopes vals (bind_tuple_args true 0 vals local_vars))
  | VDict kvs => dict_update local_vars kvs
  | _ =>
      let lv := dict_set local_vars "x" input_value in
      let lv := dict_set lv "input" input_value in
      let lv := dict_set lv "value" input_value in
      fold_left
        (fun lv name =>
           if (negb (dict_mem lv name) && negb (set_mem name reserved))%bool
           then dict_set lv name input_value
           else lv)
        (identifiers expr) lv
  end.

(** [_formula_to_python] *)
Definition _formula_to_python (expr : string) : string :=
  if contains_char "="%char expr then
    match split_once "="%char expr with
    | [_; rhs] => strip rhs
    | _ => expr
    end
  else expr.

Definition formula_builtins : list string :=
  ["abs"; "round"; "min"; "max"; "sum"; "len"; "pow"; "sqrt"; "log"; "exp";
   "sin"; "cos"; "tan"].

Definition _execute_formula (ex : Executor) (impl : list (string * Value))
  (input_value : Value) : outcome Value :=
  expr <- impl_get_str impl "expr" "" ;;
  let local_vars := formula_locals ex expr input_value in
  let python_expr := _formula_to_python expr in
  match py_eval host python_expr formula_builtins local_vars with
  | Ok result => Ok result
  | Raise e =>
      Raise (ExecutionError
               ("Formula evaluation failed: " ++ expr ++ " -> " ++ python_expr
                ++ ", error: " ++ exn_msg e)%string)
  | OutOfFuel => OutOfFuel
  end.

Definition _mock_rest (url : string) (input_value : Value) : Value :=
  VDict [("result", input_value); ("value", VNum 800)].

Definition _execute_rest (ex : Executor) (impl : list (string * Value))
  (input_value : Value) : outcome Value :=
  method <- impl_get_str impl "method" "GET" ;;
  url <- impl_get_str impl "url" "" ;;
  let url := _substitute_placeholders url input_value in
  if negb (requests_available host) then Ok (_mock_rest url input_value)
  else
    let response :=
      if String.eqb (upper method) "GET" then
        requests_get host url (rest_headers (context ex))
      else if String.eqb (upper method) "POST" then
        requests_post host url input_value (rest_headers (context ex))
      else Raise (ExecutionError ("Unsupported HTTP method: " ++ method)%string)
    in
    match response with
    | Ok v => Ok v
    | Raise e => Raise (ExecutionError ("REST call failed: " ++ exn_msg e)%string)
    | OutOfFuel => OutOfFuel
    end.

Definition _execute_builtin (ex : Executor) (impl : list (string * Value))
  (input_value : Value) : outcome Value :=
  name <- impl_get_str impl "name" "identity" ;;
  match dict_get (builtins ex) name with
  | None => Raise (ExecutionError ("Unknown builtin function: " ++ name)%string)
  | Some f => f input_value
  end.

(** [type(input_value)(v * factor for v in input_value)] *)
Fixpoint scale_all (fac : Value) (vs : list Value) : outcome (list Value) :=
  match vs with
  | [] => Ok []
  | v :: rest =>
      v' <- py_mul host v fac ;;
      rest' <- scale_all fac rest ;;
      Ok (v' :: rest')
  end.

Definition _execute_unit_conversion (impl : list (string * Value))
  (input_value : Value) : outcome Value :=
  let fac := match dict_get impl "factor" with
             | Some v => v
             | None => VNum 1
             end in
  match input_value with
  | VNum _ | VBool _ => py_mul host input_value fac
  | VList vs => vs' <- scale_all fac vs ;; Ok (VList vs')
  | VTuple vs => vs' <- scale_all fac vs ;; Ok (VTuple vs')
  | _ => Ok input_value
  end.

(** The symbol table of [_build_json_from_schema]. *)
Definition json_locals (ex : Executor) (input_value : Value)
  : list (string * Value) :=
  let local_vars := base_locals ex in
  match input_value with
  | VTuple vals => bind_scopes vals (bind_tuple_args true 0 vals local_vars)
  | VDict kvs => dict_update local_vars kvs
  | _ => dict_set (dict_set local_vars "value" input_value) "input" input_value
  end.

Definition json_builtins : list string :=
  ["abs"; "round"; "min"; "max"; "sum"; "len"; "str"; "int"; "float";
   "isinstance"; "dict"; "list"; "tuple"; "dir"].

(** One schema entry: a string is an expression, evaluated with the
    string itself as fallback; a dict recurses; a list recurses into its
    dict items; anything else is a literal.  On a dict this is
    [_build_json_from_schema]. *)
Fixpoint build_json (local_vars : list (string * Value)) (spec : Value)
  : outcome Value :=
  match spec with
  | VStr expr =>
      match py_eval host expr json_builtins local_vars with
      | Ok v => Ok v
      | Raise _ => Ok (VStr expr)
      | OutOfFuel => OutOfFuel
      end
  | VDict kvs =>
      result <-
        (fix fields (kvs : list (string * Value))
             (result : list (string * Value)) {struct kvs}
           : outcome (list (string * Value)) :=
           match kvs with
           | [] => Ok result
           | (key, value_spec) :: rest =>
               v <- build_json local_vars value_spec ;;
               fields rest (dict_set result key v)
           end) kvs [] ;;
      Ok (VDict result)
  | VList items =>
      result <-
        (fix each (items : list Value) {struct items}
           : outcome (list Value) :=
           match items with
           | [] => Ok []
           | item :: rest =>
               v <- match item with
                    | VDict _ => build_json local_vars item
                    | _ => Ok item
                    end ;;
               vs <- each rest ;;
               Ok (v :: vs)
           end) items ;;
      Ok (VList result)
  | _ => Ok spec
  end.

Definition _build_json_from_schema (ex : Executor)
  (schema : list (string * Value)) (input_value : Value) : outcome Value :=
  build_json (json_locals ex input_value) (VDict schema).

Definition _execute_json (ex : Executor) (impl : list (string * Value))
  (input_value : Value) : outcome Value :=
  match dict_get impl "schema" with
  | None => _build_json_from_schema ex [] input_value
  | Some (VDict schema) => _build_json_from_schema ex schema input_value
  | Some _ => Raise (TypeError "schema is not a dict")
  end.

(** The symbol table of [_execute_template]. *)
Definition template_locals (ex : Executor) (input_value : Value)
  : list (string * Value) :=
  let local_vars := base_locals ex in
  match input_value with
  | VTuple vals => bind_scopes vals (bind_tuple_args false 0 vals local_vars)
  | VDict kvs => dict_update local_vars kvs
  | _ => dict_set local_vars "value" input_value
  end.

Definition template_builtins : list string :=
  ["abs"; "round"; "min"; "max"; "sum"; "len"; "str"; "int"; "float"].

(** [for key, expr in mappings.items(): try: ... eval(expr) except: ...
    expr] *)
Fixpoint evaluate_mappings (local_vars : list (string * Value))
  (mappings evaluated : list (string * Value))
  : outcome (list (string * Value)) :=
  match mappings with
  | [] => Ok evaluated
  | (key, expr) :: rest =>
      match expr with
      | VStr e =>
          match py_eval host e template_builtins local_vars with
          | Ok v => evaluate_mappings local_vars rest (dict_set evaluated key v)
          | Raise _ =>
              evaluate_mappings local_vars rest (dict_set evaluated key expr)
          | OutOfFuel => OutOfFuel
          end
      | _ => evaluate_mappings local_vars rest (dict_set evaluated key expr)
      end
  end.

Definition substitute_template (template_str : string)
  (evaluated : list (string * Value)) : string :=
  fold_left (fun result kv =>
               str_replace ("{{" ++ fst kv ++ "}}")%string
                           (py_str host (snd kv)) result)
            evaluated template_str.

Definition _execute_template (ex : Executor) (impl : list (string * Value))
  (input_value : Value) : outcome Value :=
  template_str <- impl_get_str impl "template" "" ;;
  mappings <- match dict_get impl "mappings" with
              | None => Ok []
              | Some (VDict m) => Ok m
              | Some _ => Raise (TypeError "mappings is not a dict")
              end ;;
  evaluated <- evaluate_mappings (template_locals ex input_value) mappings [] ;;
  Ok (VStr (substitute_template template_str evaluated)).

(** [impl.get("type", "identity")] *)
Definition impl_type_of (impl : list (string * Value)) : Value :=
  match dict_get impl "type" with
  | Some v => v
  | None => VStr "identity"
  end.

(** [impl_type == tag] *)
Definition tag_is (impl_type : Value) (tag : string) : bool :=
  match impl_type with
  | VStr s => String.eqb s tag
  | _ => false
  end.

Definition execute_func (ex : Executor) (func : Func) (input_value : Value)
  : outcome Value :=
  let impl := f_impl func in
  let impl_type := impl_type_of impl in
  if tag_is impl_type "sparql" then _execute_sparql ex impl input_value
  else if tag_is impl_type "formula" then _execute_formula ex impl input_value
  else if tag_is impl_type "rest" then _execute_rest ex impl input_value
  else if tag_is impl_type "builtin" then _execute_builtin ex impl input_value
  else if tag_is impl_type "unit_conversion"
       then _execute_unit_conversion impl input_value
  else if tag_is impl_type "json" then _execute_json ex impl input_value
  else if tag_is impl_type "template" then _execute_template ex impl input_value
  else Raise (ExecutionError
                ("Unknown impl type: " ++ py_str host impl_type)%string).

Fixpoint execute_path (ex : Executor) (path : list Func) (input_value : Value)
  : outcome Value :=
  match path with
  | [] => Ok input_value
  | func :: rest =>
      result <- execute_func ex func input_value ;;
      execute_path ex rest result
  end.

(** The binding of a source node; [IndexError] is
    [list(source_values.values())[0]] on an empty mapping. *)
Definition fuzzy_match (type_name : string) (kv : string * Value) : bool :=
  (py_in type_name (fst kv) || py_in (fst kv) type_name)%bool.

Definition bind_source (node_id type_name : string)
  (source_values : list (string * Value)) : outcome Value :=
  match dict_get source_values node_id with
  | Some v => Ok v
  | None =>
      match find (fuzzy_match type_name) source_values with
      | Some (_, val) => Ok val
      | None =>
          match dict_values source_values with
          | v :: _ => Ok v
          | [] => Raise (IndexError "list index out of range")
          end
      end
  end.

(** [node_values[k]] *)
Definition node_value (node_values : list (string * Value)) (k : string)
  : outcome Value :=
  match dict_get node_values k with
  | Some v => Ok v
  | None => Raise (KeyError k)
  end.

Fixpoint node_values_of (node_values : list (string * Value))
  (ids : list string) : outcome (list Value) :=
  match ids with
  | [] => Ok []
  | k :: rest =>
      v <- node_value node_values k ;;
      vs <- node_values_of node_values rest ;;
      Ok (v :: vs)
  end.

(** [if node.path: ... elif node.func: ... else: ...] *)
Definition apply_node (ex : Executor) (node : DAGNode) (input_value : Value)
  : outcome Value :=
  match n_path node with
  | _ :: _ => execute_path ex (n_path node) input_value
  | [] =>
      match n_func node with
      | Some func => execute_func ex func input_value
      | None => Ok input_value
      end
  end.

(** The body of [for node_id in order]. *)
Definition execute_node (ex : Executor) (dag : SynthesisDAG)
  (source_values : list (string * Value)) (node_id : string)
  (node_values : list (string * Value)) : outcome (list (string * Value)) :=
  match dict_get (nodes dag) node_id with
  | None => Raise (KeyError node_id)
  | Some node =>
      if String.eqb (n_node_type node) "source" then
        v <- bind_source node_id (n_type_name node) source_values ;;
        Ok (dict_set node_values node_id v)
      else if String.eqb (n_node_type node) "transform" then
        match n_inputs node with
        | [] => Raise (IndexError "list index out of range")
        | input_node_id :: _ =>
            input_value <- node_value node_values input_node_id ;;
            v <- apply_node ex node input_value ;;
            Ok (dict_set node_values node_id v)
        end
      else if (String.eqb (n_node_type node) "aggregate"
               || String.eqb (n_node_type node) "goal")%bool then
        match n_inputs node with
        | _ :: _ :: _ =>
            input_values <- node_values_of node_values (n_inputs node) ;;
            v <- apply_node ex node (VTuple input_values) ;;
            Ok (dict_set node_values node_id v)
        | [input_node_id] =>
            input_value <- node_value node_values input_node_id ;;
            v <- apply_node ex node input_value ;;
            Ok (dict_set node_values node_id v)
        | [] =>
            v <- apply_node ex node VNone ;;
            Ok (dict_set node_values node_id v)
        end
      else Ok node_values
  end.

Definition execute_nodes (ex : Executor) (dag : SynthesisDAG)
  (source_values : list (string * Value)) (order : list string)
  (node_values : list (string * Value)) : outcome (list (string * Value)) :=
  fold_bind (execute_node ex dag source_values) order node_values.

Definition execute_dag (fuel : nat) (ex : Executor) (dag : SynthesisDAG)
  (source_values : list (string * Value)) : outcome Value :=
  order <- topological_order fuel dag ;;
  node_values <- execute_nodes ex dag source_values order [] ;;
  node_value node_values (goal_node dag).

(** The high-level API. *)
Definition execute_synthesis_result (result : SynthesisResult)
  (input_value : Value) (ctx : option ExecutionContext) : outcome Value :=
  execute_path (Executor_init ctx) (sr_path result) input_value.

Definition source_name (type_name : string) (i : nat) : string :=
  ("source_" ++ type_name ++ "_" ++ str_of_nat i)%string.

Fixpoint number_source_values (i : nat) (sources : list (string * Value))
  (acc : list (string * Value)) : list (string * Value) :=
  match sources with
  | [] => acc
  | (type_name, value) :: rest =>
      number_source_values (S i) rest
        (dict_set acc (source_name type_name i) value)
  end.

Definition synthesize_and_execute (fuel : nat) (catalog : Catalog)
  (sources : list (string * Value)) (goal : string)
  (ctx : option ExecutionContext) (max_cost : Q) : outcome Value :=
  let executor := Executor_init ctx in
  match sources with
  | [(src_type, src_value)] =>
      results <- synthesize_backward fuel catalog src_type goal max_cost
                   default_max_results ;;
      match results with
      | [] => Raise (ExecutionError
                       ("No path found from " ++ src_type ++ " to " ++ goal)%string)
      | r :: _ => execute_path executor (sr_path r) src_value
      end
  | _ =>
      dag <- synthesize_multiarg_full fuel catalog
               (number_sources 0 sources []) goal max_cost true ;;
      match dag with
      | None => Raise (ExecutionError
                         ("No multi-source path found to " ++ goal)%string)
      | Some dag =>
          execute_dag fuel executor dag (number_source_values 0 sources [])
      end
  end.
End Interpreter.

(* ================================================================= *)
(** ** provenance.py *)

(** The two sources of non-determinism of the PROV layer: [uuid.uuid4()]
    and [datetime.now()].  A world gives the successive answers of both
    and counts how many were consumed. *)
Record World : Type := mkWorld {
  uuid_hex8 : nat -> string;     (* [uuid.uuid4().hex[:8]], call by call *)
  uuid_drawn : nat;
  now_iso : nat -> string;       (* [datetime.now().isoformat()] *)
  clock_read : nat
}.

Definition draw_uuid (w : World) : string * World :=
  (uuid_hex8 w (uuid_drawn w),
   mkWorld (uuid_hex8 w) (S (uuid_drawn w)) (now_iso w) (clock_read w)).

Definition read_clock (w : World) : string * World :=
  (now_iso w (clock_read w),
   mkWorld (uuid_hex8 w) (uuid_drawn w) (now_iso w) (S (clock_read w))).

Record Entity : Type := mkEntity {
  ent_id : string;
  ent_type_name : string;
  ent_value : Value;
  ent_attributes : list (string * Value);
  ent_timestamp : string
}.

Record Activity : Type := mkActivity {
  act_id : string;
  act_func_id : string;
  act_func_signature : string;
  act_start_time : string;
  act_end_time : option string;
  act_attributes : list (string * Value)
}.

Record Agent : Type := mkAgent {
  ag_id : string;
  ag_name : string;
  ag_agent_type : string;
  ag_attributes : list (string * Value)
}.

Record Usage : Type := mkUsage {
  us_activity_id : string;
  us_entity_id : string;
  us_role : string;
  us_timestamp : string
}.

Record Generation : Type := mkGeneration {
  gen_entity_id : string;
  gen_activity_id : string;
  gen_role : string;
  gen_timestamp : string
}.

Record Derivation : Type := mkDerivation {
  derived_entity_id : string;
  source_entity_id : string;
  der_activity_id : option string;
  derivation_type : string
}.

Record Association : Type := mkAssociation {
  assoc_activity_id : string;
  assoc_agent_id : string;
  assoc_role : string
}.

Record Attribution : Type := mkAttribution {
  attr_entity_id : string;
  attr_agent_id : string
}.

Record ProvenanceGraph : Type := mkProvenanceGraph {
  namespace : string;
  entities : list (string * Entity);
  activities : list (string * Activity);
  agents : list (string * Agent);
  usages : list Usage;
  generations : list Generation;
  derivations : list Derivation;
  associations : list Association;
  attributions : list Attribution;
  system_agent : string
}.

Definition _generate_id (prefix : string) (w : World) : string * World :=
  let '(u, w') := draw_uuid w in ((prefix ++ "_" ++ u)%string, w').

(** [entity_id] chosen by the caller, or generated. *)
Definition choose_id (given : option string) (prefix : string) (w : World)
  : string * World :=
  match given with
  | Some i => (i, w)
  | None => _generate_id prefix w
  end.

Definition add_entity (g : ProvenanceGraph) (w : World)
  (entity_id : option string) (type_name : string) (value : Value)
  (attributes : option (list (string * Value)))
  : string * ProvenanceGraph * World :=
  let '(eid, w1) := choose_id entity_id "entity" w in
  let '(ts, w2) := read_clock w1 in
  let entity := mkEntity eid type_name value
                  (match attributes with Some a => a | None => [] end) ts in
  (eid,
   mkProvenanceGraph (namespace g) (dict_set (entities g) eid entity)
     (activities g) (agents g) (usages g) (generations g) (derivations g)
     (associations g) (attributions g) (system_agent g),
   w2).

Definition add_activity (g : ProvenanceGraph) (w : World)
  (activity_id : option string) (func_id func_signature : string)
  (attributes : option (list (string * Value)))
  : string * ProvenanceGraph * World :=
  let '(aid, w1) := choose_id activity_id "activity" w in
  let '(ts, w2) := read_clock w1 in
  let activity := mkActivity aid func_id func_signature ts None
                    (match attributes with Some a => a | None => [] end) in
  (aid,
   mkProvenanceGraph (namespace g) (entities g)
     (dict_set (activities g) aid activity) (agents g) (usages g)
     (generations g) (derivations g) (associations g) (attributions g)
     (system_agent g),
   w2).

Definition end_activity (g : ProvenanceGraph) (w : World)
  (activity_id : string) : ProvenanceGraph * World :=
  match dict_get (activities g) activity_id with
  | Some a =>
      let '(ts, w1) := read_clock w in
      (mkProvenanceGraph (namespace g) (entities g)
         (dict_set (activities g) activity_id
            (mkActivity (act_id a) (act_func_id a) (act_func_signature a)
                        (act_start_time a) (Some ts) (act_attributes a)))
         (agents g) (usages g) (generations g) (derivations g)
         (associations g) (attributions g) (system_agent g),
       w1)
  | None => (g, w)
  end.

Definition add_agent (g : ProvenanceGraph) (w : World)
  (agent_id : option string) (name agent_type : string)
  (attributes : option (list (string * Value)))
  : string * ProvenanceGraph * World :=
  let '(gid, w1) := choose_id agent_id "agent" w in
  let agent := mkAgent gid name agent_type
                 (match attributes with Some a => a | None => [] end) in
  (gid,
   mkProvenanceGraph (namespace g) (entities g) (activities g)
     (dict_set (agents g) gid agent) (usages g) (generations g)
     (derivations g) (associations g) (attributions g) (system_agent g),
   w1).

Definition add_usage (g : ProvenanceGraph) (w : World)
  (activity_id entity_id role : string) : ProvenanceGraph * World :=
  let '(ts, w1) := read_clock w in
  (mkProvenanceGraph (namespace g) (entities g) (activities g) (agents g)
     (usages g ++ [mkUsage activity_id entity_id role ts]) (generations g)
     (derivations g) (associations g) (attributions g) (system_agent g),
   w1).

Definition add_generation (g : ProvenanceGraph) (w : World)
  (entity_id activity_id role : string) : ProvenanceGraph * World :=
  let '(ts, w1) := read_clock w in
  (mkProvenanceGraph (namespace g) (entities g) (activities g) (agents g)
     (usages g) (generations g ++ [mkGeneration entity_id activity_id role ts])
     (derivations g) (associations g) (attributions g) (system_agent g),
   w1).

Definition add_derivation (g : ProvenanceGraph)
  (derived source : string) (activity_id : option string) : ProvenanceGraph :=
  mkProvenanceGraph (namespace g) (entities g) (activities g) (agents g)
    (usages g) (generations g)
    (derivations g ++ [mkDerivation derived source activity_id "Derivation"])
    (associations g) (attributions g) (system_agent g).

Definition add_association (g : ProvenanceGraph)
  (activity_id agent_id role : string) : ProvenanceGraph :=
  mkProvenanceGraph (namespace g) (entities g) (activities g) (agents g)
    (usages g) (generations g) (derivations g)
    (associations g ++ [mkAssociation activity_id agent_id role])
    (attributions g) (system_agent g).

Definition add_attribution (g : ProvenanceGraph)
  (entity_id agent_id : string) : ProvenanceGraph :=
  mkProvenanceGraph (namespace g) (entities g) (activities g) (agents g)
    (usages g) (generations g) (derivations g) (associations g)
    (attributions g ++ [mkAttribution entity_id agent_id]) (system_agent g).

(** [ProvenanceGraph(namespace)] *)
Definition ProvenanceGraph_init (ns : string) (w : World)
  : ProvenanceGraph * World :=
  let g0 := mkProvenanceGraph ns [] [] [] [] [] [] [] [] "" in
  let '(sys, g1, w1) :=
    add_agent g0 w (Some "system") "TypeSynthesis System" "system"
              (Some [("version", VStr "1.0")]) in
  (mkProvenanceGraph (namespace g1) (entities g1) (activities g1) (agents g1)
     (usages g1) (generations g1) (derivations g1) (associations g1)
     (attributions g1) sys,
   w1).

Definition default_namespace : string := "http://example.org/provenance/".

(** The first derivation whose derived entity is [current]. *)
Definition derivation_source (g : ProvenanceGraph) (current : string)
  : option string :=
  match find (fun d => String.eqb (derived_entity_id d) current)
             (derivations g) with
  | Some d => Some (source_entity_id d)
  | None => None
  end.

(** The loop [while current and current not in visited] of
    [get_entity_lineage]; a Python [str] is falsy when empty. *)
Fixpoint lineage_loop (fuel : nat) (g : ProvenanceGraph)
  (current : option string) (lineage visited : list string)
  : outcome (list string) :=
  match fuel with
  | O => OutOfFuel
  | S fuel' =>
      match current with
      | None => Ok lineage
      | Some c =>
          if (String.eqb c "" || set_mem c visited)%bool then Ok lineage
          else lineage_loop fuel' g (derivation_source g c)
                            (lineage ++ [c]) (c :: visited)
      end
  end.

Definition get_entity_lineage (fuel : nat) (g : ProvenanceGraph)
  (entity_id : string) : outcome (list string) :=
  lineage_loop fuel g (Some entity_id) [] [].

Definition generating_activity (g : ProvenanceGraph) (ent : string)
  : option string :=
  match find (fun gn => String.eqb (gen_entity_id gn) ent) (generations g) with
  | Some gn => Some (gen_activity_id gn)
  | None => None
  end.

Definition get_activity_chain (fuel : nat) (g : ProvenanceGraph)
  (entity_id : string) : outcome (list string) :=
  lineage <- get_entity_lineage fuel g entity_id ;;
  Ok (flat_map (fun ent => match generating_activity g ent with
                           | Some a => [a]
                           | None => []
                           end) lineage).

Record ProvenanceTracker : Type := mkProvenanceTracker {
  graph : ProvenanceGraph;
  enabled : bool
}.

Definition ProvenanceTracker_init (g : option ProvenanceGraph) (w : World)
  : ProvenanceTracker * World :=
  match g with
  | Some g => (mkProvenanceTracker g true, w)
  | None =>
      let '(g, w') := ProvenanceGraph_init default_namespace w in
      (mkProvenanceTracker g true, w')
  end.

(** [for i, input_id in enumerate(input_entity_ids): add_usage(activity_id,
    input_id, role=f"input_{i}")] *)
Fixpoint record_usages (g : ProvenanceGraph) (w : World)
  (activity_id : string) (i : nat) (input_entity_ids : list string)
  : ProvenanceGraph * World :=
  match input_entity_ids with
  | [] => (g, w)
  | input_id :: rest =>
      let '(g', w') :=
        add_usage g w activity_id input_id ("input_" ++ str_of_nat i)%string in
      record_usages g' w' activity_id (S i) rest
  end.

Definition record_derivations (g : ProvenanceGraph) (output_id : string)
  (activity_id : string) (input_entity_ids : list string) : ProvenanceGraph :=
  fold_left (fun g input_id => add_derivation g output_id input_id
                                 (Some activity_id))
            input_entity_ids g.

Definition track_function_execution (t : ProvenanceTracker) (w : World)
  (func_id func_signature : string) (input_entity_ids : list string)
  (output_value : Value) (output_type : string)
  : option string * ProvenanceTracker * World :=
  if negb (enabled t) then (None, t, w)
  else
    let '(activity_id, g1, w1) :=
      add_activity (graph t) w None func_id func_signature None in
    let g2 := add_association g1 activity_id (system_agent g1) "" in
    let '(g3, w3) := record_usages g2 w1 activity_id 0 input_entity_ids in
    let '(output_id, g4, w4) :=
      add_entity g3 w3 None output_type output_value None in
    let '(g5, w5) := add_generation g4 w4 output_id activity_id "output" in
    let g6 := record_derivations g5 output_id activity_id input_entity_ids in
    let '(g7, w7) := end_activity g6 w5 activity_id in
    (Some output_id, mkProvenanceTracker g7 (enabled t), w7).

(** One tracked call, as its arguments. *)
Record Call : Type := mkCall {
  call_func_id : string;
  call_func_signature : string;
  call_inputs : list string;
  call_output_value : Value;
  call_output_type : string
}.

(** A sequence of tracked calls, with the id each one returned. *)
Fixpoint track_all (t : ProvenanceTracker) (w : World) (calls : list Call)
  : list (option string) * ProvenanceTracker * World :=
  match calls with
  | [] => ([], t, w)
  | c :: rest =>
      let '(out, t1, w1) :=
        track_function_execution t w (call_func_id c) (call_func_signature c)
          (call_inputs c) (call_output_value c) (call_output_type c) in
      let '(outs, t2, w2) := track_all t1 w1 rest in
      (out :: outs, t2, w2)
  end.

(* ================================================================= *)
(** ** The search and the planner on binary64 numbers *)

(** Costs and confidences are Python floats.  The definitions of
    [synth_lib.py] given above follow the code with exact rationals in
    their place; the same definitions follow here with the floats
    themselves: IEEE 754 binary64 numbers, added, multiplied and
    compared as the hardware does it.  What depends on the rounding of
    sums and products is stated on these; of the queue and of the final
    sort the statements on this rendering use only that they keep the
    entries they are given. *)
Module Binary64.

(** *** [sorted(l, key=...)] on a float key *)

Section Sorted.
Context {A : Type} (key : A -> float).

(** [x] goes before the first element whose key is greater. *)
Fixpoint insert_sorted (x : A) (l : list A) : list A :=
  match l with
  | [] => [x]
  | y :: l' =>
      if (key x <? key y)%float then x :: l
      else y :: insert_sorted x l'
  end.

Definition sorted (l : list A) : list A :=
  fold_left (fun acc x => insert_sorted x acc) l [].
End Sorted.

(** *** The data model *)

Record Func : Type := mkFunc {
  f_id : string;
  f_dom : Dom;
  f_cod : string;
  f_cost : float;
  f_conf : float;
  f_impl : list (string * Value);
  f_inverse_of : option string;
  f_doc : string
}.

Definition is_multiarg (f : Func) : bool :=
  match f_dom f with Multi _ => true | Single _ => false end.

Definition dom_types (f : Func) : list string :=
  match f_dom f with Multi ts => ts | Single t => [t] end.


Record Catalog : Type := mkCatalog {
  types : list (string * TypeDef);
  product_types : list (string * ProductType);
  funcs : list Func;
  by_cod : list (string * list Func);
  by_dom : list (string * list Func);
  unit_registry : UnitRegistry
}.

Definition Catalog_init : Catalog :=
  mkCatalog [] [] [] [] [] UnitRegistry_init.

Definition add_type (c : Catalog) (t : TypeDef) : Catalog :=
  mkCatalog (dict_set (types c) (td_name t) t) (product_types c) (funcs c)
            (by_cod c) (by_dom c) (unit_registry c).

Definition add_product_type (c : Catalog) (p : ProductType) : Catalog :=
  mkCatalog (types c) (dict_set (product_types c) (pt_name p) p) (funcs c)
            (by_cod c) (by_dom c) (unit_registry c).

(** [index[k].append(f)], creating the bucket when the key is new. *)
Definition index_append (index : list (string * list Func)) (k : string)
  (f : Func) : list (string * list Func) :=
  match dict_get index k with
  | Some bucket => dict_set index k (bucket ++ [f])
  | None => dict_set index k [f]
  end.

Definition add_func (c : Catalog) (f : Func) : Catalog :=
  mkCatalog (types c) (product_types c) (funcs c ++ [f])
            (index_append (by_cod c) (f_cod f) f)
            (fold_left (fun idx t => index_append idx t f) (dom_types f)
                       (by_dom c))
            (unit_registry c).

Definition funcs_returning (c : Catalog) (type_name : string) : list Func :=
  match dict_get (by_cod c) type_name with Some l => l | None => [] end.


(** The [ProofNode] dataclass, field by field. *)
Inductive ProofNode : Type :=
| mkProofNode (node_type : ProofNodeType) (func : option Func)
    (children : list ProofNode) (index : Z)
    (source_type target_type : string).

Definition pn_node_type (p : ProofNode) : ProofNodeType :=
  match p with mkProofNode t _ _ _ _ _ => t end.
Definition pn_func (p : ProofNode) : option Func :=
  match p with mkProofNode _ f _ _ _ _ => f end.
Definition pn_children (p : ProofNode) : list ProofNode :=
  match p with mkProofNode _ _ c _ _ _ => c end.
Definition pn_index (p : ProofNode) : Z :=
  match p with mkProofNode _ _ _ i _ _ => i end.
Definition pn_source_type (p : ProofNode) : string :=
  match p with mkProofNode _ _ _ _ s _ => s end.
Definition pn_target_type (p : ProofNode) : string :=
  match p with mkProofNode _ _ _ _ _ t => t end.

Definition make_identity (type_name : string) : ProofNode :=
  mkProofNode IDENTITY None [] 0 type_name type_name.

Definition make_func (f : Func) : ProofNode :=
  mkProofNode FUNCTION (Some f) [] 0
    (match f_dom f with
     | Single t => t
     | Multi ts => str_of_str_list ts
     end)
    (f_cod f).

(** The flattening loop of [make_composition]. *)
Definition flatten_proofs (proofs : list ProofNode) : list ProofNode :=
  flat_map (fun p =>
              match pn_node_type p with
              | COMPOSITION => pn_children p
              | IDENTITY => []
              | _ => [p]
              end) proofs.

Definition make_composition (proofs : list ProofNode) : outcome ProofNode :=
  match proofs with
  | [] => Raise (ValueError "Empty composition")
  | [p] => Ok p
  | p0 :: _ =>
      match flatten_proofs proofs with
      | [] => Ok (make_identity (pn_source_type p0))
      | [q] => Ok q
      | q0 :: rest =>
          Ok (mkProofNode COMPOSITION None (q0 :: rest) 0
                (pn_source_type q0) (pn_target_type (last rest q0)))
      end
  end.

Definition make_tuple (proofs : list ProofNode) : ProofNode :=
  mkProofNode TUPLE None proofs 0
    ("(" ++ String.concat ", " (map pn_source_type proofs) ++ ")")%string
    ("(" ++ String.concat ", " (map pn_target_type proofs) ++ ")")%string.


Record SynthesisResult : Type := mkSynthesisResult {
  sr_cost : float;
  sr_confidence : float;
  sr_path : list Func;
  sr_proof : ProofNode
}.

Record DAGNode : Type := mkDAGNode {
  n_id : string;
  n_node_type : string;   (* "source", "transform", "aggregate", "goal" *)
  n_type_name : string;
  n_func : option Func;
  n_inputs : list string;
  n_path : list Func;
  n_value : Value
}.

Record SynthesisDAG : Type := mkSynthesisDAG {
  nodes : list (string * DAGNode);
  source_nodes : list string;
  goal_node : string;
  total_cost : float;
  total_confidence : float;
  proof : ProofNode
}.

(** [compute_cost] and [compute_confidence]: [sum] and
    [reduce(operator.mul, ..., 1.0)], both folding from the left, as
    [sum] does up to Python 3.11; from 3.12 on [sum] compensates the
    rounding error of floats, and gives the same number on the paths
    evaluated below. *)
Definition compute_cost (path : list Func) : float :=
  fold_left PrimFloat.add (map f_cost path) 0%float.

Definition compute_confidence (path : list Func) : float :=
  match path with
  | [] => 1%float
  | _ => fold_left PrimFloat.mul (map f_conf path) 1%float
  end.

(** *** [synthesize_backward]: the single-source search *)

(** A queue entry [(cum_cost, counter, cur_type, path, confidence)]. *)
Record Entry : Type := mkEntry {
  e_cost : float;
  e_counter : nat;
  e_type : string;
  e_path : list Func;
  e_conf : float
}.

(** Tuple comparison: the first components decide unless they are
    equal, and then the counters do.  The counter is unique in the
    queue, so Python never compares the remaining components. *)
Definition entry_ltb (a b : Entry) : bool :=
  if (e_cost a =? e_cost b)%float then (e_counter a <? e_counter b)%nat
  else (e_cost a <? e_cost b)%float.

(** [heapq.heappush] and [heapq.heappop].  A heap is observed only
    through the entries popped from it, so the queue is the bag of its
    entries and a pop removes the least one. *)
Definition heappush (pq : list Entry) (e : Entry) : list Entry := e :: pq.

Fixpoint heappop (pq : list Entry) : option (Entry * list Entry) :=
  match pq with
  | [] => None
  | e :: rest =>
      match heappop rest with
      | None => Some (e, [])
      | Some (m, rest') =>
          if entry_ltb m e then Some (m, e :: rest') else Some (e, rest)
      end
  end.

(** The expansion loop [for f in catalog.funcs_returning(cur_type)]. *)
Fixpoint expand (fs : list Func) (cum_cost : float) (path : list Func)
  (confidence : float) (max_cost : float) (counter : nat) (pq : list Entry)
  : nat * list Entry :=
  match fs with
  | [] => (counter, pq)
  | f :: fs' =>
      match f_dom f with
      | Multi _ => expand fs' cum_cost path confidence max_cost counter pq
      | Single next_type =>
          let new_cost := (cum_cost + f_cost f)%float in
          if (max_cost <? new_cost)%float
          then expand fs' cum_cost path confidence max_cost counter pq
          else
            let new_path := f :: path in
            let new_confidence := (confidence * f_conf f)%float in
            let counter' := S counter in
            expand fs' cum_cost path confidence max_cost counter'
              (heappush pq (mkEntry new_cost counter' next_type new_path
                              new_confidence))
      end
  end.

(** [cur_type in visited_best and cum_cost >= visited_best[cur_type]] *)
Definition pruned (visited_best : list (string * float)) (cur_type : string)
  (cum_cost : float) : bool :=
  match dict_get visited_best cur_type with
  | Some best => (best <=? cum_cost)%float
  | None => false
  end.

(** The proof attached to a found path. *)
Definition result_proof (src_type : string) (path : list Func)
  : outcome ProofNode :=
  match path with
  | [] => Ok (make_identity src_type)
  | _ => make_composition (map make_func path)
  end.

(** The [while pq and len(results) < max_results] loop; one unit of fuel
    per iteration. *)
Fixpoint search_loop (fuel : nat) (catalog : Catalog) (src_type : string)
  (max_cost : float) (max_results : Z) (counter : nat) (pq : list Entry)
  (visited_best : list (string * float)) (results : list SynthesisResult)
  : outcome (list SynthesisResult) :=
  match fuel with
  | O => OutOfFuel
  | S fuel' =>
      if negb (Z.of_nat (List.length results) <? max_results)%Z
      then Ok results
      else
        match heappop pq with
        | None => Ok results
        | Some (e, pq') =>
            if String.eqb (e_type e) src_type then
              pr <- result_proof src_type (e_path e) ;;
              search_loop fuel' catalog src_type max_cost max_results counter
                pq' visited_best
                (results ++ [mkSynthesisResult (e_cost e) (e_conf e)
                                               (e_path e) pr])
            else if pruned visited_best (e_type e) (e_cost e) then
              search_loop fuel' catalog src_type max_cost max_results counter
                pq' visited_best results
            else
              let visited_best' :=
                dict_set visited_best (e_type e) (e_cost e) in
              let '(counter', pq'') :=
                expand (funcs_returning catalog (e_type e)) (e_cost e)
                       (e_path e) (e_conf e) max_cost counter pq' in
              search_loop fuel' catalog src_type max_cost max_results
                counter' pq'' visited_best' results
        end
  end.

(** The discovery-ordered [results] list, before the final sort. *)
Definition discovered (fuel : nat) (catalog : Catalog)
  (src_type goal_type : string) (max_cost : float) (max_results : Z)
  : outcome (list SynthesisResult) :=
  search_loop fuel catalog src_type max_cost max_results 0
    [mkEntry 0 0 goal_type [] 1] [] [].

Definition synthesize_backward (fuel : nat) (catalog : Catalog)
  (src_type goal_type : string) (max_cost : float) (max_results : Z)
  : outcome (list SynthesisResult) :=
  results <- discovered fuel catalog src_type goal_type max_cost max_results ;;
  Ok (sorted sr_cost results).

(** The defaults [max_cost=100.0] and [max_results=10]. *)
Definition default_max_cost : float := 100.
Definition default_max_results : Z := 10.


(** *** The multi-source planner: argument resolution *)

(** [for src_id, src_type in sources.items(): if src_type == required_type
    and src_id not in used_sources: ... break] *)
Fixpoint find_direct (sources : list (string * string))
  (required_type : string) (used_sources : list string) : option string :=
  match sources with
  | [] => None
  | (src_id, src_type) :: rest =>
      if String.eqb src_type required_type && negb (set_mem src_id used_sources)
      then Some src_id
      else find_direct rest required_type used_sources
  end.

(** [for src_id, src_type in sources.items(): results =
    synthesize_backward(catalog, src_type, required_type, budget);
    if results: ... break] *)
Fixpoint find_by_search (fuel : nat) (catalog : Catalog)
  (sources : list (string * string)) (required_type : string) (budget : float)
  : outcome (option (string * SynthesisResult)) :=
  match sources with
  | [] => Ok None
  | (src_id, src_type) :: rest =>
      results <- synthesize_backward fuel catalog src_type required_type
                   budget default_max_results ;;
      match results with
      | r :: _ => Ok (Some (src_id, r))
      | [] => find_by_search fuel catalog rest required_type budget
      end
  end.

Definition identity_result (type_name : string) : SynthesisResult :=
  mkSynthesisResult 0 1 [] (make_identity type_name).

(** The local variables of [_try_synthesize_multiarg_func]. *)
Record ArgState : Type := mkArgState {
  arg_results : list (string * SynthesisResult);
  as_total_cost : float;
  as_total_confidence : float;
  used_sources : list string
}.

(** [for required_type in required_types: ...]; [None] is the early
    [return None]. *)
Fixpoint resolve_args (fuel : nat) (catalog : Catalog)
  (sources : list (string * string)) (required_types : list string)
  (remaining_cost : float) (st : ArgState) : outcome (option ArgState) :=
  match required_types with
  | [] => Ok (Some st)
  | required_type :: rest =>
      match find_direct sources required_type (used_sources st) with
      | Some src_id =>
          resolve_args fuel catalog sources rest remaining_cost
            (mkArgState
               (arg_results st ++ [(src_id, identity_result required_type)])
               (as_total_cost st) (as_total_confidence st)
               (src_id :: used_sources st))
      | None =>
          found <- find_by_search fuel catalog sources required_type
                     (remaining_cost - as_total_cost st)%float ;;
          match found with
          | Some (src_id, r) =>
              resolve_args fuel catalog sources rest remaining_cost
                (mkArgState
                   (arg_results st ++ [(src_id, r)])
                   (as_total_cost st + sr_cost r)%float
                   (as_total_confidence st * sr_confidence r)%float
                   (used_sources st))
          | None => Ok None
          end
      end
  end.

(** The component loop of [_try_synthesize_via_product]: the same, with
    no set of used sources. *)
Fixpoint find_direct_component (sources : list (string * string))
  (component : string) : option string :=
  match sources with
  | [] => None
  | (src_id, src_type) :: rest =>
      if String.eqb src_type component then Some src_id
      else find_direct_component rest component
  end.

Record CompState : Type := mkCompState {
  component_results : list (string * string * SynthesisResult);
  cs_total_cost : float;
  cs_total_confidence : float
}.

Fixpoint resolve_components (fuel : nat) (catalog : Catalog)
  (sources : list (string * string)) (components : list string)
  (remaining_cost : float) (st : CompState) : outcome (option CompState) :=
  match components with
  | [] => Ok (Some st)
  | component :: rest =>
      match find_direct_component sources component with
      | Some src_id =>
          resolve_components fuel catalog sources rest remaining_cost
            (mkCompState
               (component_results st
                  ++ [(src_id, component, identity_result component)])
               (cs_total_cost st) (cs_total_confidence st))
      | None =>
          found <- find_by_search fuel catalog sources component
                     (remaining_cost - cs_total_cost st)%float ;;
          match found with
          | Some (src_id, r) =>
              resolve_components fuel catalog sources rest remaining_cost
                (mkCompState
                   (component_results st ++ [(src_id, component, r)])
                   (cs_total_cost st + sr_cost r)%float
                   (cs_total_confidence st * sr_confidence r)%float)
          | None => Ok None
          end
      end
  end.

(** *** The multi-source planner: DAG construction *)

Definition source_node (src_id src_type : string) : DAGNode :=
  mkDAGNode src_id "source" src_type None [] [] VNone.

(** [for src_id, src_type in sources.items(): nodes[src_id] = ...] *)
Definition add_source_nodes (sources : list (string * string))
  : list (string * DAGNode) :=
  fold_left (fun nodes '(src_id, src_type) =>
               dict_set nodes src_id (source_node src_id src_type))
            sources [].

(** [path[-1] if path else None] *)
Definition last_func (path : list Func) : option Func :=
  match path with
  | [] => None
  | f :: rest => Some (last rest f)
  end.

(** [path[0] if path else None] *)
Definition first_func (path : list Func) : option Func :=
  match path with
  | [] => None
  | f :: _ => Some f
  end.

Definition transform_node (type_name : string) (i : nat) (src_id : string)
  (path : list Func) : DAGNode :=
  mkDAGNode (transform_id type_name i) "transform" type_name (last_func path)
            [src_id] path VNone.

(** What the two construction loops accumulate. *)
Record BuildState : Type := mkBuildState {
  bs_nodes : list (string * DAGNode);
  bs_inputs : list string;
  bs_proofs : list ProofNode
}.

(** One round of either loop, for the argument or component of type
    [type_name] at position [i]. *)
Definition build_step (type_name : string) (i : nat) (src_id : string)
  (result : SynthesisResult) (st : BuildState) : BuildState :=
  match sr_path result with
  | [] =>
      mkBuildState (bs_nodes st) (bs_inputs st ++ [src_id])
                   (bs_proofs st ++ [make_identity type_name])
  | _ :: _ =>
      mkBuildState
        (dict_set (bs_nodes st) (transform_id type_name i)
                  (transform_node type_name i src_id (sr_path result)))
        (bs_inputs st ++ [transform_id type_name i])
        (bs_proofs st ++ [sr_proof result])
  end.

(** [for i, (src_id, result) in enumerate(arg_results)], reading
    [goal_func.dom_types[i]]. *)
Fixpoint build_arg_nodes (goal_func : Func) (i : nat)
  (args : list (string * SynthesisResult)) (st : BuildState)
  : outcome BuildState :=
  match args with
  | [] => Ok st
  | (src_id, result) :: rest =>
      match nth_error (dom_types goal_func) i with
      | None => Raise (IndexError "list index out of range")
      | Some required_type =>
          build_arg_nodes goal_func (S i) rest
            (build_step required_type i src_id result st)
      end
  end.

Definition _build_dag_from_multiarg (sources : list (string * string))
  (goal_type : string) (goal_func : Func)
  (args : list (string * SynthesisResult)) (total_cost total_confidence : float)
  : outcome SynthesisDAG :=
  st <- build_arg_nodes goal_func 0 args
          (mkBuildState (add_source_nodes sources) [] []) ;;
  let goal_node_id := "goal" in
  let nodes :=
    dict_set (bs_nodes st) goal_node_id
      (mkDAGNode goal_node_id "goal" goal_type (Some goal_func)
                 (bs_inputs st) [] VNone) in
  let tuple_proof := make_tuple (bs_proofs st) in
  full_proof <- make_composition [tuple_proof; make_func goal_func] ;;
  Ok (mkSynthesisDAG nodes (map fst sources) goal_node_id total_cost
                     total_confidence full_proof).

(** [for i, (src_id, component, result) in enumerate(component_results)] *)
Fixpoint build_component_nodes (i : nat)
  (comps : list (string * string * SynthesisResult)) (st : BuildState)
  : BuildState :=
  match comps with
  | [] => st
  | (src_id, component, result) :: rest =>
      build_component_nodes (S i) rest
        (build_step component i src_id result st)
  end.

Definition _build_dag_from_product (sources : list (string * string))
  (goal_type : string) (product_name : string) (product_type : ProductType)
  (comps : list (string * string * SynthesisResult))
  (agg_result : SynthesisResult) (total_cost total_confidence : float)
  : outcome SynthesisDAG :=
  let st := build_component_nodes 0 comps
              (mkBuildState (add_source_nodes sources) [] []) in
  let agg_node_id := "aggregate" in
  let nodes :=
    dict_set (bs_nodes st) agg_node_id
      (mkDAGNode agg_node_id "aggregate" goal_type
                 (first_func (sr_path agg_result)) (bs_inputs st)
                 (sr_path agg_result) VNone) in
  let tuple_proof := make_tuple (bs_proofs st) in
  full_proof <- match sr_path agg_result with
                | [] => Ok tuple_proof
                | _ :: _ => make_composition [tuple_proof; sr_proof agg_result]
                end ;;
  Ok (mkSynthesisDAG nodes (map fst sources) agg_node_id total_cost
                     total_confidence full_proof).

Definition _single_path_to_dag (src_id src_type goal_type : string)
  (result : SynthesisResult) : SynthesisDAG :=
  let nodes := dict_set [] src_id (source_node src_id src_type) in
  let nodes :=
    dict_set nodes "goal"
      (mkDAGNode "goal" "goal" goal_type (last_func (sr_path result))
                 [src_id] (sr_path result) VNone) in
  mkSynthesisDAG nodes [src_id] "goal" (sr_cost result)
                 (sr_confidence result) (sr_proof result).

(** *** The three strategies and the selection *)

Definition _try_synthesize_multiarg_func (fuel : nat) (catalog : Catalog)
  (sources : list (string * string)) (goal_type : string) (goal_func : Func)
  (max_cost : float) : outcome (option SynthesisDAG) :=
  let required_types := dom_types goal_func in
  let remaining_cost := (max_cost - f_cost goal_func)%float in
  st <- resolve_args fuel catalog sources required_types remaining_cost
          (mkArgState [] (f_cost goal_func) (f_conf goal_func) []) ;;
  match st with
  | None => Ok None
  | Some st =>
      dag <- _build_dag_from_multiarg sources goal_type goal_func
               (arg_results st) (as_total_cost st) (as_total_confidence st) ;;
      Ok (Some dag)
  end.

Definition _try_synthesize_via_product (fuel : nat) (catalog : Catalog)
  (sources : list (string * string)) (goal_type : string)
  (product_name : string) (product_type : ProductType) (max_cost : float)
  : outcome (option SynthesisDAG) :=
  agg_results <- synthesize_backward fuel catalog product_name goal_type
                   max_cost default_max_results ;;
  match agg_results with
  | [] => Ok None
  | agg_result :: _ =>
      let remaining_cost := (max_cost - sr_cost agg_result)%float in
      st <- resolve_components fuel catalog sources
              (pt_components product_type) remaining_cost
              (mkCompState [] (sr_cost agg_result)
                           (sr_confidence agg_result)) ;;
      match st with
      | None => Ok None
      | Some st =>
          dag <- _build_dag_from_product sources goal_type product_name
                   product_type (component_results st) agg_result
                   (cs_total_cost st) (cs_total_confidence st) ;;
          Ok (Some dag)
      end
  end.

(** Strategy A: [for goal_func in catalog.funcs_returning(goal_type)]. *)
Fixpoint multiarg_results (fuel : nat) (catalog : Catalog)
  (sources : list (string * string)) (goal_type : string) (max_cost : float)
  (goal_funcs : list Func) : outcome (list SynthesisDAG) :=
  match goal_funcs with
  | [] => Ok []
  | goal_func :: rest =>
      if is_multiarg goal_func then
        result <- _try_synthesize_multiarg_func fuel catalog sources
                    goal_type goal_func max_cost ;;
        others <- multiarg_results fuel catalog sources goal_type max_cost
                    rest ;;
        Ok (match result with
            | Some dag => dag :: others
            | None => others
            end)
      else multiarg_results fuel catalog sources goal_type max_cost rest
  end.

(** Strategy B: [for product_name, product_type in
    catalog.product_types.items()]. *)
Fixpoint product_results (fuel : nat) (catalog : Catalog)
  (sources : list (string * string)) (goal_type : string) (max_cost : float)
  (products : list (string * ProductType)) : outcome (list SynthesisDAG) :=
  match products with
  | [] => Ok []
  | (product_name, product_type) :: rest =>
      result <- _try_synthesize_via_product fuel catalog sources goal_type
                  product_name product_type max_cost ;;
      others <- product_results fuel catalog sources goal_type max_cost rest ;;
      Ok (match result with
          | Some dag => dag :: others
          | None => others
          end)
  end.

(** Strategy C: [for src_id, src_type in sources.items()]. *)
Fixpoint single_results (fuel : nat) (catalog : Catalog)
  (goal_type : string) (max_cost : float) (srcs : list (string * string))
  : outcome (list SynthesisDAG) :=
  match srcs with
  | [] => Ok []
  | (src_id, src_type) :: rest =>
      results <- synthesize_backward fuel catalog src_type goal_type max_cost
                   default_max_results ;;
      others <- single_results fuel catalog goal_type max_cost rest ;;
      Ok (match results with
          | r :: _ => _single_path_to_dag src_id src_type goal_type r :: others
          | [] => others
          end)
  end.

(** The selection at the end of [synthesize_multiarg_full]. *)
Definition select_result (prefer_multiarg : bool)
  (ma pr si : list SynthesisDAG) : option SynthesisDAG :=
  let all_results :=
    if prefer_multiarg
    then sorted total_cost ma ++ sorted total_cost pr ++ sorted total_cost si
    else sorted total_cost (ma ++ pr ++ si) in
  match all_results with
  | d :: _ => Some d
  | [] => None
  end.

Definition synthesize_multiarg_full (fuel : nat) (catalog : Catalog)
  (sources : list (string * string)) (goal_type : string) (max_cost : float)
  (prefer_multiarg : bool) : outcome (option SynthesisDAG) :=
  ma <- multiarg_results fuel catalog sources goal_type max_cost
          (funcs_returning catalog goal_type) ;;
  pr <- product_results fuel catalog sources goal_type max_cost
          (product_types catalog) ;;
  si <- single_results fuel catalog goal_type max_cost sources ;;
  Ok (select_result prefer_multiarg ma pr si).

End Binary64.

(* ================================================================= *)
(** ** Vocabulary of the statements *)

(** Every function of the codomain index has a non-negative cost. *)
Definition nonneg_costs (catalog : Catalog) : Prop :=
  Forall (fun kv => Forall (fun f => (0 <= f_cost f)%Q) (snd kv))
         (by_cod catalog).

(** The functions of the index whose codomain was not expanded yet. *)
Definition unvisited_size (index : list (string * list Func))
  (visited_best : list (string * Q)) : nat :=
  index_size (filter (fun kv => negb (dict_mem visited_best (fst kv))) index).

(** Every recorded best cost is at most the cost of every queued entry. *)
Definition closed_below (visited_best : list (string * Q)) (pq : list Entry)
  : Prop :=
  forall e t best, In e pq -> dict_get visited_best t = Some best ->
                   (best <= e_cost e)%Q.

(** [path] is a chain of single-argument functions from [src] to [goal]. *)
Fixpoint chain (src goal : string) (path : list Func) : Prop :=
  match path with
  | [] => src = goal
  | f :: rest => f_dom f = Single src /\ chain (f_cod f) goal rest
  end.

(** The catalogs the API can build: [Catalog()] followed by any sequence
    of [add_type], [add_product_type] and [add_func]. *)
Inductive built : Catalog -> Prop :=
| built_init : built Catalog_init
| built_add_type c t : built c -> built (add_type c t)
| built_add_product_type c p : built c -> built (add_product_type c p)
| built_add_func c f : built c -> built (add_func c f).

(** All functions of the catalog have a non-negative cost. *)
Definition nonneg_funcs (catalog : Catalog) : Prop :=
  Forall (fun f => (0 <= f_cost f)%Q) (funcs catalog).

(** [d] is a cheapest element of [l]. *)
Definition cheapest (d : SynthesisDAG) (l : list SynthesisDAG) : Prop :=
  In d l /\ forall d', In d' l -> (total_cost d <= total_cost d')%Q.

(** The sum of [f.cost] over the path of every node of a DAG. *)
Definition paths_cost (nodes : list (string * DAGNode)) : Q :=
  fold_right (fun kv acc => (compute_cost (n_path (snd kv)) + acc)%Q) 0%Q nodes.

(** The cost of the function a node carries in its [func] field only. *)
Definition bare_func_cost (n : DAGNode) : Q :=
  match n_path n, n_func n with
  | [], Some f => f_cost f
  | _, _ => 0%Q
  end.

(** The flat composition [Compose([Func(f1), ..., Func(fn)])]. *)
Definition flat_compose (path : list Func) : ProofNode :=
  mkProofNode COMPOSITION None (map make_func path) 0
    (pn_source_type (make_func (hd (mkFunc "" (Single "") "" 0 0 [] None "") path)))
    (f_cod (last path (mkFunc "" (Single "") "" 0 0 [] None ""))).

(** The proof term as the specification words it: the identity for an
    empty path, the flat composition otherwise. *)
Definition claimed_proof (src : string) (path : list Func) : ProofNode :=
  match path with
  | [] => make_identity src
  | _ :: _ => flat_compose path
  end.

(** The proof term the search attaches: a one-function path is witnessed
    by the function node itself. *)
Definition path_proof (src : string) (path : list Func) : ProofNode :=
  match path with
  | [] => make_identity src
  | [f] => make_func f
  | _ :: _ :: _ => flat_compose path
  end.

(** Two small catalogs used to run the code. *)
Definition fn (name : string) (dom : Dom) (cod : string) (cost conf : Q) : Func :=
  mkFunc name dom cod cost conf [] None "".

Definition linear_catalog : Catalog :=
  add_func (add_func (add_func Catalog_init
    (fn "f" (Single "A") "B" 1 (9 / 10)))
    (fn "g" (Single "B") "C" 2 (8 / 10)))
    (fn "h" (Single "A") "C" 5 (5 / 10)).

Definition pair_catalog : Catalog :=
  add_func (add_func Catalog_init
    (fn "f" (Single "A") "B" 1 1))
    (fn "agg" (Multi ["A"; "B"]) "G" 1 1).

(** A result whose cost and confidence are those of its path. *)
Definition consistent (r : SynthesisResult) : Prop :=
  (sr_cost r == compute_cost (sr_path r))%Q
  /\ (sr_confidence r == compute_confidence (sr_path r))%Q.

(** The cost of the paths that supply the arguments. *)
Definition args_cost (args : list (string * SynthesisResult)) : Q :=
  fold_right (fun a acc => (compute_cost (sr_path (snd a)) + acc)%Q) 0%Q args.

Definition comps_cost (comps : list (string * string * SynthesisResult)) : Q :=
  fold_right (fun a acc => (compute_cost (sr_path (snd a)) + acc)%Q) 0%Q comps.

(** The total cost of a DAG against its nodes: the sum over the paths of
    all nodes, plus the function the goal node carries without a path. *)
Definition dag_cost_ok (d : SynthesisDAG) : Prop :=
  exists gn,
    dict_get (nodes d) (goal_node d) = Some gn
    /\ (total_cost d == paths_cost (nodes d) + bare_func_cost gn)%Q.

(** Nodes with a path are transform nodes numbered below [i]. *)
Definition keys_ok (i : nat) (nodes : list (string * DAGNode)) : Prop :=
  forall k n, In (k, n) nodes ->
              n_path n = [] \/ exists T j, (j < i)%nat /\ k = transform_id T j.

(** How one run of the argument loop supplies the required types, from
    state [st] to state [st']: a direct match takes a source of exactly
    the required type that is not consumed yet and consumes it; a search
    starts from any source, consumed or not, within the budget left, and
    consumes nothing. *)
Inductive supplies (fuel : nat) (catalog : Catalog)
  (sources : list (string * string)) (remaining_cost : Q)
  : list string -> ArgState -> ArgState -> Prop :=
| supplies_done st : supplies fuel catalog sources remaining_cost [] st st
| supplies_direct T rest st st' s :
    In (s, T) sources ->
    ~ In s (used_sources st) ->
    supplies fuel catalog sources remaining_cost rest
      (mkArgState (arg_results st ++ [(s, identity_result T)])
                  (as_total_cost st) (as_total_confidence st)
                  (s :: used_sources st)) st' ->
    supplies fuel catalog sources remaining_cost (T :: rest) st st'
| supplies_search T rest st st' s ty r rs :
    (forall s', In (s', T) sources -> In s' (used_sources st)) ->
    In (s, ty) sources ->
    synthesize_backward fuel catalog ty T
      (remaining_cost - as_total_cost st)%Q default_max_results = Ok (r :: rs) ->
    supplies fuel catalog sources remaining_cost rest
      (mkArgState (arg_results st ++ [(s, r)])
                  (as_total_cost st + sr_cost r)%Q
                  (as_total_confidence st * sr_confidence r)%Q
                  (used_sources st)) st' ->
    supplies fuel catalog sources remaining_cost (T :: rest) st st'.

Definition one_catalog : Catalog :=
  add_func Catalog_init (fn "f" (Single "A") "B" 1 1).

(** [a] occurs in [b] as a contiguous substring. *)
Definition substring_of (a b : string) : Prop :=
  exists p q, b = (p ++ a ++ q)%string.

(** The seven implementation tags. *)
Definition known_tags : list string :=
  ["formula"; "sparql"; "rest"; "builtin"; "unit_conversion"; "json";
   "template"].

(** The descriptor [_parse_impl] gives a function without [impl]. *)
Definition parsed_default_impl : list (string * Value) :=
  [("type", VStr "builtin"); ("name", VStr "identity")].

(** A host whose primitives all fail, to run the interpreter where no
    primitive is reached. *)
Definition no_host : PythonHost :=
  mkPythonHost
    (fun v => match v with VStr s => s | _ => "" end)
    (fun s => eq_refl)
    (fun _ _ _ => Raise (ValueError "eval"))
    (fun _ _ => Raise (TypeError "mul"))
    (fun _ => Raise (TypeError "sum"))
    (fun _ => Raise (TypeError "prod"))
    (fun _ _ => Raise (TypeError "truediv"))
    (fun _ => Raise (TypeError "abs"))
    (fun _ => Raise (TypeError "round"))
    (fun _ _ _ => Raise (ExecutionError "SPARQL execution failed"))
    false
    (fun _ _ => Raise (ExecutionError "get"))
    (fun _ _ _ => Raise (ExecutionError "post")).


(** A world whose identifiers are numbered. *)
Definition counting_world : World :=
  mkWorld str_of_nat 0 str_of_nat 0.

(** A proof node that flattening keeps as it is, and a node whose
    children, if it is a composition, are all of that kind. *)
Definition atomic (p : ProofNode) : Prop :=
  pn_node_type p <> COMPOSITION /\ pn_node_type p <> IDENTITY.

Definition flat (p : ProofNode) : Prop :=
  pn_node_type p = COMPOSITION -> Forall atomic (pn_children p).

(** A host that can only multiply numbers. *)
Definition arith_host : PythonHost :=
  mkPythonHost
    (fun v => match v with VStr s => s | _ => "" end)
    (fun s => eq_refl)
    (fun _ _ _ => Raise (ValueError "eval"))
    (fun a b => match a, b with
                | VNum x, VNum y => Ok (VNum (x * y))
                | _, _ => Raise (TypeError "mul")
                end)
    (fun _ => Raise (TypeError "sum"))
    (fun _ => Raise (TypeError "prod"))
    (fun _ _ => Raise (TypeError "truediv"))
    (fun _ => Raise (TypeError "abs"))
    (fun _ => Raise (TypeError "round"))
    (fun _ _ _ => Raise (ExecutionError "SPARQL execution failed"))
    false
    (fun _ _ => Raise (ExecutionError "get"))
    (fun _ _ _ => Raise (ExecutionError "post")).

(** The number of inputs of a sequence of tracked calls. *)
Definition total_inputs (calls : list Call) : nat :=
  fold_right (fun c acc => (List.length (call_inputs c) + acc)%nat) 0%nat calls.

(** Fuel that suffices for a lineage walk: the start and one step per
    derivation edge, plus the final test. *)
Definition lineage_fuel (g : ProvenanceGraph) : nat :=
  S (S (List.length (derivations g))).

(** Every input of every node names a node. *)
Definition inputs_closed (nodes : list (string * DAGNode)) : Prop :=
  forall k n, dict_get nodes k = Some n ->
              forall i, In i (n_inputs n) -> dict_mem nodes i = true.

(** The nodes not visited yet. *)
Definition unvisited (nodes : list (string * DAGNode)) (visited : list string)
  : nat :=
  List.length (filter (fun kv => negb (set_mem (fst kv) visited)) nodes).

(** What a visit adds: the nodes [new], appended to the order, none of
    them visited before, each with its inputs visited by the end. *)
Definition visit_post (nodes : list (string * DAGNode))
  (st st' : list string * list string) : Prop :=
  exists new,
    snd st' = snd st ++ new
    /\ NoDup new
    /\ (forall x, In x new -> ~ In x (fst st))
    /\ (forall x, In x (fst st') <-> In x (fst st) \/ In x new)
    /\ (forall x, In x new ->
                  exists n, dict_get nodes x = Some n
                            /\ forall i, In i (n_inputs n) -> In i (fst st')).

(** The same, for every entry of the association list. *)
Definition closed_nodes (nodes : list (string * DAGNode)) : Prop :=
  forall k n, In (k, n) nodes ->
              forall i, In i (n_inputs n) -> dict_mem nodes i = true.

(** The catalog of the product-type test, reduced to two scopes: both
    scope types are reached from a facility, and one aggregator takes
    the two scopes. *)
Definition scope_catalog : Catalog :=
  add_func (add_func (add_func Catalog_init
    (fn "facilityToScope1" (Single "Facility") "Scope1Emissions" 1 1))
    (fn "facilityToScope2" (Single "Facility") "Scope2Emissions" 1 1))
    (fn "aggregateScopes" (Multi ["Scope1Emissions"; "Scope2Emissions"])
        "TotalGHGEmissions" 1 1).

(** A catalog with a negative cost on which the search terminates and
    discovers the dearer route first. *)
Definition detour_catalog : Catalog :=
  add_func (add_func (add_func Catalog_init
    (fn "f2" (Single "B") "C" 2 1))
    (fn "h" (Single "A") "C" (3 / 2) 1))
    (fn "f1" (Single "A") "B" (-1) 1).

(** A chain of catalog functions from [src] to [goal], at any cost. *)
Definition route (catalog : Catalog) (src goal : string) (path : list Func)
  : Prop :=
  chain src goal path /\ Forall (fun f => In f (funcs catalog)) path.

(** A call that returns or does not terminate, but does not raise. *)
Definition never_raises {A : Type} (o : outcome A) : Prop :=
  forall e, o <> Raise e.

(** What a strategy gathers: the DAGs of its attempts that succeed, in
    the order of the attempts. *)
Definition gathered {X : Type} (attempt : X -> outcome (option SynthesisDAG))
  (xs : list X) : list SynthesisDAG :=
  flat_map (fun x => match attempt x with
                     | Ok (Some d) => [d]
                     | _ => []
                     end) xs.

(** One attempt of Strategy C: the first result of the search from the
    type of one source, as a DAG. *)
Definition single_path_attempt (fuel : nat) (catalog : Catalog)
  (goal_type : string) (max_cost : Q) (s : string * string)
  : outcome (option SynthesisDAG) :=
  match synthesize_backward fuel catalog (snd s) goal_type max_cost
          default_max_results with
  | Ok (r :: _) => Ok (Some (_single_path_to_dag (fst s) (snd s) goal_type r))
  | Ok [] => Ok None
  | Raise e => Raise e
  | OutOfFuel => OutOfFuel
  end.

(** Every attempt of the list returns. *)
Definition all_return {X A : Type} (attempt : X -> outcome A) (xs : list X)
  : Prop :=
  Forall (fun x => exists o, attempt x = Ok o) xs.

(** A world in which the fourth identifier drawn repeats the second: the
    eight hexadecimal digits kept of two [uuid4] values coincide. *)
Definition colliding_world : World :=
  mkWorld (fun n => if (n =? 3)%nat then str_of_nat 1 else str_of_nat n) 0
          str_of_nat 0.

(** Every input of every node has a smaller rank than the node, so that
    the inputs form no cycle. *)
Definition ranked (rank : string -> nat) (nodes : list (string * DAGNode))
  : Prop :=
  forall k n, dict_get nodes k = Some n ->
              forall i, In i (n_inputs n) -> (rank i < rank k)%nat.

Definition ranked_nodes (rank : string -> nat)
  (nodes : list (string * DAGNode)) : Prop :=
  forall k n, In (k, n) nodes ->
              forall i, In i (n_inputs n) -> (rank i < rank k)%nat.

(** In [order] every node comes after all its inputs. *)
Definition inputs_first (nodes : list (string * DAGNode))
  (order : list string) : Prop :=
  forall before x after, order = before ++ x :: after ->
    forall n, dict_get nodes x = Some n ->
              forall i, In i (n_inputs n) -> In i before.

(** Source ids that are none of the ids the planner gives to the nodes
    it adds. *)
Definition plain_sources (sources : list (string * string)) : Prop :=
  forall s, In s (map fst sources) ->
            s <> "goal" /\ s <> "aggregate"
            /\ forall T j, s <> transform_id T j.

(** Sources first, then transform nodes, then the goal node. *)
Definition node_rank (sources : list (string * string)) (k : string) : nat :=
  if set_mem k (map fst sources) then 0
  else if (String.eqb k "goal" || String.eqb k "aggregate")%bool then 2
  else 1.

(** *** On binary64 numbers *)

(** The cost and the confidence of a path as the search accumulates
    them: from the goal end of the path, the last function first. *)
Definition goal_side_cost (path : list Binary64.Func) : float :=
  fold_right (fun f acc => (acc + Binary64.f_cost f)%float) 0%float path.

Definition goal_side_confidence (path : list Binary64.Func) : float :=
  fold_right (fun f acc => (acc * Binary64.f_conf f)%float) 1%float path.

(** A result that records what its path accumulates. *)
Definition accumulated (r : Binary64.SynthesisResult) : Prop :=
  Binary64.sr_cost r = goal_side_cost (Binary64.sr_path r)
  /\ Binary64.sr_confidence r = goal_side_confidence (Binary64.sr_path r).

(** The share of the goal node: the function it carries without a path
    (the aggregator of Strategy A), or else what its path accumulates. *)
Definition own_cost (n : Binary64.DAGNode) : float :=
  match Binary64.n_path n, Binary64.n_func n with
  | [], Some f => Binary64.f_cost f
  | p, _ => goal_side_cost p
  end.

Definition own_confidence (n : Binary64.DAGNode) : float :=
  match Binary64.n_path n, Binary64.n_func n with
  | [], Some f => Binary64.f_conf f
  | p, _ => goal_side_confidence p
  end.

(** The share of one argument: nothing when a source of its type
    supplies it directly, what its path accumulates when a search
    supplies it. *)
Definition add_supplied_cost (acc : float)
  (o : option (list Binary64.Func)) : float :=
  match o with
  | Some p => (acc + goal_side_cost p)%float
  | None => acc
  end.

Definition add_supplied_confidence (acc : float)
  (o : option (list Binary64.Func)) : float :=
  match o with
  | Some p => (acc * goal_side_confidence p)%float
  | None => acc
  end.

(** The input [i] of the goal node, at position [k], is the transform
    node of that position, and this node holds the path [p]. *)
Definition reads_a_path (nodes : list (string * Binary64.DAGNode)) (k : nat)
  (i : string) (p : list Binary64.Func) : Prop :=
  exists T n, i = transform_id T k
              /\ dict_get nodes i = Some n /\ Binary64.n_path n = p.

(** The share [o] of the argument at position [k] against the DAG: a
    path of at least one function is the path of the transform node
    read at that position, and any other share goes with a position
    that reads no such node. *)
Definition share_of (nodes : list (string * Binary64.DAGNode)) (k : nat)
  (o : option (list Binary64.Func)) (i : string) : Prop :=
  match o with
  | Some (f :: p) => reads_a_path nodes k i (f :: p)
  | _ => forall f p, ~ reads_a_path nodes k i (f :: p)
  end.

Fixpoint shares_of (nodes : list (string * Binary64.DAGNode)) (k : nat)
  (supplied : list (option (list Binary64.Func))) (inputs : list string)
  : Prop :=
  match supplied, inputs with
  | [], [] => True
  | o :: supplied', i :: inputs' =>
      share_of nodes k o i /\ shares_of nodes (S k) supplied' inputs'
  | _, _ => False
  end.

(** The totals of a DAG against its nodes: the share of the goal node,
    then, in argument order, the share of each argument: nothing or the
    cost 0 of an empty path for an argument read from a source, and for
    an argument read from a transform node what the path of that node
    accumulates. *)
Definition dag_accumulated (d : Binary64.SynthesisDAG) : Prop :=
  exists gn supplied,
    dict_get (Binary64.nodes d) (Binary64.goal_node d) = Some gn
    /\ Binary64.total_cost d
       = fold_left add_supplied_cost supplied (own_cost gn)
    /\ Binary64.total_confidence d
       = fold_left add_supplied_confidence supplied (own_confidence gn)
    /\ shares_of (Binary64.nodes d) 0 supplied (Binary64.n_inputs gn).

(** No transform node of a position from [i] on holds a path yet. *)
Definition unwritten_from (i : nat) (nodes : list (string * Binary64.DAGNode))
  : Prop :=
  forall T j n, (i <= j)%nat ->
                dict_get nodes (transform_id T j) = Some n ->
                Binary64.n_path n = [].

(** The sum of [sum(f.cost for f in path)] over the nodes of a DAG. *)
Definition paths_cost64 (nodes : list (string * Binary64.DAGNode)) : float :=
  fold_left (fun acc kv =>
               (acc + Binary64.compute_cost (Binary64.n_path (snd kv)))%float)
            nodes 0%float.

Definition fn64 (name : string) (dom : Dom) (cod : string)
  (cost conf : float) : Binary64.Func :=
  Binary64.mkFunc name dom cod cost conf [] None "".

(** Three functions in a row whose costs and confidences are not
    binary fractions. *)
Definition tenths_catalog : Binary64.Catalog :=
  Binary64.add_func (Binary64.add_func (Binary64.add_func
    Binary64.Catalog_init
    (fn64 "f1" (Single "A") "B" 0.3 0.1))
    (fn64 "f2" (Single "B") "C" 0.2 0.2))
    (fn64 "f3" (Single "C") "D" 0.1 0.3).

Definition pair_catalog64 : Binary64.Catalog :=
  Binary64.add_func (Binary64.add_func Binary64.Catalog_init
    (fn64 "f" (Single "A") "B" 1 1))
    (fn64 "agg" (Multi ["A"; "B"]) "G" 1 1).

(* ################################################################# *)
(** * Properties *)

(* ================================================================= *)
(** ** Outcomes and dictionaries *)

Lemma bind_Ok_inv {A B : Type} (m : outcome A) (k : A -> outcome B) (b : B) :
  bind m k = Ok b -> exists a, m = Ok a /\ k a = Ok b.
Proof.
  destruct m as [a| |]; simpl; intros H; try discriminate.
  exists a; split; [reflexivity | exact H].
Qed.

Ltac inv_bind H :=
  let a := fresh "a" in
  let Ha := fresh "Ha" in
  apply bind_Ok_inv in H; destruct H as [a [Ha H]].

Lemma dict_get_set_same {V : Type} (d : list (string * V)) k v :
  dict_get (dict_set d k v) k = Some v.
Proof.
  induction d as [|[k' v'] d IH]; simpl.
  - now rewrite String.eqb_refl.
  - destruct (String.eqb k' k) eqn:E; simpl.
    + now rewrite String.eqb_refl.
    + now rewrite E.
Qed.

Lemma dict_get_set_other {V : Type} (d : list (string * V)) k k' v :
  k <> k' -> dict_get (dict_set d k v) k' = dict_get d k'.
Proof.
  intros Hne. induction d as [|[k0 v0] d IH]; simpl.
  - destruct (String.eqb k k') eqn:E; [apply String.eqb_eq in E; congruence | reflexivity].
  - destruct (String.eqb k0 k) eqn:E; simpl.
    + apply String.eqb_eq in E; subst k0.
      destruct (String.eqb k k') eqn:E'; [apply String.eqb_eq in E'; congruence | reflexivity].
    + now rewrite IH.
Qed.

Lemma dict_mem_set_other {V : Type} (d : list (string * V)) k k' v :
  k <> k' -> dict_mem (dict_set d k v) k' = dict_mem d k'.
Proof. intros H; unfold dict_mem; now rewrite dict_get_set_other. Qed.

Lemma dict_mem_set_same {V : Type} (d : list (string * V)) k v :
  dict_mem (dict_set d k v) k = true.
Proof. unfold dict_mem; now rewrite dict_get_set_same. Qed.

(* ================================================================= *)
(** ** The stable sort *)

Section SortedFacts.
Context {A : Type} (key : A -> Q).

Lemma sorted_snoc (l : list A) (x : A) :
  sorted key (l ++ [x]) = insert_sorted key x (sorted key l).
Proof. unfold sorted; now rewrite fold_left_app. Qed.

Lemma insert_sorted_perm (x : A) (l : list A) :
  Permutation (l ++ [x]) (insert_sorted key x l).
Proof.
  induction l as [|y l IH]; simpl; [reflexivity|].
  destruct (Qle_bool (key y) (key x)).
  - now apply perm_skip.
  - change (y :: l ++ [x]) with ((y :: l) ++ [x]).
    rewrite <- Permutation_cons_append. reflexivity.
Qed.

Lemma sorted_perm (l : list A) : Permutation l (sorted key l).
Proof.
  induction l as [|x l IH] using rev_ind; [reflexivity|].
  rewrite sorted_snoc, <- insert_sorted_perm.
  now apply Permutation_app_tail.
Qed.

Lemma insert_sorted_Forall (P : A -> Prop) (x : A) (l : list A) :
  P x -> Forall P l -> Forall P (insert_sorted key x l).
Proof.
  intros Hx Hl. induction Hl as [|y l Hy Hl IH]; simpl.
  - constructor; auto.
  - destruct (Qle_bool (key y) (key x)); constructor; auto.
Qed.

Lemma insert_sorted_sorted (x : A) (l : list A) :
  StronglySorted (key_le key) l -> StronglySorted (key_le key) (insert_sorted key x l).
Proof.
  induction 1 as [|y l Hs IH Hy]; simpl.
  - constructor; constructor.
  - destruct (Qle_bool (key y) (key x)) eqn:E.
    + constructor; [exact IH|].
      apply insert_sorted_Forall; [|exact Hy].
      now apply Qle_bool_iff.
    + assert (Hlt : (key x < key y)%Q).
      { apply Qnot_le_lt. intros Hle. apply Qle_bool_iff in Hle. congruence. }
      constructor; [constructor; assumption|].
      constructor; [now apply Qlt_le_weak|].
      eapply Forall_impl; [|exact Hy].
      intros z Hz. unfold key_le in *.
      apply Qlt_le_weak. eapply Qlt_le_trans; eassumption.
Qed.

Lemma sorted_sorted (l : list A) : StronglySorted (key_le key) (sorted key l).
Proof.
  induction l as [|x l IH] using rev_ind; [constructor|].
  rewrite sorted_snoc. now apply insert_sorted_sorted.
Qed.

Lemma with_key_above (c : Q) (x : A) (l : list A) :
  (key x < c)%Q \/ (c < key x)%Q -> with_key key c (x :: l) = with_key key c l.
Proof.
  intros H. unfold with_key; simpl.
  destruct (Qeq_bool (key x) c) eqn:E; [|reflexivity].
  apply Qeq_bool_iff in E. rewrite E in H.
  destruct H as [H|H]; now apply Qlt_irrefl in H.
Qed.

Lemma with_key_none (c : Q) (x : A) (l : list A) :
  (key x == c)%Q -> Forall (fun z => (key x < key z)%Q) l ->
  with_key key c l = [].
Proof.
  intros Ex Hall. induction Hall as [|z l' Hz _ IH]; [reflexivity|].
  rewrite with_key_above; [exact IH|].
  right. now rewrite <- Ex.
Qed.

Lemma with_key_app (c : Q) (l1 l2 : list A) :
  with_key key c (l1 ++ l2) = with_key key c l1 ++ with_key key c l2.
Proof. unfold with_key; apply filter_app. Qed.

Lemma with_key_cons (c : Q) (x : A) (l : list A) :
  with_key key c (x :: l) = with_key key c [x] ++ with_key key c l.
Proof. apply (with_key_app c [x] l). Qed.

Lemma insert_sorted_stable (c : Q) (x : A) (l : list A) :
  StronglySorted (key_le key) l ->
  with_key key c (insert_sorted key x l) = with_key key c (l ++ [x]).
Proof.
  induction 1 as [|y l Hs IH Hy]; [reflexivity|].
  cbn [insert_sorted].
  destruct (Qle_bool (key y) (key x)) eqn:E.
  - rewrite with_key_cons, IH, <- with_key_cons. reflexivity.
  - assert (Hlt : (key x < key y)%Q).
    { apply Qnot_le_lt. intros Hle. apply Qle_bool_iff in Hle. congruence. }
    assert (Hall : Forall (fun z => (key x < key z)%Q) (y :: l)).
    { constructor; [exact Hlt|].
      eapply Forall_impl; [|exact Hy]. intros z Hz.
      eapply Qlt_le_trans; eassumption. }
    rewrite with_key_app, (with_key_cons c x (y :: l)).
    destruct (Qeq_bool (key x) c) eqn:Ex.
    + apply Qeq_bool_iff in Ex.
      rewrite (with_key_none c x (y :: l) Ex Hall).
      now rewrite app_nil_r.
    + assert (Hx : with_key key c [x] = []) by (unfold with_key; simpl; now rewrite Ex).
      rewrite Hx. simpl. now rewrite app_nil_r.
Qed.

Lemma sorted_stable (c : Q) (l : list A) :
  with_key key c (sorted key l) = with_key key c l.
Proof.
  induction l as [|x l IH] using rev_ind; [reflexivity|].
  rewrite sorted_snoc, insert_sorted_stable by apply sorted_sorted.
  now rewrite !with_key_app, IH.
Qed.

Lemma sorted_nil_iff (l : list A) : sorted key l = [] <-> l = [].
Proof.
  split; intros H; [|now subst].
  pose proof (sorted_perm l) as P. rewrite H in P.
  now apply Permutation_nil, Permutation_sym.
Qed.

Lemma sorted_head_min (l : list A) (d : A) (rest : list A) :
  sorted key l = d :: rest ->
  In d l /\ forall d', In d' l -> (key d <= key d')%Q.
Proof.
  intros H. pose proof (sorted_perm l) as P. pose proof (sorted_sorted l) as S.
  rewrite H in P, S. split.
  - eapply Permutation_in; [apply Permutation_sym; exact P|now left].
  - intros d' Hd'. eapply Permutation_in in Hd'; [|exact P].
    inversion S as [|? ? _ Hall]; subst.
    destruct Hd' as [->|Hin]; [apply Qle_refl|].
    rewrite Forall_forall in Hall. now apply Hall.
Qed.

(** The head of a sorted list is the first of the cheapest elements. *)
Lemma sorted_head_first (l : list A) (d : A) (rest : list A) :
  sorted key l = d :: rest ->
  exists tl, with_key key (key d) l = d :: tl.
Proof.
  intros H. rewrite <- (sorted_stable (key d) l), H.
  unfold with_key; simpl.
  assert (E : Qeq_bool (key d) (key d) = true) by (apply Qeq_bool_iff; reflexivity).
  rewrite E. eauto.
Qed.
End SortedFacts.

(* ================================================================= *)
(** ** The priority queue *)

Lemma entry_ltb_true_le (a b : Entry) :
  entry_ltb a b = true -> (e_cost a <= e_cost b)%Q.
Proof.
  unfold entry_ltb, Qlt_bool. intros H.
  apply orb_true_iff in H. destruct H as [H|H].
  - apply negb_true_iff in H. apply Qlt_le_weak, Qnot_le_lt.
    intros Hle. apply Qle_bool_iff in Hle. congruence.
  - apply andb_true_iff in H. destruct H as [H _].
    apply Qeq_bool_iff in H. rewrite H. apply Qle_refl.
Qed.

Lemma entry_ltb_false_le (a b : Entry) :
  entry_ltb a b = false -> (e_cost b <= e_cost a)%Q.
Proof.
  unfold entry_ltb, Qlt_bool. intros H.
  apply orb_false_iff in H. destruct H as [H _].
  apply negb_false_iff in H. now apply Qle_bool_iff.
Qed.

Lemma heappop_None (pq : list Entry) : heappop pq = None -> pq = [].
Proof.
  destruct pq as [|e rest]; [reflexivity|]. simpl.
  destruct (heappop rest) as [[m r]|]; [|discriminate].
  destruct (entry_ltb m e); discriminate.
Qed.

Lemma heappop_Some (pq : list Entry) (e : Entry) (pq' : list Entry) :
  heappop pq = Some (e, pq') ->
  Permutation pq (e :: pq')
  /\ Forall (fun e' => (e_cost e <= e_cost e')%Q) pq'.
Proof.
  revert e pq'. induction pq as [|e0 rest IH]; intros e pq' H; [discriminate|].
  simpl in H. destruct (heappop rest) as [[m r]|] eqn:Hr.
  - destruct (IH m r eq_refl) as [P F].
    destruct (entry_ltb m e0) eqn:E; inversion H; subst; clear H.
    + split.
      * rewrite P. apply perm_swap.
      * constructor; [now apply entry_ltb_true_le | exact F].
    + split; [reflexivity|].
      apply entry_ltb_false_le in E.
      eapply Permutation_Forall; [apply Permutation_sym; exact P|].
      constructor; [exact E|].
      eapply Forall_impl; [|exact F]. intros z Hz.
      eapply Qle_trans; eassumption.
  - apply heappop_None in Hr. subst rest. inversion H; subst.
    split; [reflexivity | constructor].
Qed.

Lemma heappop_length (pq : list Entry) (e : Entry) (pq' : list Entry) :
  heappop pq = Some (e, pq') -> List.length pq = S (List.length pq').
Proof.
  intros H. apply heappop_Some in H. destruct H as [P _].
  now rewrite (Permutation_length P).
Qed.

(* ================================================================= *)
(** ** The expansion step *)

Lemma expand_spec (fs : list Func) (c : Q) (path : list Func) (conf maxc : Q) :
  forall counter pq counter' pq',
    expand fs c path conf maxc counter pq = (counter', pq') ->
    (List.length pq' <= List.length pq + List.length fs)%nat
    /\ forall e, In e pq' ->
         In e pq
         \/ exists f t n,
              In f fs /\ f_dom f = Single t
              /\ Qlt_bool maxc (c + f_cost f) = false
              /\ e = mkEntry (c + f_cost f) n t (f :: path) (conf * f_conf f).
Proof.
  induction fs as [|f fs IH]; intros counter pq counter' pq' H; simpl in H.
  - inversion H; subst. split; [lia | auto].
  - destruct (f_dom f) as [t|ts] eqn:Hd.
    + destruct (Qlt_bool maxc (c + f_cost f)) eqn:Hb.
      * destruct (IH _ _ _ _ H) as [L I]. split; [simpl; lia|].
        intros e He. destruct (I e He) as [?|(f' & t' & n & Hf & ?)]; [now left|].
        right. exists f', t', n. split; [now right | assumption].
      * destruct (IH _ _ _ _ H) as [L I]. unfold heappush in *.
        split; [simpl in *; lia|].
        intros e He. destruct (I e He) as [[<-|?]|(f' & t' & n & Hf & ?)].
        -- right. exists f, t, (S counter). repeat split; auto. now left.
        -- now left.
        -- right. exists f', t', n. split; [now right | assumption].
    + destruct (IH _ _ _ _ H) as [L I]. split; [simpl; lia|].
      intros e He. destruct (I e He) as [?|(f' & t' & n & Hf & ?)]; [now left|].
      right. exists f', t', n. split; [now right | assumption].
Qed.

Lemma funcs_returning_In (catalog : Catalog) (t : string) (f : Func) :
  In f (funcs_returning catalog t) ->
  exists l, In (t, l) (by_cod catalog) /\ In f l.
Proof.
  unfold funcs_returning.
  induction (by_cod catalog) as [|[k l] idx IH]; simpl; [contradiction|].
  destruct (String.eqb k t) eqn:E.
  - apply String.eqb_eq in E; subst k. intros H. exists l. auto.
  - intros H. destruct (IH H) as [l' [? ?]]. exists l'. auto.
Qed.

Lemma nonneg_costs_returning (catalog : Catalog) (t : string) (f : Func) :
  nonneg_costs catalog -> In f (funcs_returning catalog t) ->
  (0 <= f_cost f)%Q.
Proof.
  intros Hn Hf. apply funcs_returning_In in Hf. destruct Hf as [l [Hl Hf]].
  unfold nonneg_costs in Hn. rewrite Forall_forall in Hn.
  specialize (Hn _ Hl). simpl in Hn. rewrite Forall_forall in Hn. auto.
Qed.

(* ================================================================= *)
(** ** The measure of the search loop *)

Lemma unvisited_size_mono (index : list (string * list Func))
  (visited : list (string * Q)) (t : string) (c : Q) :
  (unvisited_size index (dict_set visited t c) <= unvisited_size index visited)%nat.
Proof.
  unfold unvisited_size. induction index as [|[k l] idx IH]; simpl; [lia|].
  destruct (String.eqb t k) eqn:E.
  - apply String.eqb_eq in E; subst k. rewrite dict_mem_set_same. simpl.
    destruct (dict_mem visited t); simpl; lia.
  - assert (t <> k) by (intros ->; rewrite String.eqb_refl in E; discriminate).
    rewrite dict_mem_set_other by assumption.
    destruct (dict_mem visited k); simpl; lia.
Qed.

Lemma unvisited_size_expand (catalog : Catalog)
  (visited : list (string * Q)) (t : string) (c : Q) :
  dict_mem visited t = false ->
  (unvisited_size (by_cod catalog) (dict_set visited t c)
   + List.length (funcs_returning catalog t)
   <= unvisited_size (by_cod catalog) visited)%nat.
Proof.
  intros Hm. unfold funcs_returning, unvisited_size.
  induction (by_cod catalog) as [|[k l] idx IH]; simpl; [lia|].
  destruct (String.eqb k t) eqn:E.
  - apply String.eqb_eq in E; subst k.
    rewrite dict_mem_set_same, Hm. simpl.
    pose proof (unvisited_size_mono idx visited t c) as M.
    unfold unvisited_size in M. lia.
  - assert (t <> k) by (intros ->; rewrite String.eqb_refl in E; discriminate).
    rewrite dict_mem_set_other by assumption.
    destruct (dict_mem visited k); simpl; lia.
Qed.

Lemma result_proof_Ok (src : string) (path : list Func) :
  exists pr, result_proof src path = Ok pr.
Proof.
  destruct path as [|f [|g rest]]; simpl; eauto.
Qed.

(** With non-negative costs the loop needs at most one iteration per
    queued entry and per function of the index not yet expanded. *)
Lemma search_loop_terminates (catalog : Catalog) (src : string) (maxc : Q)
  (maxr : Z) :
  nonneg_costs catalog ->
  forall fuel counter pq visited results,
    closed_below visited pq ->
    (List.length pq + unvisited_size (by_cod catalog) visited < fuel)%nat ->
    exists rs,
      search_loop fuel catalog src maxc maxr counter pq visited results = Ok rs.
Proof.
  intros Hn. induction fuel as [|fuel IH]; intros counter pq visited results Hc Hm;
    [lia|].
  simpl. destruct (negb (Z.of_nat (List.length results) <? maxr)%Z); [eauto|].
  destruct (heappop pq) as [[e pq']|] eqn:Hp; [|eauto].
  pose proof (heappop_length _ _ _ Hp) as Hl.
  destruct (heappop_Some _ _ _ Hp) as [Pm Hmin].
  assert (Hsub : forall x, In x pq' -> In x pq).
  { intros x Hx. eapply Permutation_in; [apply Permutation_sym; exact Pm|now right]. }
  assert (He : In e pq).
  { eapply Permutation_in; [apply Permutation_sym; exact Pm|now left]. }
  destruct (String.eqb (e_type e) src).
  - destruct (result_proof_Ok src (e_path e)) as [pr ->]. simpl.
    apply IH; [|lia]. intros x t b Hx Hg. eapply Hc; eauto.
  - destruct (pruned visited (e_type e) (e_cost e)) eqn:Hpr.
    + apply IH; [|lia]. intros x t b Hx Hg. eapply Hc; eauto.
    + assert (Hfresh : dict_mem visited (e_type e) = false).
      { unfold pruned in Hpr. unfold dict_mem.
        destruct (dict_get visited (e_type e)) as [b|] eqn:Hg; [|reflexivity].
        specialize (Hc e _ b He Hg). apply Qle_bool_iff in Hc. congruence. }
      destruct (expand (funcs_returning catalog (e_type e)) (e_cost e)
                       (e_path e) (e_conf e) maxc counter pq')
        as [counter' pq''] eqn:Hx.
      destruct (expand_spec _ _ _ _ _ _ _ _ _ Hx) as [Hlen Hin].
      pose proof (unvisited_size_expand catalog visited (e_type e) (e_cost e)
                    Hfresh) as Hu.
      apply IH; [|lia].
      intros x t b Hxin Hg.
      assert (Hex : (e_cost e <= e_cost x)%Q).
      { destruct (Hin x Hxin) as [Hold|(f & t' & n & Hf & _ & _ & ->)].
        - rewrite Forall_forall in Hmin. now apply Hmin.
        - simpl. pose proof (nonneg_costs_returning _ _ _ Hn Hf) as H0.
          rewrite <- (Qplus_0_r (e_cost e)) at 1.
          apply Qplus_le_r. exact H0. }
      destruct (String.eqb (e_type e) t) eqn:Et.
      * apply String.eqb_eq in Et; subst t.
        rewrite dict_get_set_same in Hg. inversion Hg; subst. exact Hex.
      * assert (e_type e <> t)
          by (intros Heq; rewrite Heq, String.eqb_refl in Et; discriminate).
        rewrite dict_get_set_other in Hg by assumption.
        eapply Qle_trans; [|exact Hex]. eapply Hc; eauto.
Qed.

Lemma unvisited_size_empty (index : list (string * list Func)) :
  unvisited_size index [] = index_size index.
Proof.
  unfold unvisited_size. f_equal.
  induction index as [|[k l] idx IH]; [reflexivity|].
  change ((k, l) :: filter (fun kv : string * list Func =>
                              negb (dict_mem (V:=Q) [] (fst kv))) idx
          = (k, l) :: idx).
  now rewrite IH.
Qed.

Lemma discovered_terminates (catalog : Catalog) (src goal : string) (maxc : Q)
  (maxr : Z) (fuel : nat) :
  nonneg_costs catalog -> (search_fuel catalog <= fuel)%nat ->
  exists rs, discovered fuel catalog src goal maxc maxr = Ok rs.
Proof.
  intros Hn Hf. unfold discovered. apply search_loop_terminates; [exact Hn| |].
  - intros e t b _ Hg. discriminate.
  - rewrite unvisited_size_empty. unfold search_fuel in Hf. simpl. lia.
Qed.

(** The loop keeps any property of queue entries that expansion
    preserves, and hands it over to the results. *)
Lemma search_loop_invariant (catalog : Catalog) (src : string) (maxc : Q)
  (maxr : Z) (P : Entry -> Prop) (R : SynthesisResult -> Prop) :
  (forall e f t n,
      P e -> In f (funcs_returning catalog (e_type e)) ->
      f_dom f = Single t ->
      Qlt_bool maxc (e_cost e + f_cost f) = false ->
      P (mkEntry (e_cost e + f_cost f) n t (f :: e_path e)
                 (e_conf e * f_conf f))) ->
  (forall e pr,
      P e -> e_type e = src -> result_proof src (e_path e) = Ok pr ->
      R (mkSynthesisResult (e_cost e) (e_conf e) (e_path e) pr)) ->
  forall fuel counter pq visited results rs,
    Forall P pq -> Forall R results ->
    search_loop fuel catalog src maxc maxr counter pq visited results = Ok rs ->
    Forall R rs.
Proof.
  intros Hstep Hres.
  induction fuel as [|fuel IH]; intros counter pq visited results rs HP HR H;
    [discriminate|].
  simpl in H.
  destruct (negb (Z.of_nat (List.length results) <? maxr)%Z);
    [inversion H; subst; exact HR|].
  destruct (heappop pq) as [[e pq']|] eqn:Hp; [|inversion H; subst; exact HR].
  destruct (heappop_Some _ _ _ Hp) as [Pm _].
  assert (HP' : Forall P (e :: pq')) by (eapply Permutation_Forall; eauto).
  inversion HP' as [|? ? He Hpq']; subst.
  destruct (String.eqb (e_type e) src) eqn:Es.
  - apply String.eqb_eq in Es. inv_bind H.
    eapply IH; [exact Hpq'| |exact H].
    apply Forall_app; split; [exact HR|]. constructor; [|constructor].
    now apply Hres.
  - destruct (pruned visited (e_type e) (e_cost e)).
    + eapply IH; [exact Hpq'|exact HR|exact H].
    + destruct (expand (funcs_returning catalog (e_type e)) (e_cost e)
                       (e_path e) (e_conf e) maxc counter pq')
        as [counter' pq''] eqn:Hx.
      destruct (expand_spec _ _ _ _ _ _ _ _ _ Hx) as [_ Hin].
      eapply IH; [|exact HR|exact H].
      apply Forall_forall. intros x Hxin.
      destruct (Hin x Hxin) as [Hold|(f & t & n & Hf & Hd & Hb & ->)].
      * rewrite Forall_forall in Hpq'. now apply Hpq'.
      * now apply Hstep.
Qed.

(* ================================================================= *)
(** ** Results of the single-source search *)

Lemma fold_left_Qplus_acc (l : list Q) (a : Q) :
  (fold_left Qplus l a == a + fold_left Qplus l 0)%Q.
Proof.
  revert a. induction l as [|x l IH]; intros a; simpl; [ring|].
  rewrite (IH (a + x)%Q), (IH (0 + x)%Q). ring.
Qed.

Lemma fold_left_Qmult_acc (l : list Q) (a : Q) :
  (fold_left Qmult l a == a * fold_left Qmult l 1)%Q.
Proof.
  revert a. induction l as [|x l IH]; intros a; simpl; [ring|].
  rewrite (IH (a * x)%Q), (IH (1 * x)%Q). ring.
Qed.

Lemma compute_cost_cons (f : Func) (path : list Func) :
  (compute_cost (f :: path) == f_cost f + compute_cost path)%Q.
Proof.
  unfold compute_cost; simpl. rewrite fold_left_Qplus_acc. ring.
Qed.

Lemma compute_confidence_cons (f : Func) (path : list Func) :
  (compute_confidence (f :: path) == f_conf f * compute_confidence path)%Q.
Proof.
  unfold compute_confidence. destruct path as [|g rest]; simpl; [ring|].
  rewrite fold_left_Qmult_acc, (fold_left_Qmult_acc _ (1 * f_conf g)%Q). ring.
Qed.

Lemma flatten_make_func (path : list Func) :
  flatten_proofs (map make_func path) = map make_func path.
Proof.
  unfold flatten_proofs. induction path as [|f path IH]; simpl; [reflexivity|].
  now f_equal.
Qed.

Lemma last_cons_default {A : Type} (l : list A) :
  forall x d, last (x :: l) d = last l x.
Proof.
  induction l as [|y l IH]; intros x d; [reflexivity|].
  change (last (y :: l) d = last (y :: l) x).
  now rewrite (IH y d), (IH y x).
Qed.

Lemma last_map_default {A B : Type} (g : A -> B) (l : list A) (d : A) :
  last (map g l) (g d) = g (last l d).
Proof.
  induction l as [|x l IH]; [reflexivity|].
  cbn [map]. rewrite !last_cons_default. clear IH. revert x.
  induction l as [|y l IH]; intros x; [reflexivity|].
  cbn [map]. rewrite !last_cons_default. apply IH.
Qed.

Lemma last_map_make_func (path : list Func) (f d : Func) :
  pn_target_type (last (map make_func path) (make_func f))
  = f_cod (last (f :: path) d).
Proof. now rewrite last_map_default, last_cons_default. Qed.

Lemma result_proof_path_proof (src : string) (path : list Func) :
  result_proof src path = Ok (path_proof src path).
Proof.
  destruct path as [|f [|g rest]]; [reflexivity|reflexivity|].
  unfold result_proof, make_composition, path_proof, flat_compose.
  rewrite flatten_make_func.
  cbn [map hd]. do 2 f_equal.
  apply (last_map_make_func (g :: rest) f).
Qed.

Lemma search_results (catalog : Catalog) (src goal : string) (maxc : Q)
  (maxr : Z) (R : SynthesisResult -> Prop) (fuel : nat)
  (rs : list SynthesisResult) :
  (forall ds, discovered fuel catalog src goal maxc maxr = Ok ds ->
              Forall R ds) ->
  synthesize_backward fuel catalog src goal maxc maxr = Ok rs ->
  Forall R rs.
Proof.
  intros HR H. unfold synthesize_backward in H. inv_bind H.
  inversion H; subst. eapply Permutation_Forall; [apply sorted_perm|].
  now apply HR.
Qed.

Lemma synthesize_backward_terminates (catalog : Catalog) (src goal : string)
  (maxc : Q) (maxr : Z) (fuel : nat) :
  nonneg_costs catalog -> (search_fuel catalog <= fuel)%nat ->
  exists ds,
    discovered fuel catalog src goal maxc maxr = Ok ds
    /\ synthesize_backward fuel catalog src goal maxc maxr
       = Ok (sorted sr_cost ds).
Proof.
  intros Hn Hf.
  destruct (discovered_terminates catalog src goal maxc maxr fuel Hn Hf)
    as [ds Hd].
  exists ds. split; [exact Hd|]. unfold synthesize_backward. now rewrite Hd.
Qed.

Lemma discovered_costs (catalog : Catalog) (src goal : string) (maxc : Q)
  (maxr : Z) (fuel : nat) (ds : list SynthesisResult) :
  discovered fuel catalog src goal maxc maxr = Ok ds ->
  Forall (fun r => (sr_cost r == compute_cost (sr_path r))%Q
                   /\ (sr_confidence r == compute_confidence (sr_path r))%Q) ds.
Proof.
  intros H. unfold discovered in H.
  eapply (search_loop_invariant catalog src maxc maxr
            (fun e => (e_cost e == compute_cost (e_path e))%Q
                      /\ (e_conf e == compute_confidence (e_path e))%Q));
    [| | | |exact H].
  - intros e f t n [Hc Hk] _ _ _. cbn [e_cost e_path e_conf].
    split.
    + rewrite compute_cost_cons, Hc. ring.
    + rewrite compute_confidence_cons, Hk. ring.
  - intros e pr He _ _. exact He.
  - constructor; [|constructor]. simpl. split; reflexivity.
  - constructor.
Qed.

Lemma discovered_proofs (catalog : Catalog) (src goal : string) (maxc : Q)
  (maxr : Z) (fuel : nat) (ds : list SynthesisResult) :
  discovered fuel catalog src goal maxc maxr = Ok ds ->
  Forall (fun r => sr_proof r = path_proof src (sr_path r)) ds.
Proof.
  intros H. unfold discovered in H.
  eapply (search_loop_invariant catalog src maxc maxr (fun _ => True));
    [| | | |exact H].
  - trivial.
  - intros e pr _ _ Hp. simpl. rewrite result_proof_path_proof in Hp.
    now inversion Hp.
  - constructor; [trivial|constructor].
  - constructor.
Qed.

Ltac nonneg_by_computation :=
  unfold nonneg_costs; simpl;
  repeat (first [apply Forall_nil | apply Forall_cons]);
  simpl; try (intro; discriminate).

(** C3: for every catalog, source, goal, budget and bound on the number
    of results, whenever [synthesize_backward] returns, the list it
    returns is the discovered results in non-decreasing order of cost,
    and the results of any one cost appear in the order in which the
    search discovered them; it does return when costs are not negative. *)
Theorem synthesize_backward_sorted_by_cost (catalog : Catalog)
  (src goal : string) (max_cost : Q) (max_results : Z) (fuel : nat) :
  (forall rs,
      synthesize_backward fuel catalog src goal max_cost max_results = Ok rs ->
      exists ds,
        discovered fuel catalog src goal max_cost max_results = Ok ds
        /\ StronglySorted (key_le sr_cost) rs
        /\ Permutation ds rs
        /\ forall c, with_key sr_cost c rs = with_key sr_cost c ds)
  /\ (nonneg_costs catalog -> (search_fuel catalog <= fuel)%nat ->
      exists rs,
        synthesize_backward fuel catalog src goal max_cost max_results
        = Ok rs).
Proof.
  split.
  - intros rs H. unfold synthesize_backward in H. inv_bind H.
    inversion H; subst rs; clear H. exists a. split; [exact Ha|].
    split; [apply sorted_sorted|]. split; [apply sorted_perm|].
    intros c. apply sorted_stable.
  - intros Hn Hf.
    destruct (synthesize_backward_terminates catalog src goal max_cost
                max_results fuel Hn Hf) as [ds [_ Hs]].
    eauto.
Qed.

(** On the catalog with a negative cost the search discovers the direct
    function of cost 3/2 before the detour of cost 1, and returns the
    detour first. *)
Lemma synthesize_backward_sorted_by_cost_witness :
  exists ds rs,
    discovered 10 detour_catalog "A" "C" 100 10 = Ok ds
    /\ synthesize_backward 10 detour_catalog "A" "C" 100 10 = Ok rs
    /\ map (fun r => map f_id (sr_path r)) ds = [["h"]; ["f1"; "f2"]]
    /\ map (fun r => map f_id (sr_path r)) rs = [["f1"; "f2"]; ["h"]]
    /\ StronglySorted (key_le sr_cost) rs
    /\ Permutation ds rs
    /\ forall c, with_key sr_cost c rs = with_key sr_cost c ds.
Proof.
  destruct (proj1 (synthesize_backward_sorted_by_cost detour_catalog "A" "C"
                     100 10 10)
              (sorted sr_cost
                 (match discovered 10 detour_catalog "A" "C" 100 10 with
                  | Ok ds => ds
                  | _ => []
                  end)))
    as (ds & Hd & Hs & Hp & Hst); [vm_compute; reflexivity|].
  exists ds.
  exists (sorted sr_cost
            (match discovered 10 detour_catalog "A" "C" 100 10 with
             | Ok ds => ds
             | _ => []
             end)).
  split; [exact Hd|]. split; [vm_compute; reflexivity|].
  split; [|split; [vm_compute; reflexivity|auto]].
  assert (Hds : Ok ds = discovered 10 detour_catalog "A" "C" 100 10)
    by (now rewrite Hd).
  vm_compute in Hds. inversion Hds; subst ds. vm_compute. reflexivity.
Defined.

Example linear_catalog_costs :
  option_map (map sr_cost)
    (match synthesize_backward 10 linear_catalog "A" "C" 100 10 with
     | Ok rs => Some rs
     | _ => None
     end)
  = Some [0 + 2 + 1; 0 + 5]%Q.
Proof. reflexivity. Qed.

(* ================================================================= *)
(** ** The codomain index of a built catalog *)

Lemma index_append_get_same (idx : list (string * list Func)) k f :
  dict_get (index_append idx k f) k
  = Some (match dict_get idx k with Some b => b | None => [] end ++ [f]).
Proof.
  unfold index_append. destruct (dict_get idx k); now rewrite dict_get_set_same.
Qed.

Lemma index_append_get_other (idx : list (string * list Func)) k k' f :
  k <> k' -> dict_get (index_append idx k f) k' = dict_get idx k'.
Proof.
  intros H. unfold index_append.
  destruct (dict_get idx k); now rewrite dict_get_set_other.
Qed.

Lemma index_size_set (idx : list (string * list Func)) k (b : list Func) :
  (index_size (dict_set idx k b)
   = index_size idx + List.length b
     - List.length (match dict_get idx k with Some b0 => b0 | None => [] end))%nat.
Proof.
  induction idx as [|[k0 b0] idx IH]; simpl; [lia|].
  destruct (String.eqb k0 k); simpl; [lia|].
  rewrite IH. destruct (dict_get idx k) as [b1|] eqn:E; simpl; [|lia].
  assert (List.length b1 <= index_size idx)%nat; [|lia].
  clear - E. induction idx as [|[k1 b2] idx IH]; simpl in *; [discriminate|].
  destruct (String.eqb k1 k); [inversion E; subst; lia|].
  specialize (IH E). lia.
Qed.

Lemma index_size_append (idx : list (string * list Func)) k f :
  index_size (index_append idx k f) = S (index_size idx).
Proof.
  unfold index_append. destruct (dict_get idx k) as [b|] eqn:E;
    rewrite index_size_set, E; rewrite ?length_app; simpl; lia.
Qed.

Lemma dict_set_In {V : Type} (d : list (string * V)) k v k' v' :
  In (k', v') (dict_set d k v) -> (k' = k /\ v' = v) \/ In (k', v') d.
Proof.
  induction d as [|[k0 v0] d IH]; simpl.
  - intros [H|[]]. inversion H; auto.
  - destruct (String.eqb k0 k); simpl.
    + intros [H|H]; [inversion H; auto | auto].
    + intros [H|H]; [auto|]. destruct (IH H); auto.
Qed.

Lemma dict_get_In {V : Type} (d : list (string * V)) k v :
  dict_get d k = Some v -> In (k, v) d.
Proof.
  induction d as [|[k0 v0] d IH]; simpl; [discriminate|].
  destruct (String.eqb k0 k) eqn:E.
  - apply String.eqb_eq in E. intros H; inversion H; subst. now left.
  - intros H. right. now apply IH.
Qed.

(** The index of a built catalog is its function list, split by
    codomain and in insertion order. *)
Lemma built_funcs_returning (c : Catalog) :
  built c ->
  forall t, funcs_returning c t
            = filter (fun f => String.eqb (f_cod f) t) (funcs c).
Proof.
  induction 1 as [|c t0 _ IH|c p _ IH|c f _ IH]; intros t;
    try (exact (IH t)); [reflexivity|].
  unfold funcs_returning in *. simpl. rewrite filter_app. simpl.
  destruct (String.eqb (f_cod f) t) eqn:E.
  - apply String.eqb_eq in E. subst t.
    rewrite index_append_get_same, <- IH.
    now destruct (dict_get (by_cod c) (f_cod f)).
  - assert (f_cod f <> t)
      by (intros Heq; rewrite Heq, String.eqb_refl in E; discriminate).
    rewrite index_append_get_other by assumption.
    rewrite app_nil_r. apply IH.
Qed.

Lemma built_index_size (c : Catalog) :
  built c -> index_size (by_cod c) = List.length (funcs c).
Proof.
  induction 1 as [|c t0 _ IH|c p _ IH|c f _ IH]; try exact IH; [reflexivity|].
  simpl. rewrite index_size_append, length_app, IH. simpl. lia.
Qed.

Lemma built_index_In (c : Catalog) :
  built c ->
  forall k b f, In (k, b) (by_cod c) -> In f b -> In f (funcs c).
Proof.
  induction 1 as [|c t0 _ IH|c p _ IH|c f0 _ IH]; intros k b f Hk Hf;
    try (exact (IH k b f Hk Hf)); [contradiction|].
  simpl in *. apply in_or_app. unfold index_append in Hk.
  destruct (dict_get (by_cod c) (f_cod f0)) as [b0|] eqn:E;
    apply dict_set_In in Hk; destruct Hk as [[-> ->]|Hk].
  - apply in_app_or in Hf. destruct Hf as [Hf|[<-|[]]]; [|right; now left].
    left. eapply IH; [apply dict_get_In; exact E | exact Hf].
  - left. eapply IH; eauto.
  - destruct Hf as [<-|[]]. right; now left.
  - left. eapply IH; eauto.
Qed.

Lemma built_nonneg (c : Catalog) :
  built c -> nonneg_funcs c -> nonneg_costs c.
Proof.
  intros Hb Hn. unfold nonneg_costs, nonneg_funcs in *.
  rewrite Forall_forall in *. intros [k b] Hk. simpl.
  rewrite Forall_forall. intros f Hf. apply Hn.
  eapply built_index_In; eauto.
Qed.

(* ================================================================= *)
(** ** C5: the proof term of a linear result *)

(** C5, as stated, fails on a one-function path: from [A] to [B] in the
    linear catalog the only result has path [[f]], and its proof term is
    the node [Func(f)], not a composition with one child. *)
Lemma proof_of_one_function_path_is_not_a_composition :
  exists r,
    synthesize_backward 10 linear_catalog "A" "B" 100 10 = Ok [r]
    /\ sr_path r = [fn "f" (Single "A") "B" 1 (9 / 10)]
    /\ pn_node_type (sr_proof r) = FUNCTION
    /\ sr_proof r <> claimed_proof "A" (sr_path r).
Proof.
  eexists. split; [vm_compute; reflexivity|].
  split; [reflexivity|]. split; [reflexivity|].
  cbn. intros H. discriminate H.
Qed.

(** C5, amended: every result of [synthesize_backward] carries
    [Identity(src)] when its path is empty, the node [Func(f)] itself when
    its path is the single function [f], and otherwise the flat
    composition of the path's function nodes in source-to-goal order. *)
Theorem synthesize_backward_proof_term (catalog : Catalog)
  (src goal : string) (max_cost : Q) (max_results : Z) (fuel : nat) :
  nonneg_costs catalog -> (search_fuel catalog <= fuel)%nat ->
  exists rs,
    synthesize_backward fuel catalog src goal max_cost max_results = Ok rs
    /\ Forall (fun r =>
                 sr_proof r = path_proof src (sr_path r)
                 /\ match sr_path r with
                    | [] => sr_proof r = make_identity src
                    | [f] => sr_proof r = make_func f
                    | path =>
                        pn_node_type (sr_proof r) = COMPOSITION
                        /\ pn_children (sr_proof r) = map make_func path
                    end) rs.
Proof.
  intros Hn Hf.
  destruct (synthesize_backward_terminates catalog src goal max_cost
              max_results fuel Hn Hf) as [ds [Hd Hs]].
  eexists. split; [exact Hs|].
  eapply Permutation_Forall; [apply sorted_perm|].
  eapply Forall_impl; [|apply (discovered_proofs _ _ _ _ _ _ _ Hd)].
  intros r Hr. split; [exact Hr|].
  rewrite Hr. now destruct (sr_path r) as [|f [|g rest]].
Qed.

Lemma synthesize_backward_proof_term_witness :
  exists rs,
    synthesize_backward 10 linear_catalog "A" "C" 100 10 = Ok rs
    /\ Forall (fun r =>
                 sr_proof r = path_proof "A" (sr_path r)
                 /\ match sr_path r with
                    | [] => sr_proof r = make_identity "A"
                    | [f] => sr_proof r = make_func f
                    | path =>
                        pn_node_type (sr_proof r) = COMPOSITION
                        /\ pn_children (sr_proof r) = map make_func path
                    end) rs.
Proof.
  apply (synthesize_backward_proof_term linear_catalog "A" "C" 100 10 10).
  - nonneg_by_computation.
  - vm_compute; lia.
Defined.

(* ================================================================= *)
(** ** The planner: argument resolution *)

Lemma set_mem_In (x : string) (l : list string) :
  set_mem x l = true <-> In x l.
Proof.
  unfold set_mem. rewrite existsb_exists. split.
  - intros [y [Hy E]]. apply String.eqb_eq in E. now subst.
  - intros H. exists x. split; [exact H | apply String.eqb_refl].
Qed.

Lemma find_direct_Some (sources : list (string * string)) T used s :
  find_direct sources T used = Some s ->
  In (s, T) sources /\ ~ In s used.
Proof.
  induction sources as [|[i ty] rest IH]; simpl; [discriminate|].
  destruct (String.eqb ty T && negb (set_mem i used))%bool eqn:E.
  - intros H; inversion H; subst. apply andb_true_iff in E. destruct E as [E1 E2].
    apply String.eqb_eq in E1. subst. split; [now left|].
    apply negb_true_iff in E2. intros Hin. apply set_mem_In in Hin. congruence.
  - intros H. destruct (IH H). split; [now right | assumption].
Qed.

Lemma find_direct_None (sources : list (string * string)) T used :
  find_direct sources T used = None ->
  forall s, In (s, T) sources -> In s used.
Proof.
  induction sources as [|[i ty] rest IH]; simpl; [contradiction|].
  destruct (String.eqb ty T && negb (set_mem i used))%bool eqn:E; [discriminate|].
  intros H s [Hs|Hs]; [|now apply IH].
  inversion Hs; subst. rewrite String.eqb_refl in E. simpl in E.
  apply negb_false_iff in E. now apply set_mem_In.
Qed.

Section Planner.
Variable catalog : Catalog.
Variable fuel : nat.
Hypothesis Hnonneg : nonneg_costs catalog.
Hypothesis Hfuel : (search_fuel catalog <= fuel)%nat.

Lemma synthesize_backward_total (src goal : string) (maxc : Q) (maxr : Z) :
  exists rs,
    synthesize_backward fuel catalog src goal maxc maxr = Ok rs
    /\ Forall consistent rs.
Proof.
  destruct (synthesize_backward_terminates catalog src goal maxc maxr fuel
              Hnonneg Hfuel) as [ds [Hd Hs]].
  eexists. split; [exact Hs|].
  eapply Permutation_Forall; [apply sorted_perm|].
  apply (discovered_costs _ _ _ _ _ _ _ Hd).
Qed.

Lemma find_by_search_total (sources : list (string * string)) (T : string)
  (budget : Q) :
  exists o,
    find_by_search fuel catalog sources T budget = Ok o
    /\ forall s r, o = Some (s, r) ->
         consistent r
         /\ exists ty rs,
              In (s, ty) sources
              /\ synthesize_backward fuel catalog ty T budget
                   default_max_results = Ok (r :: rs).
Proof.
  induction sources as [|[i ty] rest IH]; simpl.
  - eexists. split; [reflexivity|]. discriminate.
  - destruct (synthesize_backward_total ty T budget default_max_results)
      as [rs [Hs Hc]].
    rewrite Hs. simpl. destruct rs as [|r rs].
    + destruct IH as [o [Ho Hp]]. exists o. split; [exact Ho|].
      intros s r E. destruct (Hp s r E) as [? (ty' & rs' & ? & ?)].
      split; [assumption|]. exists ty', rs'. split; [now right|assumption].
    + eexists. split; [reflexivity|]. intros s r' E. inversion E; subst.
      split; [now inversion Hc|]. exists ty, rs. split; [now left|assumption].
Qed.

Lemma identity_result_consistent (T : string) : consistent (identity_result T).
Proof. split; reflexivity. Qed.

Lemma args_cost_app (a b : list (string * SynthesisResult)) :
  (args_cost (a ++ b) == args_cost a + args_cost b)%Q.
Proof.
  unfold args_cost. induction a as [|x a IH]; simpl; [ring|].
  rewrite IH. ring.
Qed.

Lemma resolve_args_total (sources : list (string * string))
  (remaining : Q) (required : list string) :
  forall st,
    NoDup (used_sources st) ->
    exists o,
      resolve_args fuel catalog sources required remaining st = Ok o
      /\ forall st', o = Some st' ->
           supplies fuel catalog sources remaining required st st'
           /\ NoDup (used_sources st')
           /\ exists new,
                arg_results st' = arg_results st ++ new
                /\ List.length new = List.length required
                /\ (as_total_cost st'
                    == as_total_cost st + args_cost new)%Q.
Proof.
  induction required as [|T rest IH]; intros st Hnd; simpl.
  - eexists. split; [reflexivity|]. intros st' E. inversion E; subst.
    split; [constructor|]. split; [exact Hnd|].
    exists []. rewrite app_nil_r. repeat split. unfold args_cost; simpl. ring.
  - destruct (find_direct sources T (used_sources st)) as [s|] eqn:Hd.
    + destruct (find_direct_Some _ _ _ _ Hd) as [Hin Hfresh].
      destruct (IH (mkArgState
                      (arg_results st ++ [(s, identity_result T)])
                      (as_total_cost st) (as_total_confidence st)
                      (s :: used_sources st)))
        as [o [Ho Hp]]; [now constructor|].
      exists o. split; [exact Ho|]. intros st' E.
      destruct (Hp st' E) as (Hsup & Hnd' & new & Hnew & Hlen & Hcost).
      split; [eapply supplies_direct; eauto|]. split; [exact Hnd'|].
      exists ((s, identity_result T) :: new). simpl in *.
      rewrite Hnew, <- app_assoc. repeat split; [now rewrite Hlen|].
      rewrite Hcost. unfold args_cost; simpl. unfold compute_cost; simpl. ring.
    + destruct (find_by_search_total sources T
                  (remaining - as_total_cost st)%Q) as [o [Ho Hp]].
      rewrite Ho. simpl. destruct o as [[s r]|].
      * destruct (Hp s r eq_refl) as [Hc (ty & rs & Hin & Hs)].
        destruct (IH (mkArgState (arg_results st ++ [(s, r)])
                        (as_total_cost st + sr_cost r)%Q
                        (as_total_confidence st * sr_confidence r)%Q
                        (used_sources st)))
          as [o' [Ho' Hp']]; [exact Hnd|].
        exists o'. split; [exact Ho'|]. intros st' E.
        destruct (Hp' st' E) as (Hsup & Hnd' & new & Hnew & Hlen & Hcost).
        split.
        { eapply supplies_search; eauto.
          now apply find_direct_None. }
        split; [exact Hnd'|].
        exists ((s, r) :: new). simpl in *.
        rewrite Hnew, <- app_assoc. repeat split; [now rewrite Hlen|].
        rewrite Hcost. unfold args_cost; simpl. destruct Hc as [Hc _].
        rewrite Hc. ring.
      * eexists. split; [reflexivity|]. discriminate.
Qed.

Lemma comps_cost_app (a b : list (string * string * SynthesisResult)) :
  (comps_cost (a ++ b) == comps_cost a + comps_cost b)%Q.
Proof.
  unfold comps_cost. induction a as [|x a IH]; simpl; [ring|].
  rewrite IH. ring.
Qed.

Lemma resolve_components_total (sources : list (string * string))
  (remaining : Q) (components : list string) :
  forall st,
    exists o,
      resolve_components fuel catalog sources components remaining st = Ok o
      /\ forall st', o = Some st' ->
           exists new,
             component_results st' = component_results st ++ new
             /\ map (fun c => snd (fst c)) new = components
             /\ (cs_total_cost st'
                 == cs_total_cost st + comps_cost new)%Q.
Proof.
  induction components as [|T rest IH]; intros st; simpl.
  - eexists. split; [reflexivity|]. intros st' E. inversion E; subst.
    exists []. rewrite app_nil_r. repeat split. unfold comps_cost; simpl. ring.
  - destruct (find_direct_component sources T) as [s|] eqn:Hd.
    + destruct (IH (mkCompState
                      (component_results st ++ [(s, T, identity_result T)])
                      (cs_total_cost st) (cs_total_confidence st)))
        as [o [Ho Hp]].
      exists o. split; [exact Ho|]. intros st' E.
      destruct (Hp st' E) as (new & Hnew & Hlen & Hcost).
      exists ((s, T, identity_result T) :: new). simpl in *.
      rewrite Hnew, <- app_assoc. repeat split; [now rewrite Hlen|].
      rewrite Hcost. unfold comps_cost; simpl. unfold compute_cost; simpl. ring.
    + destruct (find_by_search_total sources T
                  (remaining - cs_total_cost st)%Q) as [o [Ho Hp]].
      rewrite Ho. simpl. destruct o as [[s r]|].
      * destruct (Hp s r eq_refl) as [Hc _].
        destruct (IH (mkCompState (component_results st ++ [(s, T, r)])
                        (cs_total_cost st + sr_cost r)%Q
                        (cs_total_confidence st * sr_confidence r)%Q))
          as [o' [Ho' Hp']].
        exists o'. split; [exact Ho'|]. intros st' E.
        destruct (Hp' st' E) as (new & Hnew & Hlen & Hcost).
        exists ((s, T, r) :: new). simpl in *.
        rewrite Hnew, <- app_assoc. repeat split; [now rewrite Hlen|].
        rewrite Hcost. unfold comps_cost; simpl. destruct Hc as [Hc _].
        rewrite Hc. ring.
      * eexists. split; [reflexivity|]. discriminate.
Qed.
End Planner.

(* ================================================================= *)
(** ** Node identifiers *)

Lemma contains_char_app (c : ascii) (p q : string) :
  contains_char c (p ++ String c q)%string = true.
Proof.
  induction p as [|c' p IH]; simpl.
  - now rewrite Ascii.eqb_refl.
  - destruct (Ascii.eqb c' c); [reflexivity | exact IH].
Qed.

Lemma string_of_uint_no_underscore (d : Decimal.uint) :
  contains_char "_"%char (NilEmpty.string_of_uint d) = false.
Proof. induction d; simpl; auto. Qed.

Lemma str_of_nat_inj (i j : nat) : str_of_nat i = str_of_nat j -> i = j.
Proof.
  unfold str_of_nat. intros H. apply Unsigned.to_uint_inj.
  apply (f_equal NilEmpty.uint_of_string) in H.
  rewrite !NilEmpty.usu in H. now inversion H.
Qed.

(** The text after the last underscore determines the suffix. *)
Lemma suffix_after_underscore (a : string) :
  forall b x y,
    contains_char "_"%char x = false -> contains_char "_"%char y = false ->
    (a ++ String "_"%char x)%string = (b ++ String "_"%char y)%string ->
    x = y.
Proof.
  induction a as [|c a IH]; intros b x y Hx Hy H.
  - destruct b as [|c' b]; simpl in H.
    + now inversion H.
    + inversion H; subst. rewrite contains_char_app in Hx. discriminate.
  - destruct b as [|c' b]; simpl in H.
    + inversion H; subst. rewrite contains_char_app in Hy. discriminate.
    + inversion H; subst. eapply IH; eauto.
Qed.

Lemma transform_id_inj (T T' : string) (i j : nat) :
  transform_id T i = transform_id T' j -> i = j.
Proof.
  unfold transform_id. intros H. simpl in H.
  inversion H as [H']. apply str_of_nat_inj.
  eapply suffix_after_underscore; [| |exact H'];
    apply string_of_uint_no_underscore.
Qed.

(* ================================================================= *)
(** ** The planner: DAG construction *)

Lemma make_composition_Ok (p : ProofNode) (rest : list ProofNode) :
  exists q, make_composition (p :: rest) = Ok q.
Proof.
  unfold make_composition. destruct rest as [|p' rest]; [eauto|].
  destruct (flatten_proofs (p :: p' :: rest)) as [|a [|b c]]; eauto.
Qed.

Lemma paths_cost_zero (nodes : list (string * DAGNode)) :
  (forall k n, In (k, n) nodes -> n_path n = []) ->
  (paths_cost nodes == 0)%Q.
Proof.
  induction nodes as [|[k n] nodes IH]; intros H;
    cbn [paths_cost fold_right snd]; [reflexivity|].
  fold (paths_cost nodes).
  rewrite (H k n) by now left. rewrite IH by (intros; eapply H; right; eauto).
  change (compute_cost []) with 0%Q. ring.
Qed.

Lemma paths_cost_set (nodes : list (string * DAGNode)) k v :
  (forall n, In (k, n) nodes -> n_path n = []) ->
  (paths_cost (dict_set nodes k v)
   == paths_cost nodes + compute_cost (n_path v))%Q.
Proof.
  induction nodes as [|[k0 n0] nodes IH]; intros H;
    cbn [dict_set paths_cost fold_right snd]; [ring|].
  destruct (String.eqb k0 k) eqn:E; cbn [paths_cost fold_right snd].
  - apply String.eqb_eq in E. subst k0.
    rewrite (H n0) by now left.
    change (compute_cost []) with 0%Q. fold (paths_cost nodes). ring.
  - fold (paths_cost (dict_set nodes k v)). fold (paths_cost nodes).
    rewrite IH by (intros; apply H; now right). ring.
Qed.

Lemma add_source_nodes_paths (sources : list (string * string)) :
  forall k n, In (k, n) (add_source_nodes sources) -> n_path n = [].
Proof.
  unfold add_source_nodes.
  assert (G : forall acc : list (string * DAGNode),
             (forall k n, In (k, n) acc -> n_path n = []) ->
             forall k n,
               In (k, n) (fold_left
                            (fun nodes '(src_id, src_type) =>
                               dict_set nodes src_id
                                        (source_node src_id src_type))
                            sources acc) ->
               n_path n = []).
  { induction sources as [|[i ty] rest IH]; intros acc Hacc k n; simpl; [apply Hacc|].
    apply IH. intros k' n' Hin. apply dict_set_In in Hin.
    destruct Hin as [[_ ->]|Hin]; [reflexivity | eapply Hacc; eauto]. }
  apply G. intros k n [].
Qed.

Lemma keys_ok_sources (sources : list (string * string)) :
  keys_ok 0 (add_source_nodes sources).
Proof. intros k n H. left. eapply add_source_nodes_paths; eauto. Qed.

Lemma keys_ok_fresh (i : nat) (nodes : list (string * DAGNode)) (T : string) :
  keys_ok i nodes ->
  forall n, In (transform_id T i, n) nodes -> n_path n = [].
Proof.
  intros H n Hin. destruct (H _ _ Hin) as [?|(T' & j & Hj & E)]; [assumption|].
  apply transform_id_inj in E. lia.
Qed.

Lemma keys_ok_not_transform (i : nat) (nodes : list (string * DAGNode))
  (k : string) :
  keys_ok i nodes -> (forall T j, k <> transform_id T j) ->
  forall n, In (k, n) nodes -> n_path n = [].
Proof.
  intros H Hk n Hin. destruct (H _ _ Hin) as [?|(T' & j & _ & E)]; [assumption|].
  now apply Hk in E.
Qed.

Lemma build_step_spec (T : string) (i : nat) (s : string)
  (r : SynthesisResult) (st : BuildState) :
  keys_ok i (bs_nodes st) ->
  keys_ok (S i) (bs_nodes (build_step T i s r st))
  /\ (paths_cost (bs_nodes (build_step T i s r st))
      == paths_cost (bs_nodes st) + compute_cost (sr_path r))%Q.
Proof.
  intros H. unfold build_step. destruct (sr_path r) as [|f path] eqn:E; simpl.
  - split.
    + intros k n Hin. destruct (H k n Hin) as [?|(T' & j & ? & ?)]; [now left|].
      right. exists T', j. split; [lia | assumption].
    + unfold compute_cost; simpl. ring.
  - split.
    + intros k n Hin. apply dict_set_In in Hin.
      destruct Hin as [[-> ->]|Hin].
      * right. exists T, i. split; [lia | reflexivity].
      * destruct (H k n Hin) as [?|(T' & j & ? & ?)]; [now left|].
        right. exists T', j. split; [lia | assumption].
    + rewrite paths_cost_set by (now apply keys_ok_fresh). reflexivity.
Qed.

Lemma build_arg_nodes_spec (g : Func) (args : list (string * SynthesisResult)) :
  forall i st,
    (i + List.length args <= List.length (dom_types g))%nat ->
    keys_ok i (bs_nodes st) ->
    exists st',
      build_arg_nodes g i args st = Ok st'
      /\ keys_ok (i + List.length args) (bs_nodes st')
      /\ (paths_cost (bs_nodes st')
          == paths_cost (bs_nodes st) + args_cost args)%Q.
Proof.
  induction args as [|[s r] args IH]; intros i st Hlen Hk; simpl.
  - exists st. rewrite Nat.add_0_r. repeat split; [assumption|].
    unfold args_cost; simpl. ring.
  - simpl in Hlen.
    destruct (nth_error (dom_types g) i) as [T|] eqn:En.
    + destruct (build_step_spec T i s r st Hk) as [Hk' Hc].
      destruct (IH (S i) (build_step T i s r st)) as (st' & Hb & Hk'' & Hc');
        [lia | exact Hk' |].
      exists st'. split; [exact Hb|]. split.
      * now replace (i + S (List.length args))%nat
          with (S i + List.length args)%nat by lia.
      * rewrite Hc', Hc. unfold args_cost; simpl. ring.
    + apply nth_error_None in En. lia.
Qed.

Lemma build_component_nodes_spec
  (comps : list (string * string * SynthesisResult)) :
  forall i st,
    keys_ok i (bs_nodes st) ->
    keys_ok (i + List.length comps)
            (bs_nodes (build_component_nodes i comps st))
    /\ (paths_cost (bs_nodes (build_component_nodes i comps st))
        == paths_cost (bs_nodes st) + comps_cost comps)%Q.
Proof.
  induction comps as [|[[s c] r] comps IH]; intros i st Hk; simpl.
  - rewrite Nat.add_0_r. split; [assumption|]. unfold comps_cost; simpl. ring.
  - destruct (build_step_spec c i s r st Hk) as [Hk' Hc].
    destruct (IH (S i) (build_step c i s r st) Hk') as [Hk'' Hc'].
    split.
    + now replace (i + S (List.length comps))%nat
        with (S i + List.length comps)%nat by lia.
    + rewrite Hc', Hc. unfold comps_cost; simpl. ring.
Qed.

Lemma goal_is_not_a_transform (T : string) (j : nat) :
  "goal" <> transform_id T j.
Proof. unfold transform_id. simpl. discriminate. Qed.

Lemma aggregate_is_not_a_transform (T : string) (j : nat) :
  "aggregate" <> transform_id T j.
Proof. unfold transform_id. simpl. discriminate. Qed.

Lemma _build_dag_from_multiarg_spec (sources : list (string * string))
  (goal_type : string) (g : Func) (args : list (string * SynthesisResult))
  (total conf : Q) :
  List.length args = List.length (dom_types g) ->
  (total == f_cost g + args_cost args)%Q ->
  exists d,
    _build_dag_from_multiarg sources goal_type g args total conf = Ok d
    /\ dag_cost_ok d /\ total_cost d = total.
Proof.
  intros Hlen Ht. unfold _build_dag_from_multiarg.
  destruct (build_arg_nodes_spec g args 0
              (mkBuildState (add_source_nodes sources) [] []))
    as (st & Hb & Hk & Hc); [simpl; lia | apply keys_ok_sources |].
  rewrite Hb. cbn [bind].
  destruct (make_composition_Ok (make_tuple (bs_proofs st)) [make_func g])
    as [q Hq].
  rewrite Hq. cbn [bind]. eexists. split; [reflexivity|].
  split; [|reflexivity].
  unfold dag_cost_ok. cbn [nodes goal_node total_cost].
  rewrite dict_get_set_same. eexists. split; [reflexivity|].
  rewrite paths_cost_set.
  - pose proof (paths_cost_zero (add_source_nodes sources)
                  (add_source_nodes_paths sources)) as Hz.
    cbn [bs_nodes] in Hc. rewrite Hz in Hc.
    unfold bare_func_cost; cbn [n_path n_func]. rewrite Hc, Ht.
    change (compute_cost []) with 0%Q. ring.
  - eapply keys_ok_not_transform; [exact Hk | apply goal_is_not_a_transform].
Qed.

Lemma _build_dag_from_product_spec (sources : list (string * string))
  (goal_type : string) (pname : string) (pt : ProductType)
  (comps : list (string * string * SynthesisResult)) (agg : SynthesisResult)
  (total conf : Q) :
  consistent agg ->
  (total == sr_cost agg + comps_cost comps)%Q ->
  exists d,
    _build_dag_from_product sources goal_type pname pt comps agg total conf
    = Ok d
    /\ dag_cost_ok d /\ total_cost d = total.
Proof.
  intros [Hagg _] Ht. unfold _build_dag_from_product.
  destruct (build_component_nodes_spec comps 0
              (mkBuildState (add_source_nodes sources) [] [])
              (keys_ok_sources sources)) as [Hk Hc].
  set (st := build_component_nodes 0 comps
               (mkBuildState (add_source_nodes sources) [] [])) in *.
  assert (Hp : exists q,
             match sr_path agg with
             | [] => Ok (make_tuple (bs_proofs st))
             | _ :: _ =>
                 make_composition [make_tuple (bs_proofs st); sr_proof agg]
             end = Ok q).
  { destruct (sr_path agg); [eauto | apply make_composition_Ok]. }
  destruct Hp as [q Hq]. rewrite Hq. cbn [bind].
  eexists. split; [reflexivity|]. split; [|reflexivity].
  unfold dag_cost_ok. cbn [nodes goal_node total_cost].
  rewrite dict_get_set_same. eexists. split; [reflexivity|].
  rewrite paths_cost_set.
  - pose proof (paths_cost_zero (add_source_nodes sources)
                  (add_source_nodes_paths sources)) as Hz.
    cbn [bs_nodes] in Hc. rewrite Hz in Hc.
    cbn [n_path]. rewrite Hc, Ht, Hagg.
    assert (Hb : (bare_func_cost
                    (mkDAGNode "aggregate" "aggregate" goal_type
                       (first_func (sr_path agg)) (bs_inputs st)
                       (sr_path agg) VNone) == 0)%Q).
    { unfold bare_func_cost; cbn [n_path n_func].
      destruct (sr_path agg); reflexivity. }
    rewrite Hb. ring.
  - eapply keys_ok_not_transform; [exact Hk | apply aggregate_is_not_a_transform].
Qed.

Lemma _single_path_to_dag_spec (src_id src_type goal_type : string)
  (r : SynthesisResult) :
  consistent r ->
  dag_cost_ok (_single_path_to_dag src_id src_type goal_type r).
Proof.
  intros [Hc _]. unfold dag_cost_ok, _single_path_to_dag.
  cbn [nodes goal_node total_cost].
  rewrite dict_get_set_same. eexists. split; [reflexivity|].
  rewrite paths_cost_set.
  - cbn [dict_set n_path paths_cost fold_right snd source_node].
    assert (Hb : (bare_func_cost
                    (mkDAGNode "goal" "goal" goal_type
                       (last_func (sr_path r)) [src_id] (sr_path r) VNone)
                  == 0)%Q).
    { unfold bare_func_cost; cbn [n_path n_func].
      destruct (sr_path r); reflexivity. }
    rewrite Hb, Hc. fold (compute_cost []). change (compute_cost []) with 0%Q.
    ring.
  - intros n Hin. apply dict_set_In in Hin.
    destruct Hin as [[_ ->]|[]]. reflexivity.
Qed.

(* ================================================================= *)
(** ** The three strategies *)

Section Strategies.
Variable catalog : Catalog.
Variable fuel : nat.
Hypothesis Hnonneg : nonneg_costs catalog.
Hypothesis Hfuel : (search_fuel catalog <= fuel)%nat.

Lemma _try_synthesize_multiarg_func_total (sources : list (string * string))
  (goal_type : string) (g : Func) (maxc : Q) :
  exists o,
    _try_synthesize_multiarg_func fuel catalog sources goal_type g maxc = Ok o
    /\ forall d, o = Some d -> dag_cost_ok d.
Proof.
  unfold _try_synthesize_multiarg_func.
  destruct (resolve_args_total catalog fuel Hnonneg Hfuel sources
              (maxc - f_cost g)%Q (dom_types g)
              (mkArgState [] (f_cost g) (f_conf g) []))
    as [o [Ho Hp]]; [constructor|].
  rewrite Ho. cbn [bind]. destruct o as [st|].
  - destruct (Hp st eq_refl) as (_ & _ & new & Hnew & Hlen & Hcost).
    simpl in Hnew, Hcost.
    destruct (_build_dag_from_multiarg_spec sources goal_type g
                (arg_results st) (as_total_cost st)
                (as_total_confidence st)) as (d & Hd & Hok & _).
    + now rewrite Hnew.
    + now rewrite Hnew.
    + rewrite Hd. cbn [bind]. eexists. split; [reflexivity|].
      intros d' E. now inversion E; subst.
  - eexists. split; [reflexivity|]. discriminate.
Qed.

Lemma _try_synthesize_via_product_total (sources : list (string * string))
  (goal_type pname : string) (pt : ProductType) (maxc : Q) :
  exists o,
    _try_synthesize_via_product fuel catalog sources goal_type pname pt maxc
    = Ok o
    /\ forall d, o = Some d -> dag_cost_ok d.
Proof.
  unfold _try_synthesize_via_product.
  destruct (synthesize_backward_total catalog fuel Hnonneg Hfuel pname
              goal_type maxc default_max_results) as [rs [Hs Hc]].
  rewrite Hs. cbn [bind]. destruct rs as [|agg rs].
  - eexists. split; [reflexivity|]. discriminate.
  - inversion Hc as [|? ? Hagg _]; subst.
    destruct (resolve_components_total catalog fuel Hnonneg Hfuel sources
                (maxc - sr_cost agg)%Q (pt_components pt)
                (mkCompState [] (sr_cost agg) (sr_confidence agg)))
      as [o [Ho Hp]].
    rewrite Ho. cbn [bind]. destruct o as [st|].
    + destruct (Hp st eq_refl) as (new & Hnew & _ & Hcost).
      simpl in Hnew, Hcost.
      destruct (_build_dag_from_product_spec sources goal_type pname pt
                  (component_results st) agg (cs_total_cost st)
                  (cs_total_confidence st) Hagg) as (d & Hd & Hok & _).
      * now rewrite Hnew.
      * rewrite Hd. cbn [bind]. eexists. split; [reflexivity|].
        intros d' E. now inversion E; subst.
    + eexists. split; [reflexivity|]. discriminate.
Qed.

Lemma multiarg_results_total (sources : list (string * string))
  (goal_type : string) (maxc : Q) (gs : list Func) :
  exists l,
    multiarg_results fuel catalog sources goal_type maxc gs = Ok l
    /\ Forall dag_cost_ok l.
Proof.
  induction gs as [|g gs [l [Hl Hok]]]; simpl; [eauto|].
  destruct (is_multiarg g); [|eauto].
  destruct (_try_synthesize_multiarg_func_total sources goal_type g maxc)
    as [o [Ho Hp]].
  rewrite Ho, Hl. cbn [bind]. eexists. split; [reflexivity|].
  destruct o as [d|]; [constructor; auto | exact Hok].
Qed.

Lemma product_results_total (sources : list (string * string))
  (goal_type : string) (maxc : Q) (ps : list (string * ProductType)) :
  exists l,
    product_results fuel catalog sources goal_type maxc ps = Ok l
    /\ Forall dag_cost_ok l.
Proof.
  induction ps as [|[pname pt] ps [l [Hl Hok]]]; simpl; [eauto|].
  destruct (_try_synthesize_via_product_total sources goal_type pname pt maxc)
    as [o [Ho Hp]].
  rewrite Ho, Hl. cbn [bind]. eexists. split; [reflexivity|].
  destruct o as [d|]; [constructor; auto | exact Hok].
Qed.

Lemma single_results_total (goal_type : string) (maxc : Q)
  (srcs : list (string * string)) :
  exists l,
    single_results fuel catalog goal_type maxc srcs = Ok l
    /\ Forall dag_cost_ok l.
Proof.
  induction srcs as [|[i ty] srcs [l [Hl Hok]]]; simpl; [eauto|].
  destruct (synthesize_backward_total catalog fuel Hnonneg Hfuel ty
              goal_type maxc default_max_results) as [rs [Hs Hc]].
  rewrite Hs, Hl. cbn [bind]. eexists. split; [reflexivity|].
  destruct rs as [|r rs]; [exact Hok|].
  constructor; [|exact Hok]. apply _single_path_to_dag_spec.
  now inversion Hc.
Qed.
End Strategies.

(* ================================================================= *)
(** ** The selection *)

Lemma head_of_sorted_cheapest (l : list SynthesisDAG) :
  match sorted total_cost l with
  | d :: _ => cheapest d l
  | [] => l = []
  end.
Proof.
  destruct (sorted total_cost l) as [|d rest] eqn:E.
  - now apply sorted_nil_iff in E.
  - exact (sorted_head_min total_cost l d rest E).
Qed.

Lemma select_result_prefer (ma pr si : list SynthesisDAG) :
  match ma, pr, si with
  | _ :: _, _, _ => exists d, select_result true ma pr si = Some d /\ cheapest d ma
  | [], _ :: _, _ => exists d, select_result true ma pr si = Some d /\ cheapest d pr
  | [], [], _ :: _ => exists d, select_result true ma pr si = Some d /\ cheapest d si
  | [], [], [] => select_result true ma pr si = None
  end.
Proof.
  unfold select_result.
  pose proof (head_of_sorted_cheapest ma) as Ha.
  pose proof (head_of_sorted_cheapest pr) as Hb.
  pose proof (head_of_sorted_cheapest si) as Hc.
  destruct ma as [|a ma].
  - change (sorted total_cost []) with (@nil SynthesisDAG). cbn [app].
    destruct pr as [|b pr].
    + change (sorted total_cost []) with (@nil SynthesisDAG). cbn [app].
      destruct si as [|c si]; [reflexivity|].
      destruct (sorted total_cost (c :: si)) as [|d rest]; [discriminate|].
      eauto.
    + destruct (sorted total_cost (b :: pr)) as [|d rest]; [discriminate|].
      cbn [app]. eauto.
  - destruct (sorted total_cost (a :: ma)) as [|d rest]; [discriminate|].
    cbn [app]. eauto.
Qed.

Lemma select_result_global (ma pr si : list SynthesisDAG) :
  match ma ++ pr ++ si with
  | [] => select_result false ma pr si = None
  | _ :: _ =>
      exists d, select_result false ma pr si = Some d
                /\ cheapest d (ma ++ pr ++ si)
  end.
Proof.
  unfold select_result.
  pose proof (head_of_sorted_cheapest (ma ++ pr ++ si)) as H.
  destruct (sorted total_cost (ma ++ pr ++ si)) as [|d rest].
  - now rewrite H.
  - destruct (ma ++ pr ++ si) as [|x l] eqn:E; [destruct H as [[] _]|].
    eauto.
Qed.

Lemma select_result_None (b : bool) (ma pr si : list SynthesisDAG) :
  select_result b ma pr si = None <-> ma = [] /\ pr = [] /\ si = [].
Proof.
  split.
  - destruct b.
    + pose proof (select_result_prefer ma pr si) as H.
      destruct ma, pr, si; try (destruct H as [d [H _]]; congruence); auto.
    + pose proof (select_result_global ma pr si) as H. intros E.
      destruct (ma ++ pr ++ si) eqn:El.
      * apply app_eq_nil in El. destruct El as [-> El].
        apply app_eq_nil in El. destruct El as [-> ->]. auto.
      * destruct H as [d [H _]]. congruence.
  - intros (-> & -> & ->). now destruct b.
Qed.

Lemma multiarg_results_gathered (fuel : nat) (catalog : Catalog)
  (sources : list (string * string)) (goal_type : string) (maxc : Q) :
  forall gs ma,
    multiarg_results fuel catalog sources goal_type maxc gs = Ok ma ->
    ma = gathered (fun g => _try_synthesize_multiarg_func fuel catalog
                              sources goal_type g maxc)
                  (filter is_multiarg gs)
    /\ all_return (fun g => _try_synthesize_multiarg_func fuel catalog
                              sources goal_type g maxc)
                  (filter is_multiarg gs).
Proof.
  induction gs as [|g gs IH]; intros ma H; simpl in H.
  - inversion H; subst. split; [reflexivity | constructor].
  - destruct (is_multiarg g) eqn:Eg; simpl; rewrite Eg; [|now apply IH].
    inv_bind H. inv_bind H. inversion H; subst ma; clear H.
    destruct (IH _ Ha0) as [-> Hall].
    split; [|constructor; [eauto | exact Hall]].
    unfold gathered. cbn [flat_map]. rewrite Ha. now destruct a.
Qed.

Lemma product_results_gathered (fuel : nat) (catalog : Catalog)
  (sources : list (string * string)) (goal_type : string) (maxc : Q) :
  forall ps pr,
    product_results fuel catalog sources goal_type maxc ps = Ok pr ->
    pr = gathered (fun p => _try_synthesize_via_product fuel catalog sources
                              goal_type (fst p) (snd p) maxc) ps
    /\ all_return (fun p => _try_synthesize_via_product fuel catalog sources
                              goal_type (fst p) (snd p) maxc) ps.
Proof.
  induction ps as [|[n pt] ps IH]; intros pr H; simpl in H.
  - inversion H; subst. split; [reflexivity | constructor].
  - inv_bind H. inv_bind H. inversion H; subst pr; clear H.
    destruct (IH _ Ha0) as [-> Hall].
    split; [|constructor; [cbn [fst snd]; eauto | exact Hall]].
    unfold gathered. cbn [flat_map fst snd]. rewrite Ha. now destruct a.
Qed.

Lemma single_results_gathered (fuel : nat) (catalog : Catalog)
  (goal_type : string) (maxc : Q) :
  forall srcs si,
    single_results fuel catalog goal_type maxc srcs = Ok si ->
    si = gathered (single_path_attempt fuel catalog goal_type maxc) srcs
    /\ all_return (single_path_attempt fuel catalog goal_type maxc) srcs.
Proof.
  induction srcs as [|[i ty] srcs IH]; intros si H; simpl in H.
  - inversion H; subst. split; [reflexivity | constructor].
  - inv_bind H. inv_bind H. inversion H; subst si; clear H.
    destruct (IH _ Ha0) as [-> Hall].
    split.
    + unfold gathered, single_path_attempt. cbn [flat_map fst snd].
      rewrite Ha. now destruct a.
    + constructor; [|exact Hall].
      unfold single_path_attempt. cbn [fst snd]. rewrite Ha.
      destruct a; eauto.
Qed.

(** C1: for every catalog, source map, goal type and budget, whenever
    [synthesize_multiarg_full] returns it has gathered the candidates of
    the three strategies: one attempt per multi-argument function
    returning the goal type, one per product type of the catalog and one
    per source, every attempt returning and each list holding the DAGs
    of the attempts that succeed.  Its result is, when multi-argument
    plans are preferred, a cheapest candidate of the first non-empty
    strategy in the order A, B, C; otherwise a cheapest candidate
    overall; and [None] exactly when the three strategies are all empty.
    It does return when costs are not negative. *)
Theorem synthesize_multiarg_full_selection (catalog : Catalog)
  (sources : list (string * string)) (goal_type : string) (max_cost : Q)
  (prefer_multiarg : bool) (fuel : nat) :
  (forall r,
      synthesize_multiarg_full fuel catalog sources goal_type max_cost
        prefer_multiarg = Ok r ->
      exists ma pr si,
        ma = gathered (fun g => _try_synthesize_multiarg_func fuel catalog
                                  sources goal_type g max_cost)
                      (filter is_multiarg (funcs_returning catalog goal_type))
        /\ pr = gathered (fun p => _try_synthesize_via_product fuel catalog
                                     sources goal_type (fst p) (snd p)
                                     max_cost)
                         (product_types catalog)
        /\ si = gathered (single_path_attempt fuel catalog goal_type max_cost)
                         sources
        /\ all_return (fun g => _try_synthesize_multiarg_func fuel catalog
                                  sources goal_type g max_cost)
                      (filter is_multiarg (funcs_returning catalog goal_type))
        /\ all_return (fun p => _try_synthesize_via_product fuel catalog
                                  sources goal_type (fst p) (snd p) max_cost)
                      (product_types catalog)
        /\ all_return (single_path_attempt fuel catalog goal_type max_cost)
                      sources
        /\ (prefer_multiarg = true ->
            match ma, pr, si with
            | _ :: _, _, _ => exists d, r = Some d /\ cheapest d ma
            | [], _ :: _, _ => exists d, r = Some d /\ cheapest d pr
            | [], [], _ :: _ => exists d, r = Some d /\ cheapest d si
            | [], [], [] => r = None
            end)
        /\ (prefer_multiarg = false ->
            match ma ++ pr ++ si with
            | [] => r = None
            | _ :: _ => exists d, r = Some d /\ cheapest d (ma ++ pr ++ si)
            end)
        /\ (r = None <-> ma = [] /\ pr = [] /\ si = []))
  /\ (nonneg_costs catalog -> (search_fuel catalog <= fuel)%nat ->
      exists r,
        synthesize_multiarg_full fuel catalog sources goal_type max_cost
          prefer_multiarg = Ok r).
Proof.
  split.
  - intros r H. unfold synthesize_multiarg_full in H.
    inv_bind H. inv_bind H. inv_bind H. inversion H; subst r; clear H.
    destruct (multiarg_results_gathered _ _ _ _ _ _ _ Ha) as [Ema HA].
    destruct (product_results_gathered _ _ _ _ _ _ _ Ha0) as [Epr HB].
    destruct (single_results_gathered _ _ _ _ _ _ Ha1) as [Esi HC].
    exists a, a0, a1.
    split; [exact Ema|]. split; [exact Epr|]. split; [exact Esi|].
    split; [exact HA|]. split; [exact HB|]. split; [exact HC|].
    split; [intros ->; apply select_result_prefer|].
    split; [intros ->; apply select_result_global|].
    apply select_result_None.
  - intros Hn Hf.
    destruct (multiarg_results_total catalog fuel Hn Hf sources goal_type
                max_cost (funcs_returning catalog goal_type)) as [ma [Hma _]].
    destruct (product_results_total catalog fuel Hn Hf sources goal_type
                max_cost (product_types catalog)) as [pr [Hpr _]].
    destruct (single_results_total catalog fuel Hn Hf goal_type max_cost
                sources) as [si [Hsi _]].
    exists (select_result prefer_multiarg ma pr si).
    unfold synthesize_multiarg_full. now rewrite Hma, Hpr, Hsi.
Qed.

(** With the source [a : A], the function [f : A -> B] and the
    aggregator [agg : (A, B) -> G], the plan returned is the one of
    Strategy A: its goal node carries [agg], and its cost is 2. *)
Lemma synthesize_multiarg_full_selection_witness :
  exists d gn,
    synthesize_multiarg_full 10 pair_catalog [("a", "A")] "G" 100 true
    = Ok (Some d)
    /\ gathered (fun g => _try_synthesize_multiarg_func 10 pair_catalog
                            [("a", "A")] "G" g 100)
                (filter is_multiarg (funcs_returning pair_catalog "G"))
       = [d]
    /\ dict_get (nodes d) (goal_node d) = Some gn
    /\ n_func gn = Some (fn "agg" (Multi ["A"; "B"]) "G" 1 1)
    /\ (total_cost d == 2)%Q.
Proof.
  destruct (synthesize_multiarg_full_selection pair_catalog [("a", "A")] "G"
              100 true 10) as [Hsel Hret].
  destruct Hret as [r Hr]; [nonneg_by_computation | vm_compute; lia|].
  destruct (Hsel r Hr)
    as (ma & pr & si & Hma & _ & _ & _ & _ & _ & Hpre & _ & _).
  specialize (Hpre eq_refl).
  assert (Hone : exists d0, ma = [d0]).
  { rewrite Hma. eexists. vm_compute. reflexivity. }
  destruct Hone as [d0 Hd0]. rewrite Hd0 in Hpre.
  destruct Hpre as (d & Hd & [Hin|[]] & _). subst d.
  exists d0. eexists.
  split; [now rewrite Hr, Hd|]. split; [now rewrite <- Hma|].
  assert (Hval : Some d0
                 = hd_error
                     (gathered
                        (fun g => _try_synthesize_multiarg_func 10
                                    pair_catalog [("a", "A")] "G" g 100)
                        (filter is_multiarg
                                (funcs_returning pair_catalog "G"))))
    by (now rewrite <- Hma, Hd0).
  vm_compute in Hval. inversion Hval; subst d0.
  split; [reflexivity|]. split; reflexivity.
Defined.

(* ================================================================= *)
(** ** C2: how Strategy A supplies the arguments *)

(** C2: the code breaks the claim.  With the sources [facility1] and
    [facility2], both of type [Facility], and the aggregator of the two
    scopes, the search for the first argument starts from [facility1]
    and consumes nothing, so the search for the second argument starts
    from [facility1] again: both transform nodes of the plan read
    [facility1], and no node reads [facility2]. *)
Theorem search_supplies_two_arguments_from_one_source :
  exists d gn t1 t2,
    synthesize_multiarg_full 10 scope_catalog
      [("facility1", "Facility"); ("facility2", "Facility")]
      "TotalGHGEmissions" 100 true = Ok (Some d)
    /\ dict_get (nodes d) (goal_node d) = Some gn
    /\ n_inputs gn = [transform_id "Scope1Emissions" 0;
                      transform_id "Scope2Emissions" 1]
    /\ dict_get (nodes d) (transform_id "Scope1Emissions" 0) = Some t1
    /\ dict_get (nodes d) (transform_id "Scope2Emissions" 1) = Some t2
    /\ n_inputs t1 = ["facility1"]
    /\ n_inputs t2 = ["facility1"]
    /\ Forall (fun kv => ~ In "facility2" (n_inputs (snd kv))) (nodes d).
Proof.
  do 4 eexists. split; [vm_compute; reflexivity|].
  split; [reflexivity|]. split; [reflexivity|].
  split; [reflexivity|]. split; [reflexivity|].
  split; [reflexivity|]. split; [reflexivity|].
  cbn [nodes]. repeat constructor; cbn; intuition discriminate.
Qed.

(* ================================================================= *)
(** ** C4: cost and confidence, as the floats are accumulated *)

Lemma select_result_In (b : bool) (ma pr si : list SynthesisDAG)
  (d : SynthesisDAG) :
  select_result b ma pr si = Some d -> In d (ma ++ pr ++ si).
Proof.
  destruct b; intros H.
  - pose proof (select_result_prefer ma pr si) as P.
    destruct ma as [|a ma]; [destruct pr as [|b pr]; [destruct si as [|c si]|]|].
    + congruence.
    + destruct P as [d' [E [Hin _]]]. rewrite H in E. inversion E; subst.
      exact Hin.
    + destruct P as [d' [E [Hin _]]]. rewrite H in E. inversion E; subst.
      apply in_or_app. right. apply in_or_app. now left.
    + destruct P as [d' [E [Hin _]]]. rewrite H in E. inversion E; subst.
      apply in_or_app. now left.
  - pose proof (select_result_global ma pr si) as P.
    destruct (ma ++ pr ++ si); [congruence|].
    destruct P as [d' [E [Hin _]]]. rewrite H in E. now inversion E; subst.
Qed.

Section Binary64Facts.
Import Binary64.

Lemma b64_insert_sorted_perm {A : Type} (key : A -> float) (x : A)
  (l : list A) :
  Permutation (l ++ [x]) (insert_sorted key x l).
Proof.
  induction l as [|y l IH]; simpl; [reflexivity|].
  destruct (key x <? key y)%float.
  - change (y :: l ++ [x]) with ((y :: l) ++ [x]).
    symmetry. apply Permutation_cons_append.
  - now apply perm_skip.
Qed.

Lemma b64_sorted_perm {A : Type} (key : A -> float) (l : list A) :
  Permutation l (sorted key l).
Proof.
  induction l as [|x l IH] using rev_ind; [reflexivity|].
  unfold sorted. rewrite fold_left_app. cbn [fold_left].
  fold (sorted key l). rewrite <- b64_insert_sorted_perm.
  now apply Permutation_app_tail.
Qed.

Lemma b64_heappop_perm (pq : list Entry) (e : Entry) (pq' : list Entry) :
  heappop pq = Some (e, pq') -> Permutation pq (e :: pq').
Proof.
  revert e pq'. induction pq as [|e0 rest IH]; intros e pq' H; [discriminate|].
  simpl in H. destruct (heappop rest) as [[m r]|] eqn:Hr.
  - pose proof (IH m r eq_refl) as P.
    destruct (entry_ltb m e0); inversion H; subst; clear H.
    + rewrite P. apply perm_swap.
    + reflexivity.
  - destruct rest as [|e1 rest]; [inversion H; subst; reflexivity|].
    simpl in Hr. destruct (heappop rest) as [[m r]|];
      [destruct (entry_ltb m e1)|]; discriminate.
Qed.

Lemma b64_expand_spec (fs : list Func) (c : float) (path : list Func)
  (conf maxc : float) :
  forall counter pq counter' pq',
    expand fs c path conf maxc counter pq = (counter', pq') ->
    forall e, In e pq' ->
      In e pq
      \/ exists f t n,
           In f fs /\ f_dom f = Single t
           /\ e = mkEntry (c + f_cost f) n t (f :: path) (conf * f_conf f).
Proof.
  induction fs as [|f fs IH]; intros counter pq counter' pq' H; simpl in H.
  - inversion H; subst. auto.
  - destruct (f_dom f) as [t|ts] eqn:Hd.
    + destruct (maxc <? c + f_cost f)%float.
      * intros e He.
        destruct (IH _ _ _ _ H e He) as [?|(f' & t' & n & Hf & ?)];
          [now left|].
        right. exists f', t', n. split; [now right | assumption].
      * unfold heappush in H. intros e He.
        destruct (IH _ _ _ _ H e He) as [[<-|?]|(f' & t' & n & Hf & ?)].
        -- right. exists f, t, (S counter). repeat split; auto. now left.
        -- now left.
        -- right. exists f', t', n. split; [now right | assumption].
    + intros e He.
      destruct (IH _ _ _ _ H e He) as [?|(f' & t' & n & Hf & ?)]; [now left|].
      right. exists f', t', n. split; [now right | assumption].
Qed.

Lemma b64_search_loop_invariant (catalog : Catalog) (src : string)
  (maxc : float) (maxr : Z) (P : Entry -> Prop)
  (R : SynthesisResult -> Prop) :
  (forall e f t n,
      P e -> In f (funcs_returning catalog (e_type e)) ->
      f_dom f = Single t ->
      P (mkEntry (e_cost e + f_cost f) n t (f :: e_path e)
                 (e_conf e * f_conf f))) ->
  (forall e pr,
      P e -> e_type e = src ->
      R (mkSynthesisResult (e_cost e) (e_conf e) (e_path e) pr)) ->
  forall fuel counter pq visited results rs,
    Forall P pq -> Forall R results ->
    search_loop fuel catalog src maxc maxr counter pq visited results = Ok rs ->
    Forall R rs.
Proof.
  intros Hstep Hres.
  induction fuel as [|fuel IH]; intros counter pq visited results rs HP HR H;
    [discriminate|].
  simpl in H.
  destruct (negb (Z.of_nat (List.length results) <? maxr)%Z);
    [inversion H; subst; exact HR|].
  destruct (heappop pq) as [[e pq']|] eqn:Hp; [|inversion H; subst; exact HR].
  pose proof (b64_heappop_perm _ _ _ Hp) as Pm.
  assert (HP' : Forall P (e :: pq')) by (eapply Permutation_Forall; eauto).
  inversion HP' as [|? ? He Hpq']; subst.
  destruct (String.eqb (e_type e) src) eqn:Es.
  - apply String.eqb_eq in Es. inv_bind H.
    eapply IH; [exact Hpq'| |exact H].
    apply Forall_app; split; [exact HR|]. constructor; [|constructor].
    now apply Hres.
  - destruct (pruned visited (e_type e) (e_cost e)).
    + eapply IH; [exact Hpq'|exact HR|exact H].
    + destruct (expand (funcs_returning catalog (e_type e)) (e_cost e)
                       (e_path e) (e_conf e) maxc counter pq')
        as [counter' pq''] eqn:Hx.
      eapply IH; [|exact HR|exact H].
      apply Forall_forall. intros x Hxin.
      destruct (b64_expand_spec _ _ _ _ _ _ _ _ _ Hx x Hxin)
        as [Hold|(f & t & n & Hf & Hd & ->)].
      * rewrite Forall_forall in Hpq'. now apply Hpq'.
      * now apply Hstep.
Qed.

(** What the search records is what the queue entry accumulated. *)
Lemma b64_synthesize_backward_accumulated (catalog : Catalog)
  (src goal : string) (maxc : float) (maxr : Z) (fuel : nat)
  (rs : list SynthesisResult) :
  synthesize_backward fuel catalog src goal maxc maxr = Ok rs ->
  Forall accumulated rs.
Proof.
  intros H. unfold synthesize_backward in H. inv_bind H.
  inversion H; subst rs; clear H.
  eapply Permutation_Forall; [apply b64_sorted_perm|].
  unfold discovered in Ha.
  eapply (b64_search_loop_invariant catalog src maxc maxr
            (fun e => e_cost e = goal_side_cost (e_path e)
                      /\ e_conf e = goal_side_confidence (e_path e)));
    [| | | |exact Ha].
  - intros e f t n [Hc Hk] _ _. cbn [e_cost e_path e_conf].
    unfold goal_side_cost, goal_side_confidence. cbn [fold_right].
    fold (goal_side_cost (e_path e)). fold (goal_side_confidence (e_path e)).
    now rewrite <- Hc, <- Hk.
  - intros e pr He _. exact He.
  - constructor; [|constructor]. cbn. split; reflexivity.
  - constructor.
Qed.

Lemma b64_find_by_search_accumulated (fuel : nat) (catalog : Catalog)
  (sources : list (string * string)) (T : string) (budget : float) s r :
  find_by_search fuel catalog sources T budget = Ok (Some (s, r)) ->
  accumulated r.
Proof.
  induction sources as [|[i ty] rest IH]; simpl; [discriminate|].
  intros H. inv_bind H. destruct a as [|r0 rs]; [now apply IH|].
  inversion H; subst.
  apply b64_synthesize_backward_accumulated in Ha.
  now inversion Ha.
Qed.

Lemma b64_resolve_args_spec (fuel : nat) (catalog : Catalog)
  (sources : list (string * string)) (remaining : float)
  (required : list string) :
  forall st st',
    resolve_args fuel catalog sources required remaining st = Ok (Some st') ->
    exists new supplied,
      arg_results st' = arg_results st ++ new
      /\ as_total_cost st'
         = fold_left add_supplied_cost supplied (as_total_cost st)
      /\ as_total_confidence st'
         = fold_left add_supplied_confidence supplied (as_total_confidence st)
      /\ Forall2 (fun a o => match o with
                             | None => sr_path (snd a) = []
                             | Some p => sr_path (snd a) = p
                             end) new supplied.
Proof.
  induction required as [|T rest IH]; intros st st' H; simpl in H.
  - inversion H; subst. exists [], []. rewrite app_nil_r.
    repeat split. constructor.
  - destruct (find_direct sources T (used_sources st)) as [s|].
    + destruct (IH _ _ H) as (new & sup & Ha & Hc & Hk & Hf).
      cbn [arg_results as_total_cost as_total_confidence] in *.
      exists ((s, identity_result T) :: new), (None :: sup).
      split; [now rewrite Ha, <- app_assoc|].
      split; [exact Hc|]. split; [exact Hk|].
      constructor; [reflexivity | exact Hf].
    + inv_bind H. destruct a as [[s r]|]; [|discriminate].
      destruct (b64_find_by_search_accumulated _ _ _ _ _ _ _ Ha) as [Ec Ek].
      destruct (IH _ _ H) as (new & sup & Hr & Hc & Hk & Hf).
      cbn [arg_results as_total_cost as_total_confidence] in *.
      exists ((s, r) :: new), (Some (sr_path r) :: sup).
      split; [now rewrite Hr, <- app_assoc|].
      split; [cbn [fold_left add_supplied_cost]; now rewrite <- Ec|].
      split; [cbn [fold_left add_supplied_confidence]; now rewrite <- Ek|].
      constructor; [reflexivity | exact Hf].
Qed.

Lemma b64_resolve_components_spec (fuel : nat) (catalog : Catalog)
  (sources : list (string * string)) (remaining : float)
  (components : list string) :
  forall st st',
    resolve_components fuel catalog sources components remaining st
    = Ok (Some st') ->
    exists new supplied,
      component_results st' = component_results st ++ new
      /\ cs_total_cost st'
         = fold_left add_supplied_cost supplied (cs_total_cost st)
      /\ cs_total_confidence st'
         = fold_left add_supplied_confidence supplied (cs_total_confidence st)
      /\ Forall2 (fun a o => match o with
                             | None => sr_path (snd a) = []
                             | Some p => sr_path (snd a) = p
                             end) new supplied.
Proof.
  induction components as [|T rest IH]; intros st st' H; simpl in H.
  - inversion H; subst. exists [], []. rewrite app_nil_r.
    repeat split. constructor.
  - destruct (find_direct_component sources T) as [s|].
    + destruct (IH _ _ H) as (new & sup & Ha & Hc & Hk & Hf).
      cbn [component_results cs_total_cost cs_total_confidence] in *.
      exists ((s, T, identity_result T) :: new), (None :: sup).
      split; [now rewrite Ha, <- app_assoc|].
      split; [exact Hc|]. split; [exact Hk|].
      constructor; [reflexivity | exact Hf].
    + inv_bind H. destruct a as [[s r]|]; [|discriminate].
      destruct (b64_find_by_search_accumulated _ _ _ _ _ _ _ Ha) as [Ec Ek].
      destruct (IH _ _ H) as (new & sup & Hr & Hc & Hk & Hf).
      cbn [component_results cs_total_cost cs_total_confidence] in *.
      exists ((s, T, r) :: new), (Some (sr_path r) :: sup).
      split; [now rewrite Hr, <- app_assoc|].
      split; [cbn [fold_left add_supplied_cost]; now rewrite <- Ec|].
      split; [cbn [fold_left add_supplied_confidence]; now rewrite <- Ek|].
      constructor; [reflexivity | exact Hf].
Qed.

Lemma b64_add_source_nodes_paths (sources : list (string * string)) :
  forall k n, dict_get (add_source_nodes sources) k = Some n -> n_path n = [].
Proof.
  unfold add_source_nodes.
  assert (G : forall acc : list (string * DAGNode),
             (forall k n, dict_get acc k = Some n -> n_path n = []) ->
             forall k n,
               dict_get (fold_left
                           (fun nodes '(src_id, src_type) =>
                              dict_set nodes src_id
                                       (source_node src_id src_type))
                           sources acc) k = Some n ->
               n_path n = []).
  { induction sources as [|[i ty] rest IH]; intros acc Hacc k n; simpl;
      [apply Hacc|].
    apply IH. intros k' n' Hg.
    destruct (String.eqb i k') eqn:E.
    - apply String.eqb_eq in E. subst k'. rewrite dict_get_set_same in Hg.
      now inversion Hg.
    - rewrite dict_get_set_other in Hg;
        [eapply Hacc; eauto|].
      intros ->. rewrite String.eqb_refl in E. discriminate. }
  apply G. intros k n H. discriminate.
Qed.

Lemma b64_share_of_same (nodes nodes' : list (string * DAGNode)) (k : nat)
  (o : option (list Func)) (i : string) :
  (forall T, dict_get nodes' (transform_id T k)
             = dict_get nodes (transform_id T k)) ->
  share_of nodes k o i -> share_of nodes' k o i.
Proof.
  intros Hsame H.
  assert (Hr : forall p, reads_a_path nodes' k i p <-> reads_a_path nodes k i p).
  { intros p. split; intros (T & n & -> & Hg & Hp); exists T, n;
      (split; [reflexivity|]); (split; [|exact Hp]).
    - now rewrite <- Hsame.
    - now rewrite Hsame. }
  unfold share_of in *. destruct o as [[|f p]|].
  - intros f p Hn. apply (H f p). now apply Hr.
  - now apply Hr.
  - intros f p Hn. apply (H f p). now apply Hr.
Qed.

Lemma b64_shares_of_same (nodes nodes' : list (string * DAGNode)) :
  forall supplied inputs k,
    (forall T j, (k <= j)%nat ->
                 dict_get nodes' (transform_id T j)
                 = dict_get nodes (transform_id T j)) ->
    shares_of nodes k supplied inputs -> shares_of nodes' k supplied inputs.
Proof.
  induction supplied as [|o sup IH]; intros [|i ins] k Hsame H; simpl in *;
    try exact H.
  destruct H as [H1 H2]. split.
  - eapply b64_share_of_same; [|exact H1]. intros T. now apply Hsame.
  - apply IH; [|exact H2]. intros T j Hj. apply Hsame. lia.
Qed.

(** One round of a construction loop adds one input and touches no node
    but the transform node of its own position, which it writes when the
    result has a path. *)
Lemma b64_build_step_spec (T : string) (i : nat) (s : string)
  (r : SynthesisResult) (st : BuildState) (o : option (list Func)) :
  unwritten_from i (bs_nodes st) ->
  match o with
  | None => sr_path r = []
  | Some p => sr_path r = p
  end ->
  exists k,
    bs_inputs (build_step T i s r st) = bs_inputs st ++ [k]
    /\ share_of (bs_nodes (build_step T i s r st)) i o k
    /\ unwritten_from (S i) (bs_nodes (build_step T i s r st))
    /\ forall k', k' <> transform_id T i ->
                  dict_get (bs_nodes (build_step T i s r st)) k'
                  = dict_get (bs_nodes st) k'.
Proof.
  intros Hu Ho. unfold build_step.
  destruct (sr_path r) as [|f path] eqn:E; cbn [bs_inputs bs_nodes].
  - exists s. split; [reflexivity|]. split; [|split].
    + assert (Hno : forall f p, ~ reads_a_path (bs_nodes st) i s (f :: p)).
      { intros f p (T' & n & -> & Hg & Hp).
        rewrite (Hu T' i n (le_n i) Hg) in Hp. discriminate. }
      destruct o as [[|f p]|]; [exact Hno | discriminate | exact Hno].
    + intros T' j n Hj. apply Hu. lia.
    + reflexivity.
  - exists (transform_id T i). split; [reflexivity|]. split; [|split].
    + destruct o as [p|]; [|discriminate]. subst p. cbn [share_of].
      exists T. eexists. split; [reflexivity|].
      rewrite dict_get_set_same. split; reflexivity.
    + intros T' j n Hj Hg. rewrite dict_get_set_other in Hg.
      * eapply Hu; [|exact Hg]. lia.
      * intros Heq. apply transform_id_inj in Heq. lia.
    + intros k' Hk. apply dict_get_set_other. congruence.
Qed.

Lemma b64_build_arg_nodes_spec (goal_func : Func)
  (args : list (string * SynthesisResult)) :
  forall supplied i st st',
    Forall2 (fun a o => match o with
                        | None => sr_path (snd a) = []
                        | Some p => sr_path (snd a) = p
                        end) args supplied ->
    unwritten_from i (bs_nodes st) ->
    build_arg_nodes goal_func i args st = Ok st' ->
    exists ins,
      bs_inputs st' = bs_inputs st ++ ins
      /\ shares_of (bs_nodes st') i supplied ins
      /\ forall k, (forall T j, (i <= j)%nat -> k <> transform_id T j) ->
                   dict_get (bs_nodes st') k = dict_get (bs_nodes st) k.
Proof.
  induction args as [|[s r] args IH]; intros supplied i st st' Hf Hu H;
    simpl in H.
  - inversion H; subst. inversion Hf; subst. exists []. rewrite app_nil_r.
    split; [reflexivity|]. split; [exact I | reflexivity].
  - destruct (nth_error (dom_types goal_func) i) as [T|]; [|discriminate].
    inversion Hf as [|? o ? sup Ho Hf']; subst. cbn [snd] in Ho.
    destruct (b64_build_step_spec T i s r st o Hu Ho)
      as (k & Hi & Hs & Hu' & Hfr).
    destruct (IH _ _ _ _ Hf' Hu' H) as (ins & Hi' & Hsh & Hfr').
    exists (k :: ins). split; [now rewrite Hi', Hi, <- app_assoc|]. split.
    + cbn [shares_of]. split; [|exact Hsh].
      eapply b64_share_of_same; [|exact Hs].
      intros T'. apply Hfr'. intros T'' j Hj Heq.
      apply transform_id_inj in Heq. lia.
    + intros k' Hk. rewrite Hfr' by (intros T' j Hj; apply Hk; lia).
      apply Hfr. apply Hk. lia.
Qed.

Lemma b64_build_component_nodes_spec
  (comps : list (string * string * SynthesisResult)) :
  forall supplied i st,
    Forall2 (fun a o => match o with
                        | None => sr_path (snd a) = []
                        | Some p => sr_path (snd a) = p
                        end) comps supplied ->
    unwritten_from i (bs_nodes st) ->
    exists ins,
      bs_inputs (build_component_nodes i comps st) = bs_inputs st ++ ins
      /\ shares_of (bs_nodes (build_component_nodes i comps st)) i supplied
                   ins
      /\ forall k, (forall T j, (i <= j)%nat -> k <> transform_id T j) ->
                   dict_get (bs_nodes (build_component_nodes i comps st)) k
                   = dict_get (bs_nodes st) k.
Proof.
  induction comps as [|[[s c] r] comps IH]; intros supplied i st Hf Hu; simpl.
  - inversion Hf; subst. exists []. rewrite app_nil_r.
    split; [reflexivity|]. split; [exact I | reflexivity].
  - inversion Hf as [|? o ? sup Ho Hf']; subst. cbn [snd] in Ho.
    destruct (b64_build_step_spec c i s r st o Hu Ho)
      as (k & Hi & Hs & Hu' & Hfr).
    destruct (IH _ (S i) (build_step c i s r st) Hf' Hu')
      as (ins & Hi' & Hsh & Hfr').
    exists (k :: ins). split; [now rewrite Hi', Hi, <- app_assoc|]. split.
    + cbn [shares_of]. split; [|exact Hsh].
      eapply b64_share_of_same; [|exact Hs].
      intros T'. apply Hfr'. intros T'' j Hj Heq.
      apply transform_id_inj in Heq. lia.
    + intros k' Hk. rewrite Hfr' by (intros T' j Hj; apply Hk; lia).
      apply Hfr. apply Hk. lia.
Qed.

Lemma b64_unwritten_sources (sources : list (string * string)) (i : nat) :
  unwritten_from i (add_source_nodes sources).
Proof.
  intros T j n _ Hg. eapply b64_add_source_nodes_paths; eauto.
Qed.

Lemma b64_own_of_path (id ty tn : string) (fo : option Func)
  (ins : list string) (p : list Func) :
  (p = [] -> fo = None) ->
  own_cost (mkDAGNode id ty tn fo ins p VNone) = goal_side_cost p
  /\ own_confidence (mkDAGNode id ty tn fo ins p VNone)
     = goal_side_confidence p.
Proof.
  intros H. unfold own_cost, own_confidence. cbn [n_path n_func].
  destruct p as [|f p]; [rewrite (H eq_refl)|]; split; reflexivity.
Qed.

Lemma b64_strategy_A (catalog : Catalog) (fuel : nat)
  (sources : list (string * string)) (goal_type : string) (g : Func)
  (maxc : float) (d : SynthesisDAG) :
  _try_synthesize_multiarg_func fuel catalog sources goal_type g maxc
  = Ok (Some d) ->
  dag_accumulated d.
Proof.
  intros H. unfold _try_synthesize_multiarg_func in H. inv_bind H.
  destruct a as [st|]; [|discriminate]. inv_bind H.
  inversion H; subst d; clear H.
  destruct (b64_resolve_args_spec _ _ _ _ _ _ _ Ha)
    as (new & sup & Hn & Hc & Hk & Hf).
  cbn [arg_results as_total_cost as_total_confidence app] in Hn, Hc, Hk.
  unfold _build_dag_from_multiarg in Ha0. inv_bind Ha0. inv_bind Ha0.
  inversion Ha0; subst a; clear Ha0.
  rewrite <- Hn in Hf.
  destruct (b64_build_arg_nodes_spec g (arg_results st) sup 0
              (mkBuildState (add_source_nodes sources) [] []) a0 Hf
              (b64_unwritten_sources sources 0) Ha1) as (ins & Hi & Hsh & _).
  cbn [bs_inputs app] in Hi.
  unfold dag_accumulated. cbn [nodes goal_node total_cost total_confidence].
  rewrite dict_get_set_same. eexists. exists sup.
  split; [reflexivity|].
  split; [exact Hc|]. split; [exact Hk|].
  cbn [n_inputs]. rewrite Hi.
  eapply b64_shares_of_same; [|exact Hsh].
  intros T j _. apply dict_get_set_other. apply goal_is_not_a_transform.
Qed.

Lemma b64_strategy_B (catalog : Catalog) (fuel : nat)
  (sources : list (string * string)) (goal_type pname : string)
  (pt : ProductType) (maxc : float) (d : SynthesisDAG) :
  _try_synthesize_via_product fuel catalog sources goal_type pname pt maxc
  = Ok (Some d) ->
  dag_accumulated d.
Proof.
  intros H. unfold _try_synthesize_via_product in H. inv_bind H.
  destruct a as [|agg rs]; [discriminate|].
  apply b64_synthesize_backward_accumulated in Ha.
  inversion Ha as [|? ? [Ec Ek] _]; subst. inv_bind H.
  destruct a as [st|]; [|discriminate]. inv_bind H.
  inversion H; subst d; clear H.
  destruct (b64_resolve_components_spec _ _ _ _ _ _ _ Ha0)
    as (new & sup & Hn & Hc & Hk & Hf).
  cbn [component_results cs_total_cost cs_total_confidence app] in Hn, Hc, Hk.
  unfold _build_dag_from_product in Ha1. inv_bind Ha1.
  inversion Ha1; subst a; clear Ha1.
  rewrite <- Hn in Hf.
  destruct (b64_build_component_nodes_spec (component_results st) sup 0
              (mkBuildState (add_source_nodes sources) [] []) Hf
              (b64_unwritten_sources sources 0))
    as (ins & Hi & Hsh & _).
  cbn [bs_inputs app] in Hi.
  unfold dag_accumulated. cbn [nodes goal_node total_cost total_confidence].
  rewrite dict_get_set_same. eexists. exists sup.
  split; [reflexivity|].
  destruct (b64_own_of_path "aggregate" "aggregate" goal_type
              (first_func (sr_path agg))
              (bs_inputs
                 (build_component_nodes 0 (component_results st)
                    (mkBuildState (add_source_nodes sources) [] [])))
              (sr_path agg)) as [Oc Ok'];
    [intros ->; reflexivity|].
  split; [now rewrite Oc, <- Ec|]. split; [now rewrite Ok', <- Ek|].
  cbn [n_inputs]. rewrite Hi.
  eapply b64_shares_of_same; [|exact Hsh].
  intros T j _. apply dict_get_set_other. apply aggregate_is_not_a_transform.
Qed.

Lemma b64_strategy_C (src_id src_type goal_type : string)
  (r : SynthesisResult) :
  accumulated r ->
  dag_accumulated (_single_path_to_dag src_id src_type goal_type r).
Proof.
  intros [Ec Ek]. unfold dag_accumulated, _single_path_to_dag.
  cbn [nodes goal_node total_cost total_confidence].
  rewrite dict_get_set_same. eexists. exists [None].
  split; [reflexivity|].
  destruct (b64_own_of_path "goal" "goal" goal_type
              (last_func (sr_path r)) [src_id] (sr_path r)) as [Oc Ok'];
    [intros ->; reflexivity|].
  cbn [fold_left add_supplied_cost add_supplied_confidence].
  split; [now rewrite Oc|]. split; [now rewrite Ok'|].
  cbn [n_inputs shares_of share_of]. split; [|exact I].
  intros f p (T & n & -> & Hg & Hp).
  rewrite dict_get_set_other in Hg by apply goal_is_not_a_transform.
  rewrite dict_get_set_same in Hg. inversion Hg; subst n. discriminate.
Qed.

Lemma b64_select_result_In (b : bool) (ma pr si : list SynthesisDAG)
  (d : SynthesisDAG) :
  select_result b ma pr si = Some d -> In d (ma ++ pr ++ si).
Proof.
  unfold select_result. intros H.
  assert (Hin : In d (if b
                      then sorted total_cost ma ++ sorted total_cost pr
                           ++ sorted total_cost si
                      else sorted total_cost (ma ++ pr ++ si))).
  { destruct (if b
              then sorted total_cost ma ++ sorted total_cost pr
                   ++ sorted total_cost si
              else sorted total_cost (ma ++ pr ++ si)) as [|x l];
      [discriminate|]. inversion H; subst. now left. }
  destruct b.
  - apply in_app_or in Hin. destruct Hin as [Hin|Hin].
    + apply in_or_app. left.
      eapply Permutation_in; [symmetry; apply b64_sorted_perm | exact Hin].
    + apply in_app_or in Hin. apply in_or_app. right. apply in_or_app.
      destruct Hin as [Hin|Hin]; [left|right];
        (eapply Permutation_in; [symmetry; apply b64_sorted_perm | exact Hin]).
  - eapply Permutation_in; [symmetry; apply b64_sorted_perm | exact Hin].
Qed.

Lemma b64_planned_dags_accumulated (catalog : Catalog)
  (sources : list (string * string)) (goal_type : string) (maxc : float)
  (prefer_multiarg : bool) (fuel : nat) (d : SynthesisDAG) :
  synthesize_multiarg_full fuel catalog sources goal_type maxc
    prefer_multiarg = Ok (Some d) ->
  dag_accumulated d.
Proof.
  intros H. unfold synthesize_multiarg_full in H.
  inv_bind H. inv_bind H. inv_bind H. inversion H as [Hsel]; clear H.
  apply b64_select_result_In in Hsel.
  assert (HA : forall gs l,
             multiarg_results fuel catalog sources goal_type maxc gs = Ok l ->
             Forall dag_accumulated l).
  { induction gs as [|g gs IH]; intros l H; simpl in H.
    - inversion H; subst. constructor.
    - destruct (is_multiarg g); [|now apply IH].
      inv_bind H. inv_bind H. inversion H; subst l; clear H.
      destruct a2 as [d0|]; [constructor|]; try now apply IH.
      eapply b64_strategy_A; eauto. }
  assert (HB : forall ps l,
             product_results fuel catalog sources goal_type maxc ps = Ok l ->
             Forall dag_accumulated l).
  { induction ps as [|[n pt] ps IH]; intros l H; simpl in H.
    - inversion H; subst. constructor.
    - inv_bind H. inv_bind H. inversion H; subst l; clear H.
      destruct a2 as [d0|]; [constructor|]; try now apply IH.
      eapply b64_strategy_B; eauto. }
  assert (HC : forall srcs l,
             single_results fuel catalog goal_type maxc srcs = Ok l ->
             Forall dag_accumulated l).
  { induction srcs as [|[i ty] srcs IH]; intros l H; simpl in H.
    - inversion H; subst. constructor.
    - inv_bind H. inv_bind H. inversion H; subst l; clear H.
      destruct a2 as [|r rs]; [now apply IH|].
      constructor; [|now apply IH]. apply b64_strategy_C.
      apply b64_synthesize_backward_accumulated in Ha2.
      now inversion Ha2. }
  assert (Hall : Forall dag_accumulated (a ++ a0 ++ a1)).
  { repeat (apply Forall_app; split); eauto. }
  rewrite Forall_forall in Hall. now apply Hall.
Qed.

(** C4, as stated, fails twice.  On three functions in a row of costs
    0.3, 0.2, 0.1 and confidences 0.1, 0.2, 0.3 the search records the
    cost 0.6000000000000001 and the confidence 0.006 for the one path it
    finds, whose costs sum to 0.6 and whose confidences multiply to
    0.006000000000000001: the search adds and multiplies from the goal
    end of the path.  And the DAG of Strategy A counts the aggregator,
    which is in the [func] field of the goal node and in no path: its
    total cost is 2 where the paths of its nodes cost 1. *)
Lemma recorded_cost_is_not_the_sum_over_the_path :
  (exists r,
      synthesize_backward 10 tenths_catalog "A" "D" 100 10 = Ok [r]
      /\ map f_id (sr_path r) = ["f1"; "f2"; "f3"]
      /\ sr_cost r = 0.6000000000000001%float
      /\ compute_cost (sr_path r) = 0.6%float
      /\ sr_cost r <> compute_cost (sr_path r)
      /\ sr_confidence r = 0.006%float
      /\ compute_confidence (sr_path r) = 0.006000000000000001%float
      /\ sr_confidence r <> compute_confidence (sr_path r))
  /\ (exists d,
        synthesize_multiarg_full 10 pair_catalog64 [("a", "A")] "G" 100 true
        = Ok (Some d)
        /\ total_cost d = 2%float
        /\ paths_cost64 (nodes d) = 1%float
        /\ total_cost d <> paths_cost64 (nodes d)).
Proof.
  split.
  - eexists. split; [vm_compute; reflexivity|].
    split; [reflexivity|]. split; [reflexivity|]. split; [reflexivity|].
    split; [vm_compute; discriminate|].
    split; [reflexivity|]. split; [reflexivity|].
    vm_compute. discriminate.
  - eexists. split; [vm_compute; reflexivity|].
    split; [reflexivity|]. split; [reflexivity|].
    vm_compute. discriminate.
Qed.

(** C4, amended: the cost and the confidence of every result of
    [synthesize_backward] are the float sum of [f.cost] and the float
    product of [f.conf] over its path, accumulated from the goal end of
    the path; and the total cost and confidence of every DAG
    [synthesize_multiarg_full] returns are accumulated, in argument
    order, from the share of the goal node (the function it carries
    without a path, or else its path) and, for each argument the goal
    node reads from the transform node of its position, the path of that
    node; an argument read from a source adds nothing or the cost 0 of
    an empty path. *)
Theorem cost_and_confidence_accumulation (catalog : Catalog)
  (src goal : string) (sources : list (string * string))
  (goal_type : string) (max_cost : float) (max_results : Z)
  (prefer_multiarg : bool) (fuel : nat) :
  (forall rs,
      synthesize_backward fuel catalog src goal max_cost max_results = Ok rs ->
      Forall (fun r => sr_cost r = goal_side_cost (sr_path r)
                       /\ sr_confidence r = goal_side_confidence (sr_path r))
             rs)
  /\ (forall d,
        synthesize_multiarg_full fuel catalog sources goal_type max_cost
          prefer_multiarg = Ok (Some d) ->
        dag_accumulated d).
Proof.
  split.
  - intros rs H. exact (b64_synthesize_backward_accumulated _ _ _ _ _ _ _ H).
  - intros d H. exact (b64_planned_dags_accumulated _ _ _ _ _ _ _ H).
Qed.

(** On the three functions in a row the recorded cost is
    ((0 + 0.1) + 0.2) + 0.3, and the DAG of the pair catalog costs the
    aggregator's 1 plus the 1 of the path that supplies its second
    argument. *)
Lemma cost_and_confidence_accumulation_witness :
  (exists r,
      synthesize_backward 10 tenths_catalog "A" "D" 100 10 = Ok [r]
      /\ sr_cost r = (0 + 0.1 + 0.2 + 0.3)%float
      /\ sr_confidence r = (1 * 0.3 * 0.2 * 0.1)%float)
  /\ (exists d,
        synthesize_multiarg_full 10 pair_catalog64 [("a", "A")] "G" 100 true
        = Ok (Some d)
        /\ dag_accumulated d
        /\ total_cost d = (1 + (0 + 1))%float).
Proof.
  destruct (cost_and_confidence_accumulation tenths_catalog "A" "D"
              [("a", "A")] "G" 100 10 true 10) as [Hres _].
  destruct (cost_and_confidence_accumulation pair_catalog64 "A" "D"
              [("a", "A")] "G" 100 10 true 10) as [_ Hdag].
  split.
  - assert (Hone : exists r,
               synthesize_backward 10 tenths_catalog "A" "D" 100 10 = Ok [r])
      by (eexists; vm_compute; reflexivity).
    destruct Hone as [r Hr]. exists r. split; [exact Hr|].
    specialize (Hres _ Hr). inversion Hres as [|? ? [Hc Hk] _]; subst.
    assert (Hp : Ok [r] = synthesize_backward 10 tenths_catalog "A" "D" 100 10)
      by now rewrite Hr.
    vm_compute in Hp. inversion Hp; subst r. split; reflexivity.
  - assert (Hone : exists d,
               synthesize_multiarg_full 10 pair_catalog64 [("a", "A")] "G"
                 100 true = Ok (Some d))
      by (eexists; vm_compute; reflexivity).
    destruct Hone as [d Hd]. exists d. split; [exact Hd|].
    split; [exact (Hdag _ Hd)|].
    assert (Hp : Ok (Some d)
                 = synthesize_multiarg_full 10 pair_catalog64 [("a", "A")]
                     "G" 100 true) by now rewrite Hd.
    vm_compute in Hp. inversion Hp; subst d. reflexivity.
Defined.
End Binary64Facts.

(* ================================================================= *)
(** ** C7: absence of a plan is a value *)

(** Neither function has a path to an exception. *)
Lemma bind_never_raises {A B : Type} (m : outcome A) (k : A -> outcome B) :
  never_raises m -> (forall a, m = Ok a -> never_raises (k a)) ->
  never_raises (bind m k).
Proof.
  intros Hm Hk e. destruct m as [a|e'|]; cbn [bind];
    [now apply Hk | exfalso; now apply (Hm e') | discriminate].
Qed.

Lemma search_loop_never_raises (catalog : Catalog) (src : string) (maxc : Q)
  (maxr : Z) :
  forall fuel counter pq visited results,
    never_raises
      (search_loop fuel catalog src maxc maxr counter pq visited results).
Proof.
  induction fuel as [|fuel IH]; intros counter pq visited results e;
    [discriminate|].
  simpl. destruct (negb (Z.of_nat (List.length results) <? maxr)%Z);
    [discriminate|].
  destruct (heappop pq) as [[x pq']|]; [|discriminate].
  destruct (String.eqb (e_type x) src).
  - destruct (result_proof_Ok src (e_path x)) as [pr ->]. cbn [bind].
    apply IH.
  - destruct (pruned visited (e_type x) (e_cost x)); [apply IH|].
    destruct (expand (funcs_returning catalog (e_type x)) (e_cost x)
                     (e_path x) (e_conf x) maxc counter pq')
      as [counter' pq'']. apply IH.
Qed.

Lemma synthesize_backward_never_raises (catalog : Catalog)
  (src goal : string) (maxc : Q) (maxr : Z) (fuel : nat) :
  never_raises (synthesize_backward fuel catalog src goal maxc maxr).
Proof.
  unfold synthesize_backward. apply bind_never_raises.
  - apply search_loop_never_raises.
  - intros a _ e. discriminate.
Qed.

Lemma find_by_search_never_raises (fuel : nat) (catalog : Catalog)
  (sources : list (string * string)) (T : string) (budget : Q) :
  never_raises (find_by_search fuel catalog sources T budget).
Proof.
  induction sources as [|[i ty] rest IH]; simpl; [intros e; discriminate|].
  apply bind_never_raises; [apply synthesize_backward_never_raises|].
  intros [|r rs] _; [exact IH | intros e; discriminate].
Qed.

Lemma resolve_args_never_raises (fuel : nat) (catalog : Catalog)
  (sources : list (string * string)) (remaining : Q)
  (required : list string) :
  forall st, never_raises
               (resolve_args fuel catalog sources required remaining st).
Proof.
  induction required as [|T rest IH]; intros st; simpl;
    [intros e; discriminate|].
  destruct (find_direct sources T (used_sources st)); [apply IH|].
  apply bind_never_raises; [apply find_by_search_never_raises|].
  intros [[s r]|] _; [apply IH | intros e; discriminate].
Qed.

Lemma resolve_args_length (fuel : nat) (catalog : Catalog)
  (sources : list (string * string)) (remaining : Q)
  (required : list string) :
  forall st st',
    resolve_args fuel catalog sources required remaining st = Ok (Some st') ->
    List.length (arg_results st')
    = (List.length (arg_results st) + List.length required)%nat.
Proof.
  induction required as [|T rest IH]; intros st st' H; simpl in H.
  - inversion H; subst. simpl. lia.
  - destruct (find_direct sources T (used_sources st)).
    + apply IH in H. cbn [arg_results] in H. rewrite length_app in H.
      simpl in *. lia.
    + inv_bind H. destruct a as [[s r]|]; [|discriminate].
      apply IH in H. cbn [arg_results] in H. rewrite length_app in H.
      simpl in *. lia.
Qed.

Lemma resolve_components_never_raises (fuel : nat) (catalog : Catalog)
  (sources : list (string * string)) (remaining : Q)
  (components : list string) :
  forall st, never_raises
               (resolve_components fuel catalog sources components remaining
                  st).
Proof.
  induction components as [|T rest IH]; intros st; simpl;
    [intros e; discriminate|].
  destruct (find_direct_component sources T); [apply IH|].
  apply bind_never_raises; [apply find_by_search_never_raises|].
  intros [[s r]|] _; [apply IH | intros e; discriminate].
Qed.

Lemma _try_synthesize_multiarg_func_never_raises (fuel : nat)
  (catalog : Catalog) (sources : list (string * string)) (goal_type : string)
  (g : Func) (maxc : Q) :
  never_raises
    (_try_synthesize_multiarg_func fuel catalog sources goal_type g maxc).
Proof.
  unfold _try_synthesize_multiarg_func.
  apply bind_never_raises; [apply resolve_args_never_raises|].
  intros [st|] Hst; [|intros e; discriminate].
  apply resolve_args_length in Hst. cbn [arg_results List.length] in Hst.
  unfold _build_dag_from_multiarg.
  destruct (build_arg_nodes_spec g (arg_results st) 0
              (mkBuildState (add_source_nodes sources) [] []))
    as (bst & Hb & _); [simpl; lia | apply keys_ok_sources |].
  rewrite Hb. cbn [bind].
  destruct (make_composition_Ok (make_tuple (bs_proofs bst)) [make_func g])
    as [q ->].
  intros e. discriminate.
Qed.

Lemma _try_synthesize_via_product_never_raises (fuel : nat)
  (catalog : Catalog) (sources : list (string * string)) (goal_type : string)
  (pname : string) (pt : ProductType) (maxc : Q) :
  never_raises
    (_try_synthesize_via_product fuel catalog sources goal_type pname pt
       maxc).
Proof.
  unfold _try_synthesize_via_product.
  apply bind_never_raises; [apply synthesize_backward_never_raises|].
  intros [|agg rs] _; [intros e; discriminate|].
  apply bind_never_raises; [apply resolve_components_never_raises|].
  intros [st|] _; [|intros e; discriminate].
  unfold _build_dag_from_product.
  destruct (sr_path agg) as [|f path].
  - intros e. discriminate.
  - destruct (make_composition_Ok
                (make_tuple
                   (bs_proofs
                      (build_component_nodes 0 (component_results st)
                         (mkBuildState (add_source_nodes sources) [] []))))
                [sr_proof agg]) as [q ->].
    intros e. discriminate.
Qed.

Lemma synthesize_multiarg_full_never_raises (fuel : nat) (catalog : Catalog)
  (sources : list (string * string)) (goal_type : string) (maxc : Q)
  (prefer_multiarg : bool) :
  never_raises
    (synthesize_multiarg_full fuel catalog sources goal_type maxc
       prefer_multiarg).
Proof.
  assert (HA : forall gs,
             never_raises
               (multiarg_results fuel catalog sources goal_type maxc gs)).
  { induction gs as [|g gs IH]; simpl; [intros e; discriminate|].
    destruct (is_multiarg g); [|exact IH].
    apply bind_never_raises;
      [apply _try_synthesize_multiarg_func_never_raises|].
    intros o _. apply bind_never_raises; [exact IH|].
    intros l _ e. discriminate. }
  assert (HB : forall ps,
             never_raises
               (product_results fuel catalog sources goal_type maxc ps)).
  { induction ps as [|[n pt] ps IH]; simpl; [intros e; discriminate|].
    apply bind_never_raises;
      [apply _try_synthesize_via_product_never_raises|].
    intros o _. apply bind_never_raises; [exact IH|].
    intros l _ e. discriminate. }
  assert (HC : forall srcs,
             never_raises (single_results fuel catalog goal_type maxc srcs)).
  { induction srcs as [|[i ty] srcs IH]; simpl; [intros e; discriminate|].
    apply bind_never_raises; [apply synthesize_backward_never_raises|].
    intros o _. apply bind_never_raises; [exact IH|].
    intros l _ e. discriminate. }
  unfold synthesize_multiarg_full.
  apply bind_never_raises; [apply HA|]. intros ma _.
  apply bind_never_raises; [apply HB|]. intros pr _.
  apply bind_never_raises; [apply HC|]. intros si _ e. discriminate.
Qed.

(** The paths the search discovers are chains of catalog functions. *)
Lemma discovered_routes (catalog : Catalog) (src goal : string) (maxc : Q)
  (maxr : Z) (fuel : nat) (ds : list SynthesisResult) :
  built catalog ->
  discovered fuel catalog src goal maxc maxr = Ok ds ->
  Forall (fun r => route catalog src goal (sr_path r)) ds.
Proof.
  intros Hb H. unfold discovered in H.
  eapply (search_loop_invariant catalog src maxc maxr
            (fun e => chain (e_type e) goal (e_path e)
                      /\ Forall (fun f => In f (funcs catalog)) (e_path e)));
    [| | | |exact H].
  - intros e f t n (Hch & Hin) Hf Hd Hq. cbn [e_type e_path].
    rewrite (built_funcs_returning _ Hb) in Hf. apply filter_In in Hf.
    destruct Hf as [Hf Hcod]. apply String.eqb_eq in Hcod.
    split; [split; [exact Hd | now rewrite Hcod] | constructor; assumption].
  - intros e pr (Hch & Hin) He _. cbn [sr_path]. subst src. now split.
  - constructor; [|constructor]. cbn. split; auto.
  - constructor.
Qed.

Lemma synthesize_backward_routes (catalog : Catalog) (src goal : string)
  (maxc : Q) (maxr : Z) (fuel : nat) (rs : list SynthesisResult) :
  built catalog ->
  synthesize_backward fuel catalog src goal maxc maxr = Ok rs ->
  Forall (fun r => route catalog src goal (sr_path r)) rs.
Proof.
  intros Hb H. eapply search_results; [|exact H].
  intros ds Hd. now apply (discovered_routes _ _ _ _ _ _ _ Hb Hd).
Qed.

(** A chain that is not empty ends with a function into the goal. *)
Lemma chain_ends_at_goal (goal : string) (path : list Func) :
  forall src, chain src goal path -> path <> [] ->
              exists f, In f path /\ f_cod f = goal.
Proof.
  induction path as [|f rest IH]; intros src H Hne; [congruence|].
  destruct H as [_ H]. destruct rest as [|g rest].
  - exists f. split; [now left | exact H].
  - destruct (IH _ H) as (x & Hx & Hc); [discriminate|].
    exists x. split; [now right | exact Hc].
Qed.

Lemma route_needs_a_function (catalog : Catalog) (src goal : string)
  (path : list Func) :
  built catalog -> funcs_returning catalog goal = [] -> src <> goal ->
  ~ route catalog src goal path.
Proof.
  intros Hb Hnone Hne [Hc Hin]. destruct path as [|f rest].
  - now apply Hne.
  - destruct (chain_ends_at_goal goal (f :: rest) src Hc) as (x & Hx & Hcod);
      [discriminate|].
    rewrite Forall_forall in Hin. specialize (Hin x Hx).
    assert (Hr : In x (funcs_returning catalog goal)).
    { rewrite (built_funcs_returning _ Hb). apply filter_In.
      split; [exact Hin | now apply String.eqb_eq]. }
    rewrite Hnone in Hr. contradiction.
Qed.

(** Without a function into the goal type a search from another type
    finds nothing. *)
Lemma synthesize_backward_none (catalog : Catalog) (src goal : string)
  (maxc : Q) (maxr : Z) (fuel : nat) (rs : list SynthesisResult) :
  built catalog -> funcs_returning catalog goal = [] -> src <> goal ->
  synthesize_backward fuel catalog src goal maxc maxr = Ok rs -> rs = [].
Proof.
  intros Hb Hnone Hne H.
  pose proof (synthesize_backward_routes _ _ _ _ _ _ _ Hb H) as Hr.
  destruct rs as [|r rs]; [reflexivity|].
  inversion Hr as [|? ? Hr0 _]; subst.
  now apply (route_needs_a_function _ _ _ _ Hb Hnone Hne) in Hr0.
Qed.

Lemma product_results_none (catalog : Catalog) (fuel : nat)
  (sources : list (string * string)) (goal : string) (maxc : Q) :
  built catalog -> funcs_returning catalog goal = [] ->
  forall ps pr,
    (forall pt, ~ In (goal, pt) ps) ->
    product_results fuel catalog sources goal maxc ps = Ok pr -> pr = [].
Proof.
  intros Hb Hnone. induction ps as [|[n pt] ps IH]; intros pr Hp H;
    simpl in H.
  - now inversion H.
  - inv_bind H. inv_bind H. inversion H; subst pr; clear H.
    assert (Hn0 : n <> goal) by (intros ->; apply (Hp pt); now left).
    unfold _try_synthesize_via_product in Ha. inv_bind Ha.
    apply (synthesize_backward_none _ _ _ _ _ _ _ Hb Hnone Hn0) in Ha1.
    subst. inversion Ha; subst.
    apply IH; [|assumption]. intros pt' Hin. apply (Hp pt'). now right.
Qed.

Lemma single_results_none (catalog : Catalog) (fuel : nat) (goal : string)
  (maxc : Q) :
  built catalog -> funcs_returning catalog goal = [] ->
  forall srcs si,
    (forall s, ~ In (s, goal) srcs) ->
    single_results fuel catalog goal maxc srcs = Ok si -> si = [].
Proof.
  intros Hb Hnone. induction srcs as [|[i ty] srcs IH]; intros si Hp H;
    simpl in H.
  - now inversion H.
  - inv_bind H. inv_bind H. inversion H; subst si; clear H.
    assert (Hn0 : ty <> goal) by (intros ->; apply (Hp i); now left).
    apply (synthesize_backward_none _ _ _ _ _ _ _ Hb Hnone Hn0) in Ha.
    subst. apply IH; [|assumption]. intros s Hin. apply (Hp s). now right.
Qed.

(** C7: for every catalog, sources, goal and budget, neither
    [synthesize_backward] nor [synthesize_multiarg_full] raises, whatever
    the number of iterations allowed; and on a catalog built through the
    API whose costs are not negative both return, [synthesize_backward]
    the empty list when no chain of catalog functions leads from the
    source type to the goal type, and [synthesize_multiarg_full] [None]
    when the three strategies have no candidate, which is the case when
    no function returns the goal type and the goal type is neither the
    type of a source nor the name of a product type. *)
Theorem no_plan_is_a_value (catalog : Catalog) (src goal : string)
  (sources : list (string * string)) (max_cost : Q) (max_results : Z)
  (prefer_multiarg : bool) (fuel : nat) :
  never_raises
    (synthesize_backward fuel catalog src goal max_cost max_results)
  /\ never_raises
       (synthesize_multiarg_full fuel catalog sources goal max_cost
          prefer_multiarg)
  /\ (built catalog -> nonneg_funcs catalog ->
      (search_fuel catalog <= fuel)%nat ->
      (exists rs,
          synthesize_backward fuel catalog src goal max_cost max_results
          = Ok rs
          /\ ((forall path, ~ route catalog src goal path) -> rs = []))
      /\ (exists ma pr si r,
            multiarg_results fuel catalog sources goal max_cost
              (funcs_returning catalog goal) = Ok ma
            /\ product_results fuel catalog sources goal max_cost
                 (product_types catalog) = Ok pr
            /\ single_results fuel catalog goal max_cost sources = Ok si
            /\ synthesize_multiarg_full fuel catalog sources goal max_cost
                 prefer_multiarg = Ok r
            /\ (ma = [] /\ pr = [] /\ si = [] -> r = None)
            /\ (funcs_returning catalog goal = [] ->
                (forall s, ~ In (s, goal) sources) ->
                (forall pt, ~ In (goal, pt) (product_types catalog)) ->
                r = None))).
Proof.
  split; [apply synthesize_backward_never_raises|].
  split; [apply synthesize_multiarg_full_never_raises|].
  intros Hb Hnf Hf. pose proof (built_nonneg catalog Hb Hnf) as Hn. split.
  - destruct (synthesize_backward_terminates catalog src goal max_cost
                max_results fuel Hn Hf) as [ds [Hd Hs]].
    eexists. split; [exact Hs|]. intros Hno.
    pose proof (discovered_routes _ _ _ _ _ _ _ Hb Hd) as Hp.
    destruct ds as [|r ds]; [reflexivity|].
    inversion Hp as [|? ? Hr _]; subst. now apply Hno in Hr.
  - destruct (multiarg_results_total catalog fuel Hn Hf sources goal
                max_cost (funcs_returning catalog goal)) as [ma [Hma _]].
    destruct (product_results_total catalog fuel Hn Hf sources goal
                max_cost (product_types catalog)) as [pr [Hpr _]].
    destruct (single_results_total catalog fuel Hn Hf goal max_cost sources)
      as [si [Hsi _]].
    exists ma, pr, si, (select_result prefer_multiarg ma pr si).
    split; [exact Hma|]. split; [exact Hpr|]. split; [exact Hsi|].
    split; [unfold synthesize_multiarg_full; now rewrite Hma, Hpr, Hsi|].
    split; [apply select_result_None|].
    intros Hnone Hsrc Hprod. apply select_result_None.
    split; [|split].
    + rewrite Hnone in Hma. simpl in Hma. now inversion Hma.
    + eapply product_results_none; eauto.
    + eapply single_results_none; eauto.
Qed.

Lemma no_chain_back_in_one_catalog (path : list Func) :
  ~ route one_catalog "B" "A" path.
Proof.
  intros (Hc & Hin). destruct path as [|f0 rest]; simpl in Hc.
  - discriminate.
  - destruct Hc as [Hd _]. inversion Hin as [|? ? Hf _]; subst.
    destruct Hf as [<-|[]]. discriminate.
Qed.

(** At a negative budget too: no chain from [B] to [A] exists, and both
    functions return the empty answer. *)
Lemma no_plan_is_a_value_witness :
  synthesize_backward 10 one_catalog "B" "A" (-1) 10 = Ok []
  /\ synthesize_multiarg_full 10 one_catalog [("b", "B")] "A" (-1) true
     = Ok None.
Proof.
  destruct (no_plan_is_a_value one_catalog "B" "A" [("b", "B")] (-1) 10 true 10)
    as (_ & _ & H).
  destruct H as [[rs [Hrs Hempty]]
                   (ma & pr & si & r & Hma & Hpr & Hsi & Hr & _ & Hnone)].
  - repeat constructor.
  - repeat constructor. discriminate.
  - vm_compute; lia.
  - split.
    + rewrite Hrs. f_equal. apply Hempty. exact no_chain_back_in_one_catalog.
    + rewrite Hr. f_equal. apply Hnone.
      * reflexivity.
      * intros s [H|[]]. discriminate.
      * intros pt [].
Defined.

(* ================================================================= *)
(** ** C6: dispatch on the implementation tag *)

Lemma tag_is_false_of_unknown (tag t : string) :
  ~ In tag known_tags -> In t known_tags -> tag_is (VStr tag) t = false.
Proof.
  intros Hn Ht. simpl. destruct (String.eqb tag t) eqn:E; [|reflexivity].
  apply String.eqb_eq in E. subst. contradiction.
Qed.

(** C6, first half: a tag outside the seven known ones makes
    [execute_func] raise the unknown-implementation error. *)
Lemma execute_func_unknown_tag (host : PythonHost) (ex : Executor)
  (func : Func) (input_value : Value) (tag : string) :
  dict_get (f_impl func) "type" = Some (VStr tag) ->
  ~ In tag known_tags ->
  execute_func host ex func input_value
  = Raise (ExecutionError ("Unknown impl type: " ++ tag)%string).
Proof.
  intros Ht Hn. unfold execute_func, impl_type_of. rewrite Ht.
  rewrite !(tag_is_false_of_unknown tag) by (assumption || (simpl; tauto)).
  now rewrite py_str_str.
Qed.

(** The descriptor the DSL parser substitutes for a missing [impl] does
    run as the identity. *)
Lemma execute_func_parsed_default (host : PythonHost)
  (ctx : option ExecutionContext) (func : Func) (input_value : Value) :
  f_impl func = parsed_default_impl ->
  execute_func host (Executor_init host ctx) func input_value = Ok input_value.
Proof. intros H. unfold execute_func. rewrite H. reflexivity. Qed.

(** C6, second half, fails: a function whose descriptor is empty (the
    default of the [Func] record) is dispatched on the tag "identity",
    which no branch handles, so [execute_func] raises instead of
    returning its input. *)
Theorem execute_func_empty_impl_raises (host : PythonHost) (ex : Executor)
  (func : Func) (input_value : Value) :
  dict_get (f_impl func) "type" = None ->
  execute_func host ex func input_value
  = Raise (ExecutionError "Unknown impl type: identity").
Proof.
  intros H. unfold execute_func, impl_type_of. rewrite H. cbn.
  now rewrite py_str_str.
Qed.

Lemma execute_func_empty_impl_raises_witness :
  execute_func no_host (Executor_init no_host None)
    (fn "f" (Single "A") "B" 1 1) (VNum 5)
  = Raise (ExecutionError "Unknown impl type: identity").
Proof.
  apply (execute_func_empty_impl_raises no_host (Executor_init no_host None)
           (fn "f" (Single "A") "B" 1 1) (VNum 5)).
  reflexivity.
Defined.

(* ================================================================= *)
(** ** C8: the binding of source nodes *)

Lemma prefix_true_iff (a b : string) :
  String.prefix a b = true <-> exists q, b = (a ++ q)%string.
Proof.
  revert b. induction a as [|c a IH]; intros b.
  - split; [intros _; now exists b | intros _; now destruct b].
  - destruct b as [|c' b]; simpl;
      [split; [discriminate | intros [q H]; discriminate]|].
    destruct (ascii_dec c c') as [->|Hne].
    + rewrite IH. split; intros [q H]; exists q; [now rewrite H | now inversion H].
    + split; [discriminate | intros [q H]; inversion H; congruence].
Qed.

Lemma py_in_substring (a b : string) :
  py_in a b = true <-> substring_of a b.
Proof.
  unfold substring_of. induction b as [|c b IH]; cbn [py_in].
  - destruct (String.prefix a "") eqn:E.
    + split; [intros _|reflexivity]. apply prefix_true_iff in E.
      destruct E as [q E]. exists "", q. exact E.
    + split; [discriminate|]. intros (p & q & H).
      destruct p; [|discriminate]. simpl in H.
      assert (String.prefix a "" = true) by (apply prefix_true_iff; eauto).
      congruence.
  - destruct (String.prefix a (String c b)) eqn:E.
    + split; [intros _|reflexivity]. apply prefix_true_iff in E.
      destruct E as [q E]. exists "", q. exact E.
    + rewrite IH. split.
      * intros (p & q & H). exists (String c p), q. simpl. now rewrite H.
      * intros (p & q & H). destruct p as [|c' p]; simpl in H.
        -- assert (String.prefix a (String c b) = true)
             by (apply prefix_true_iff; eauto).
           congruence.
        -- inversion H; subst. eauto.
Qed.

Lemma fuzzy_match_spec (type_name : string) (kv : string * Value) :
  fuzzy_match type_name kv = true
  <-> substring_of type_name (fst kv) \/ substring_of (fst kv) type_name.
Proof.
  unfold fuzzy_match. rewrite orb_true_iff, !py_in_substring. reflexivity.
Qed.

Lemma find_first_match {A : Type} (f : A -> bool) (before after : list A)
  (x : A) :
  Forall (fun y => f y = false) before -> f x = true ->
  find f (before ++ x :: after) = Some x.
Proof.
  induction 1 as [|y before Hy _ IH]; intros Hx; simpl.
  - now rewrite Hx.
  - rewrite Hy. now apply IH.
Qed.

Lemma find_no_match {A : Type} (f : A -> bool) (l : list A) :
  Forall (fun y => f y = false) l -> find f l = None.
Proof. induction 1 as [|y l Hy _ IH]; simpl; [reflexivity | now rewrite Hy]. Qed.

(** C8: a source node is bound to the entry of [source_values] under its
    own id when there is one; otherwise to the first entry whose key
    contains the node's type name or is contained in it; otherwise to the
    first value provided. *)
Theorem source_node_binding (host : PythonHost) (ex : Executor)
  (dag : SynthesisDAG) (source_values : list (string * Value))
  (node_id : string) (node : DAGNode) (node_values : list (string * Value)) :
  dict_get (nodes dag) node_id = Some node ->
  n_node_type node = "source" ->
  (forall v,
      dict_get source_values node_id = Some v ->
      execute_node host ex dag source_values node_id node_values
      = Ok (dict_set node_values node_id v))
  /\ (forall before k v after,
         dict_get source_values node_id = None ->
         source_values = before ++ (k, v) :: after ->
         Forall (fun kv => ~ substring_of (n_type_name node) (fst kv)
                           /\ ~ substring_of (fst kv) (n_type_name node))
                before ->
         substring_of (n_type_name node) k
         \/ substring_of k (n_type_name node) ->
         execute_node host ex dag source_values node_id node_values
         = Ok (dict_set node_values node_id v))
  /\ (forall k v rest,
         dict_get source_values node_id = None ->
         source_values = (k, v) :: rest ->
         Forall (fun kv => ~ substring_of (n_type_name node) (fst kv)
                           /\ ~ substring_of (fst kv) (n_type_name node))
                source_values ->
         execute_node host ex dag source_values node_id node_values
         = Ok (dict_set node_values node_id v)).
Proof.
  intros Hn Ht. unfold execute_node. rewrite Hn, Ht.
  change (String.eqb "source" "source") with true. cbv iota.
  unfold bind_source. repeat split.
  - intros v Hv. now rewrite Hv.
  - intros before k v after Hnone -> Hb Hk. rewrite Hnone.
    rewrite (find_first_match _ before after (k, v)).
    + reflexivity.
    + eapply Forall_impl; [|exact Hb]. intros kv [H1 H2].
      destruct (fuzzy_match (n_type_name node) kv) eqn:E; [|reflexivity].
      apply fuzzy_match_spec in E. destruct E; contradiction.
    + now apply fuzzy_match_spec.
  - intros k v rest Hnone -> Hall. rewrite Hnone.
    rewrite find_no_match.
    + reflexivity.
    + eapply Forall_impl; [|exact Hall]. intros kv [H1 H2].
      destruct (fuzzy_match (n_type_name node) kv) eqn:E; [|reflexivity].
      apply fuzzy_match_spec in E. destruct E; contradiction.
Qed.

Lemma source_node_binding_witness :
  execute_node no_host (Executor_init no_host None)
    (_single_path_to_dag "src" "Fuel" "Fuel" (identity_result "Fuel"))
    [("elec", VNum 1); ("fuel_kg", VNum 2)] "src" []
  = Ok [("src", VNum 1)].
Proof.
  destruct (source_node_binding no_host (Executor_init no_host None)
              (_single_path_to_dag "src" "Fuel" "Fuel" (identity_result "Fuel"))
              [("elec", VNum 1); ("fuel_kg", VNum 2)] "src"
              (source_node "src" "Fuel") [] eq_refl eq_refl)
    as (_ & _ & H).
  apply (H "elec" (VNum 1) [("fuel_kg", VNum 2)]); [reflexivity|reflexivity|].
  repeat constructor; intros H'; apply py_in_substring in H'; discriminate.
Defined.

(* ================================================================= *)
(** ** C10: what the formula evaluator evaluates *)

Lemma contains_char_append_true (c : ascii) (pre post : string) :
  contains_char c (pre ++ String c post)%string = true.
Proof. apply contains_char_app. Qed.

Lemma split_once_first (c : ascii) (pre post : string) :
  contains_char c pre = false ->
  split_once c (pre ++ String c post)%string = [pre; post].
Proof.
  induction pre as [|c' pre IH]; simpl; intros H.
  - now rewrite Ascii.eqb_refl.
  - destruct (Ascii.eqb c' c); [discriminate|]. now rewrite IH.
Qed.

Lemma _formula_to_python_rhs (pre post : string) :
  contains_char "="%char pre = false ->
  _formula_to_python (pre ++ String "="%char post)%string = strip post.
Proof.
  intros H. unfold _formula_to_python.
  now rewrite contains_char_append_true, split_once_first.
Qed.

Lemma strip_keeps_leading_equals (rest : string) :
  strip (String "="%char rest) = String "="%char (rstrip rest).
Proof.
  unfold strip. cbn [rstrip]. destruct (rstrip rest); reflexivity.
Qed.

(** C10: for an expression with an [=], the evaluator is handed the text
    after the first [=] (stripped of surrounding blanks) and nothing
    else; when that [=] starts the operator [==], the evaluated text
    begins with the second [=]. *)
Theorem formula_evaluates_text_after_first_equals (host : PythonHost)
  (ex : Executor) (impl : list (string * Value)) (pre post : string)
  (input_value : Value) :
  contains_char "="%char pre = false ->
  dict_get impl "expr" = Some (VStr (pre ++ String "="%char post)%string) ->
  _formula_to_python (pre ++ String "="%char post)%string = strip post
  /\ _execute_formula host ex impl input_value
     = match py_eval host (strip post) formula_builtins
               (formula_locals ex (pre ++ String "="%char post)%string
                               input_value) with
       | Ok result => Ok result
       | Raise e =>
           Raise (ExecutionError
                    ("Formula evaluation failed: "
                     ++ (pre ++ String "="%char post) ++ " -> " ++ strip post
                     ++ ", error: " ++ exn_msg e)%string)
       | OutOfFuel => OutOfFuel
       end
  /\ (forall rest, post = String "="%char rest ->
                   strip post = String "="%char (rstrip rest)).
Proof.
  intros Hpre Hexpr. split; [now apply _formula_to_python_rhs|]. split.
  - unfold _execute_formula, impl_get_str. rewrite Hexpr. cbn [bind].
    now rewrite _formula_to_python_rhs.
  - intros rest ->. apply strip_keeps_leading_equals.
Qed.

Lemma formula_evaluates_text_after_first_equals_witness :
  _formula_to_python "a == b" = "= b"
  /\ _execute_formula no_host (Executor_init no_host None)
       [("type", VStr "formula"); ("expr", VStr "a == b")] (VNum 1)
     = Raise (ExecutionError
                "Formula evaluation failed: a == b -> = b, error: eval").
Proof.
  destruct (formula_evaluates_text_after_first_equals no_host
              (Executor_init no_host None)
              [("type", VStr "formula"); ("expr", VStr "a == b")]
              "a " "= b" (VNum 1) eq_refl eq_refl) as (H1 & H2 & _).
  split; [exact H1 | exact H2].
Defined.

(* ================================================================= *)
(** ** C9: provenance closure *)

Lemma record_usages_spec (inputs : list string) :
  forall g w A i g' w',
    record_usages g w A i inputs = (g', w') ->
    (exists us,
        usages g' = usages g ++ us
        /\ map (fun u => (us_activity_id u, us_entity_id u)) us
           = map (fun I => (A, I)) inputs)
    /\ generations g' = generations g
    /\ derivations g' = derivations g
    /\ entities g' = entities g
    /\ activities g' = activities g
    /\ system_agent g' = system_agent g.
Proof.
  induction inputs as [|I inputs IH]; intros g w A i g' w' H; simpl in H.
  - inversion H; subst. split; [exists []; now rewrite app_nil_r|]. auto.
  - apply IH in H. destruct H as ([us [Hu Hm]] & Hg & Hd & He & Ha & Hs).
    cbn in Hu, Hg, Hd, He, Ha, Hs.
    split; [|auto].
    eexists (_ :: us). rewrite Hu, <- app_assoc. split; [reflexivity|].
    simpl. now rewrite Hm.
Qed.

Lemma record_derivations_spec (inputs : list string) :
  forall g E A,
    derivations (record_derivations g E A inputs)
    = derivations g
      ++ map (fun I => mkDerivation E I (Some A) "Derivation") inputs
    /\ usages (record_derivations g E A inputs) = usages g
    /\ generations (record_derivations g E A inputs) = generations g
    /\ activities (record_derivations g E A inputs) = activities g.
Proof.
  unfold record_derivations.
  induction inputs as [|I inputs IH]; intros g E A; simpl.
  - now rewrite app_nil_r.
  - destruct (IH (add_derivation g E I (Some A)) E A) as (Hd & Hu & Hg & Ha).
    rewrite Hd, Hu, Hg, Ha. simpl. now rewrite <- app_assoc.
Qed.

Lemma end_activity_spec (g : ProvenanceGraph) (w : World) (A : string) :
  usages (fst (end_activity g w A)) = usages g
  /\ generations (fst (end_activity g w A)) = generations g
  /\ derivations (fst (end_activity g w A)) = derivations g.
Proof.
  unfold end_activity. destruct (dict_get (activities g) A); simpl; auto.
Qed.

(** What one tracked call appends to the graph. *)
Lemma track_function_execution_spec (t : ProvenanceTracker) (w : World)
  (c : Call) (out : option string) (t' : ProvenanceTracker) (w' : World) :
  enabled t = true ->
  track_function_execution t w (call_func_id c) (call_func_signature c)
    (call_inputs c) (call_output_value c) (call_output_type c)
  = (out, t', w') ->
  exists E A ts us,
    out = Some E
    /\ enabled t' = true
    /\ generations (graph t')
       = generations (graph t) ++ [mkGeneration E A "output" ts]
    /\ usages (graph t') = usages (graph t) ++ us
    /\ map (fun u => (us_activity_id u, us_entity_id u)) us
       = map (fun I => (A, I)) (call_inputs c)
    /\ derivations (graph t')
       = derivations (graph t)
         ++ map (fun I => mkDerivation E I (Some A) "Derivation")
                (call_inputs c).
Proof.
  intros He H. unfold track_function_execution in H. rewrite He in H.
  cbn [negb] in H. cbv iota in H.
  unfold add_activity, choose_id, _generate_id, draw_uuid, read_clock in H.
  cbn [fst snd] in H.
  destruct (record_usages _ _ _ 0 (call_inputs c)) as [g3 w3] eqn:Hu in H.
  apply record_usages_spec in Hu.
  destruct Hu as ([us [Hus Hm]] & Hg3 & Hd3 & _ & _ & _).
  unfold add_entity, add_generation, choose_id, _generate_id, draw_uuid,
    read_clock in H.
  cbv beta iota zeta in H.
  destruct (end_activity _ _ _) as [g7 w7] eqn:Hend in H.
  match type of Hend with
  | end_activity ?g ?w0 ?A = _ =>
      pose proof (end_activity_spec g w0 A) as Hsp; rewrite Hend in Hsp
  end.
  cbn [fst] in Hsp. destruct Hsp as (Hu7 & Hg7 & Hd7).
  inversion H; subst out t' w'; clear H.
  match type of Hg7 with
  | context [record_derivations ?g ?E ?A ?ins] =>
      destruct (record_derivations_spec ins g E A) as (Hrd & Hru & Hrg & _)
  end.
  do 4 eexists. split; [reflexivity|]. split; [reflexivity|].
  cbn [graph]. rewrite Hg7, Hu7, Hd7, Hrg, Hru, Hrd.
  cbn [generations usages derivations].
  rewrite Hg3, Hus, Hd3. cbn [generations usages derivations add_association].
  repeat split; try reflexivity. exact Hm.
Qed.



(** C9: the code breaks the claim.  Entity ids keep eight hexadecimal
    digits of a [uuid4] and are not checked against the graph: when the
    ids generated for the outputs of two tracked executions coincide,
    both executions return the same id, the graph keeps one entity under
    it, and that entity has two [wasGeneratedBy] edges, to two
    activities. *)
Theorem colliding_ids_give_two_generations :
  let calls := [mkCall "f" "A -> B" ["a"] (VNum 1) "B";
                mkCall "g" "C -> D" ["c"] (VNum 2) "D"] in
  let '(t0, w0) := ProvenanceTracker_init None colliding_world in
  let '(outs, t', _) := track_all t0 w0 calls in
  outs = [Some "entity_1"; Some "entity_1"]
  /\ map fst (entities (graph t')) = ["entity_1"]
  /\ map (fun gn => (gen_entity_id gn, gen_activity_id gn))
         (filter (fun gn => String.eqb (gen_entity_id gn) "entity_1")
                 (generations (graph t')))
     = [("entity_1", "activity_0"); ("entity_1", "activity_2")].
Proof. vm_compute. repeat split. Qed.


(* ################################################################# *)
(** * Further properties of the code *)

(* ================================================================= *)
(** ** The search: soundness and the bound on the number of results *)

Lemma discovered_within_budget (catalog : Catalog) (src goal : string)
  (maxc : Q) (maxr : Z) (fuel : nat) (ds : list SynthesisResult) :
  discovered fuel catalog src goal maxc maxr = Ok ds ->
  Forall (fun r => sr_path r <> [] -> (sr_cost r <= maxc)%Q) ds.
Proof.
  intros H. unfold discovered in H.
  eapply (search_loop_invariant catalog src maxc maxr
            (fun e => e_path e <> [] -> (e_cost e <= maxc)%Q));
    [| | | |exact H].
  - intros e f t n _ _ _ Hq _. cbn [e_cost].
    unfold Qlt_bool in Hq. apply negb_false_iff in Hq.
    now apply Qle_bool_iff.
  - intros e pr He _ _. exact He.
  - constructor; [|constructor]. cbn. congruence.
  - constructor.
Qed.

(** X1: on a built catalog with non-negative costs [synthesize_backward]
    returns, and every path it returns is a chain of single-argument
    catalog functions that starts at the source type and ends at the goal
    type; the cost recorded for a result whose path is not empty is not
    greater than [max_cost]. *)
Theorem synthesize_backward_sound (catalog : Catalog) (src goal : string)
  (max_cost : Q) (max_results : Z) (fuel : nat) :
  built catalog -> nonneg_funcs catalog ->
  (search_fuel catalog <= fuel)%nat ->
  exists rs,
    synthesize_backward fuel catalog src goal max_cost max_results = Ok rs
    /\ Forall (fun r => route catalog src goal (sr_path r)
                        /\ (sr_path r <> [] -> (sr_cost r <= max_cost)%Q))
              rs.
Proof.
  intros Hb Hnf Hf. pose proof (built_nonneg catalog Hb Hnf) as Hn.
  destruct (synthesize_backward_terminates catalog src goal max_cost
              max_results fuel Hn Hf) as [ds [Hd Hs]].
  eexists. split; [exact Hs|].
  eapply Permutation_Forall; [apply sorted_perm|].
  pose proof (discovered_routes _ _ _ _ _ _ _ Hb Hd) as Hr.
  pose proof (discovered_within_budget _ _ _ _ _ _ _ Hd) as Hc.
  rewrite Forall_forall in *. intros r Hin. split; [now apply Hr | now apply Hc].
Qed.

Lemma synthesize_backward_sound_witness :
  exists rs,
    synthesize_backward 10 linear_catalog "A" "C" 4 10 = Ok rs
    /\ Forall (fun r => route linear_catalog "A" "C" (sr_path r)
                        /\ (sr_path r <> [] -> (sr_cost r <= 4)%Q))
              rs.
Proof.
  apply (synthesize_backward_sound linear_catalog "A" "C" 4 10 10).
  - repeat constructor.
  - repeat constructor; discriminate.
  - vm_compute; lia.
Defined.

Lemma search_loop_length (catalog : Catalog) (src : string) (maxc : Q)
  (maxr : Z) :
  forall fuel counter pq visited results rs,
    (Z.of_nat (List.length results) <= Z.max 0 maxr)%Z ->
    search_loop fuel catalog src maxc maxr counter pq visited results = Ok rs ->
    (Z.of_nat (List.length rs) <= Z.max 0 maxr)%Z.
Proof.
  induction fuel as [|fuel IH]; intros counter pq visited results rs Hl H;
    [discriminate|].
  simpl in H.
  destruct (Z.of_nat (List.length results) <? maxr)%Z eqn:Hlt; cbn [negb] in H;
    [|inversion H; subst; exact Hl].
  apply Z.ltb_lt in Hlt.
  destruct (heappop pq) as [[e pq']|]; [|inversion H; subst; exact Hl].
  destruct (String.eqb (e_type e) src).
  - inv_bind H. eapply IH; [|exact H].
    rewrite length_app. simpl. lia.
  - destruct (pruned visited (e_type e) (e_cost e)); [eapply IH; eauto|].
    destruct (expand (funcs_returning catalog (e_type e)) (e_cost e)
                     (e_path e) (e_conf e) maxc counter pq') as [c' pq''].
    eapply IH; eauto.
Qed.

(** X2: [synthesize_backward] returns at most [max_results] results, and
    none when [max_results] is zero or negative. *)
Theorem synthesize_backward_at_most_max_results (catalog : Catalog)
  (src goal : string) (max_cost : Q) (max_results : Z) (fuel : nat) :
  nonneg_costs catalog -> (search_fuel catalog <= fuel)%nat ->
  exists rs,
    synthesize_backward fuel catalog src goal max_cost max_results = Ok rs
    /\ (Z.of_nat (List.length rs) <= Z.max 0 max_results)%Z.
Proof.
  intros Hn Hf.
  destruct (synthesize_backward_terminates catalog src goal max_cost
              max_results fuel Hn Hf) as [ds [Hd Hs]].
  eexists. split; [exact Hs|].
  rewrite <- (Permutation_length (sorted_perm sr_cost ds)).
  unfold discovered in Hd. eapply search_loop_length; [|exact Hd]. simpl. lia.
Qed.

Lemma synthesize_backward_at_most_max_results_witness :
  exists rs,
    synthesize_backward 10 linear_catalog "A" "C" 100 1 = Ok rs
    /\ (Z.of_nat (List.length rs) <= Z.max 0 1)%Z.
Proof.
  apply (synthesize_backward_at_most_max_results linear_catalog "A" "C" 100 1 10).
  - nonneg_by_computation.
  - vm_compute; lia.
Defined.

(* ================================================================= *)
(** ** The catalog indices *)

(** X3: in a catalog built through the API, [funcs_returning(t)] is the
    list of the catalog's functions with codomain [t], in insertion
    order, and the index holds every function exactly once. *)
Theorem funcs_returning_is_the_codomain_filter (c : Catalog) (t : string) :
  built c ->
  funcs_returning c t = filter (fun f => String.eqb (f_cod f) t) (funcs c)
  /\ index_size (by_cod c) = List.length (funcs c).
Proof.
  intros Hb. split; [now apply built_funcs_returning | now apply built_index_size].
Qed.

Lemma funcs_returning_is_the_codomain_filter_witness :
  funcs_returning linear_catalog "C"
  = filter (fun f => String.eqb (f_cod f) "C") (funcs linear_catalog)
  /\ index_size (by_cod linear_catalog) = List.length (funcs linear_catalog).
Proof.
  apply (funcs_returning_is_the_codomain_filter linear_catalog "C").
  repeat constructor.
Defined.

Lemma bucket_index_append (idx : list (string * list Func)) k t f :
  match dict_get (index_append idx k f) t with Some l => l | None => [] end
  = match dict_get idx t with Some l => l | None => [] end
    ++ (if String.eqb k t then [f] else []).
Proof.
  destruct (String.eqb k t) eqn:E.
  - apply String.eqb_eq in E. subst. now rewrite index_append_get_same.
  - assert (k <> t) by (intros Heq; rewrite Heq, String.eqb_refl in E; discriminate).
    rewrite index_append_get_other by assumption. now rewrite app_nil_r.
Qed.

Lemma bucket_fold_index_append (ts : list string) (f : Func) (t : string) :
  forall idx,
    match dict_get (fold_left (fun idx t' => index_append idx t' f) ts idx) t
    with Some l => l | None => [] end
    = match dict_get idx t with Some l => l | None => [] end
      ++ repeat f (count_occ string_dec ts t).
Proof.
  induction ts as [|t' ts IH]; intros idx; simpl; [now rewrite app_nil_r|].
  rewrite IH, bucket_index_append, <- app_assoc. f_equal.
  destruct (string_dec t' t) as [->|Hne].
  - now rewrite String.eqb_refl.
  - destruct (String.eqb t' t) eqn:E; [apply String.eqb_eq in E; contradiction|].
    reflexivity.
Qed.

(** X4: in a built catalog, [funcs_accepting(t)] lists, in insertion
    order, every function once per occurrence of [t] among its domain
    types: a function of domain [(A, A)] appears twice under [A]. *)
Theorem funcs_accepting_counts_domain_occurrences (c : Catalog) (t : string) :
  built c ->
  funcs_accepting c t
  = flat_map (fun f => repeat f (count_occ string_dec (dom_types f) t))
             (funcs c).
Proof.
  induction 1 as [|c t0 _ IH|c p _ IH|c f _ IH]; try exact IH; [reflexivity|].
  unfold funcs_accepting in *. cbn [by_dom funcs add_func].
  rewrite bucket_fold_index_append, IH, flat_map_app. simpl.
  now rewrite app_nil_r.
Qed.

Lemma funcs_accepting_counts_domain_occurrences_witness :
  funcs_accepting
    (add_func Catalog_init (fn "sq" (Multi ["A"; "A"]) "B" 1 1)) "A"
  = [fn "sq" (Multi ["A"; "A"]) "B" 1 1; fn "sq" (Multi ["A"; "A"]) "B" 1 1].
Proof.
  rewrite (funcs_accepting_counts_domain_occurrences
             (add_func Catalog_init (fn "sq" (Multi ["A"; "A"]) "B" 1 1)) "A").
  - reflexivity.
  - repeat constructor.
Defined.

(* ================================================================= *)
(** ** Proof terms: [make_composition] *)

Lemma flatten_proofs_atomic (proofs : list ProofNode) :
  Forall flat proofs -> Forall atomic (flatten_proofs proofs).
Proof.
  unfold flatten_proofs. induction 1 as [|p proofs Hp _ IH]; simpl; [constructor|].
  apply Forall_app. split; [|exact IH].
  unfold flat, atomic in *.
  destruct (pn_node_type p) eqn:E.
  - constructor.
  - constructor; [|constructor]. rewrite E; split; discriminate.
  - now apply Hp.
  - constructor; [|constructor]. rewrite E; split; discriminate.
  - constructor; [|constructor]. rewrite E; split; discriminate.
Qed.

(** X6: [make_composition] raises only on the empty list.  On two or
    more proofs whose compositions are flat it returns the identity of
    the first proof's source type when nothing is left after dropping
    identities, the one remaining node when there is exactly one, and
    otherwise a composition whose children are the flattened list, which
    holds no identity and no nested composition. *)
Theorem make_composition_flattens (p0 p1 : ProofNode) (rest : list ProofNode) :
  Forall flat (p0 :: p1 :: rest) ->
  make_composition [] = Raise (ValueError "Empty composition")
  /\ exists q,
       make_composition (p0 :: p1 :: rest) = Ok q
       /\ match flatten_proofs (p0 :: p1 :: rest) with
          | [] => q = make_identity (pn_source_type p0)
          | [x] => q = x
          | flat_list =>
              pn_node_type q = COMPOSITION
              /\ pn_children q = flat_list
              /\ Forall atomic (pn_children q)
          end.
Proof.
  intros Hf. split; [reflexivity|].
  pose proof (flatten_proofs_atomic _ Hf) as Ha.
  unfold make_composition.
  destruct (flatten_proofs (p0 :: p1 :: rest)) as [|a [|b l]];
    eexists; (split; [reflexivity|]); auto.
Qed.

Lemma make_composition_flattens_witness :
  make_composition [] = Raise (ValueError "Empty composition")
  /\ exists q,
       make_composition
         [make_identity "A"; make_func (fn "f" (Single "A") "B" 1 1)] = Ok q
       /\ match flatten_proofs
                  [make_identity "A"; make_func (fn "f" (Single "A") "B" 1 1)]
          with
          | [] => q = make_identity (pn_source_type (make_identity "A"))
          | [x] => q = x
          | flat_list =>
              pn_node_type q = COMPOSITION
              /\ pn_children q = flat_list
              /\ Forall atomic (pn_children q)
          end.
Proof.
  apply (make_composition_flattens (make_identity "A")
           (make_func (fn "f" (Single "A") "B" 1 1)) []).
  repeat constructor; intros H; discriminate H.
Defined.

Lemma flatten_proofs_app (l1 l2 : list ProofNode) :
  flatten_proofs (l1 ++ l2) = flatten_proofs l1 ++ flatten_proofs l2.
Proof. unfold flatten_proofs. apply flat_map_app. Qed.

(** X7: an identity inserted after the first proof of a composition of
    two or more proofs does not change the composed proof term. *)
Theorem make_composition_ignores_identities (p0 : ProofNode)
  (l1 l2 : list ProofNode) (t : string) :
  l1 ++ l2 <> [] ->
  make_composition (p0 :: l1 ++ make_identity t :: l2)
  = make_composition (p0 :: l1 ++ l2).
Proof.
  intros Hne.
  assert (Hf : flatten_proofs (p0 :: l1 ++ make_identity t :: l2)
               = flatten_proofs (p0 :: l1 ++ l2)).
  { change (p0 :: l1 ++ make_identity t :: l2)
      with ((p0 :: l1) ++ [make_identity t] ++ l2).
    change (p0 :: l1 ++ l2) with ((p0 :: l1) ++ l2).
    now rewrite !flatten_proofs_app. }
  unfold make_composition. rewrite Hf.
  destruct l1 as [|a l1];
    [destruct l2 as [|b l2]; [exfalso; now apply Hne|]|]; reflexivity.
Qed.

Lemma make_composition_ignores_identities_witness :
  make_composition
    [make_func (fn "f" (Single "A") "B" 1 1); make_identity "B";
     make_func (fn "g" (Single "B") "C" 1 1)]
  = make_composition
      [make_func (fn "f" (Single "A") "B" 1 1);
       make_func (fn "g" (Single "B") "C" 1 1)].
Proof.
  apply (make_composition_ignores_identities
           (make_func (fn "f" (Single "A") "B" 1 1)) []
           [make_func (fn "g" (Single "B") "C" 1 1)] "B").
  discriminate.
Defined.

(** X8: composing is associative on atomic proofs: the composition of
    [p] and [q], composed with further proofs, is the composition of the
    whole list. *)
Theorem make_composition_associative (p q pq : ProofNode)
  (rest : list ProofNode) :
  atomic p -> atomic q ->
  make_composition [p; q] = Ok pq ->
  make_composition (pq :: rest) = make_composition (p :: q :: rest).
Proof.
  intros [Hp1 Hp2] [Hq1 Hq2] H.
  assert (Hfp : flatten_proofs [p] = [p])
    by (unfold flatten_proofs; simpl; destruct (pn_node_type p);
        try reflexivity; congruence).
  assert (Hfq : flatten_proofs [q] = [q])
    by (unfold flatten_proofs; simpl; destruct (pn_node_type q);
        try reflexivity; congruence).
  assert (Hpq : pq = mkProofNode COMPOSITION None [p; q] 0 (pn_source_type p)
                                 (pn_target_type q)).
  { unfold make_composition in H.
    change [p; q] with ([p] ++ [q]) in H.
    rewrite flatten_proofs_app, Hfp, Hfq in H. simpl in H. now inversion H. }
  destruct rest as [|r rest].
  - rewrite H. reflexivity.
  - unfold make_composition.
    change (pq :: r :: rest) with ([pq] ++ r :: rest).
    change (p :: q :: r :: rest) with ([p] ++ [q] ++ r :: rest).
    rewrite !flatten_proofs_app, Hfp, Hfq.
    assert (Hfpq : flatten_proofs [pq] = [p; q]) by (subst pq; reflexivity).
    rewrite Hfpq. reflexivity.
Qed.

Lemma make_composition_associative_witness :
  make_composition
    [mkProofNode COMPOSITION None
       [make_func (fn "f" (Single "A") "B" 1 1);
        make_func (fn "g" (Single "B") "C" 1 1)] 0 "A" "C";
     make_func (fn "h" (Single "C") "D" 1 1)]
  = make_composition
      [make_func (fn "f" (Single "A") "B" 1 1);
       make_func (fn "g" (Single "B") "C" 1 1);
       make_func (fn "h" (Single "C") "D" 1 1)].
Proof.
  apply (make_composition_associative
           (make_func (fn "f" (Single "A") "B" 1 1))
           (make_func (fn "g" (Single "B") "C" 1 1))).
  - split; discriminate.
  - split; discriminate.
  - reflexivity.
Defined.

(* ================================================================= *)
(** ** The unit registry *)

Lemma unit_key_eqb_eq (a b : string * string) :
  unit_key_eqb a b = true <-> a = b.
Proof.
  destruct a as [a1 a2], b as [b1 b2]. unfold unit_key_eqb. simpl.
  rewrite andb_true_iff, !String.eqb_eq. split; [intros [-> ->]|intros H; inversion H]; auto.
Qed.

Lemma registry_get_set_same (r : UnitRegistry) k c :
  registry_get (registry_set r k c) k = Some c.
Proof.
  assert (Hk : unit_key_eqb k k = true) by now apply unit_key_eqb_eq.
  induction r as [|[k' c'] r IH]; simpl; [now rewrite Hk|].
  destruct (unit_key_eqb k' k) eqn:E; simpl; [now rewrite Hk | now rewrite E].
Qed.

Lemma registry_get_set_other (r : UnitRegistry) k k' c :
  k <> k' -> registry_get (registry_set r k c) k' = registry_get r k'.
Proof.
  intros Hne.
  assert (Hk : unit_key_eqb k k' = false).
  { destruct (unit_key_eqb k k') eqn:E; [apply unit_key_eqb_eq in E; contradiction|].
    reflexivity. }
  induction r as [|[k0 c0] r IH]; simpl; [now rewrite Hk|].
  destruct (unit_key_eqb k0 k) eqn:E; simpl.
  - apply unit_key_eqb_eq in E. subst k0. now rewrite Hk.
  - now rewrite IH.
Qed.

(** X9: [can_convert] answers true exactly when [get_conversion] returns
    a conversion; between a unit and itself that conversion is always the
    identity of factor 1, whatever was registered for the pair. *)
Theorem can_convert_iff_get_conversion (r : UnitRegistry) (u v : string) :
  (can_convert r u v = true <-> get_conversion r u v <> None)
  /\ get_conversion r u u = Some (mkUnitConversion u u 1).
Proof.
  unfold can_convert, get_conversion. split.
  - destruct (String.eqb u v); [split; [discriminate | reflexivity]|].
    destruct (registry_get r (u, v)); split; congruence.
  - now rewrite String.eqb_refl.
Qed.

(** X10: after [register(u, v, k)] with distinct units, [get_conversion]
    returns the factor [k] for [(u, v)] and what it returned before for
    every other pair; in particular the reverse pair is not added. *)
Theorem register_then_get_conversion (r : UnitRegistry) (u v : string)
  (k : Q) :
  u <> v ->
  get_conversion (register r u v k) u v = Some (mkUnitConversion u v k)
  /\ forall u' v', (u', v') <> (u, v) ->
       get_conversion (register r u v k) u' v' = get_conversion r u' v'.
Proof.
  intros Hne. unfold get_conversion, register. split.
  - destruct (String.eqb u v) eqn:E; [apply String.eqb_eq in E; contradiction|].
    apply registry_get_set_same.
  - intros u' v' Hk. destruct (String.eqb u' v'); [reflexivity|].
    apply registry_get_set_other. congruence.
Qed.

Lemma register_then_get_conversion_witness :
  get_conversion (register UnitRegistry_init "mg" "g" (1 / 1000)) "mg" "g"
  = Some (mkUnitConversion "mg" "g" (1 / 1000))
  /\ get_conversion (register UnitRegistry_init "mg" "g" (1 / 1000)) "g" "mg"
     = None.
Proof.
  destruct (register_then_get_conversion UnitRegistry_init "mg" "g" (1 / 1000))
    as [H1 H2]; [discriminate|].
  split; [exact H1|]. rewrite H2; [reflexivity | discriminate].
Defined.

(* ================================================================= *)
(** ** The interpreter *)

(** X11: executing a concatenated path is executing its first part and
    feeding the result, or passing on the failure, to the second part. *)
Theorem execute_path_of_concatenation (host : PythonHost) (ex : Executor)
  (p q : list Func) (input_value : Value) :
  execute_path host ex (p ++ q) input_value
  = bind (execute_path host ex p input_value) (execute_path host ex q).
Proof.
  revert input_value. induction p as [|f p IH]; intros v; [reflexivity|].
  cbn [app execute_path].
  destruct (execute_func host ex f v) as [r| |]; cbn [bind]; auto.
Qed.

(** X12: a function registered with [register_builtin] is what a
    [builtin] descriptor of that name runs, also when the name was one of
    the predefined ones; the other names keep their function, and a name
    that is not in the registry raises the unknown-builtin error. *)
Theorem register_builtin_binds_late (ex : Executor)
  (name : string) (func : Value -> outcome Value)
  (impl : list (string * Value)) (input_value : Value) :
  (dict_get impl "name" = Some (VStr name) ->
   _execute_builtin (register_builtin ex name func) impl input_value
   = func input_value)
  /\ (forall other,
         other <> name -> dict_get impl "name" = Some (VStr other) ->
         _execute_builtin (register_builtin ex name func) impl input_value
         = _execute_builtin ex impl input_value)
  /\ (forall other,
         dict_get impl "name" = Some (VStr other) ->
         dict_get (builtins ex) other = None ->
         _execute_builtin ex impl input_value
         = Raise (ExecutionError ("Unknown builtin function: " ++ other)%string)).
Proof.
  unfold _execute_builtin, impl_get_str, register_builtin. repeat split.
  - intros ->. cbn [bind builtins]. now rewrite dict_get_set_same.
  - intros other Hne ->. cbn [bind builtins].
    rewrite dict_get_set_other by congruence. reflexivity.
  - intros other -> Hnone. cbn [bind]. now rewrite Hnone.
Qed.

Lemma register_builtin_binds_late_witness :
  _execute_builtin
    (register_builtin (Executor_init no_host None) "sum" (fun _ => Ok (VNum 7)))
    [("type", VStr "builtin"); ("name", VStr "sum")] (VList [])
  = Ok (VNum 7).
Proof.
  destruct (register_builtin_binds_late (Executor_init no_host None)
              "sum" (fun _ => Ok (VNum 7))
              [("type", VStr "builtin"); ("name", VStr "sum")] (VList []))
    as [H _].
  apply H. reflexivity.
Defined.

Lemma scale_all_length (host : PythonHost) (fac : Value) (vs : list Value) :
  forall vs', scale_all host fac vs = Ok vs' ->
              List.length vs' = List.length vs.
Proof.
  induction vs as [|v vs IH]; intros vs' H; simpl in H.
  - now inversion H.
  - inv_bind H. inv_bind H. inversion H; subst. simpl. f_equal. now apply IH.
Qed.

(** X13: a unit conversion keeps the kind of its input: a list gives a
    list and a tuple a tuple, of the same length, and an input that is
    neither a number nor a sequence (a string, a record, [None]) is
    returned unchanged. *)
Theorem unit_conversion_keeps_container (host : PythonHost)
  (impl : list (string * Value)) (input_value result : Value) :
  _execute_unit_conversion host impl input_value = Ok result ->
  match input_value with
  | VList vs => exists vs', result = VList vs'
                            /\ List.length vs' = List.length vs
  | VTuple vs => exists vs', result = VTuple vs'
                             /\ List.length vs' = List.length vs
  | VNum _ | VBool _ => True
  | _ => result = input_value
  end.
Proof.
  unfold _execute_unit_conversion. intros H.
  destruct input_value; try (now inversion H); try exact I;
    inv_bind H; inversion H; subst; eexists; (split; [reflexivity|]);
    eapply scale_all_length; eauto.
Qed.

Lemma unit_conversion_keeps_container_witness :
  exists vs',
    VList [VNum (1 * 2); VNum (3 * 2)] = VList vs'
    /\ List.length vs' = List.length [VNum 1; VNum 3].
Proof.
  apply (unit_conversion_keeps_container arith_host
           [("type", VStr "unit_conversion"); ("factor", VNum 2)]
           (VList [VNum 1; VNum 3]) (VList [VNum (1 * 2); VNum (3 * 2)])).
  reflexivity.
Defined.

(** Induction on values, through the lists they nest. *)
Lemma Value_nested_ind (P : Value -> Prop) :
  P VNone -> (forall b, P (VBool b)) -> (forall q, P (VNum q)) ->
  (forall s, P (VStr s)) ->
  (forall vs, Forall P vs -> P (VList vs)) ->
  (forall vs, Forall P vs -> P (VTuple vs)) ->
  (forall kvs, Forall (fun kv => P (snd kv)) kvs -> P (VDict kvs)) ->
  forall v, P v.
Proof.
  intros HN HB HQ HS HL HT HD. fix IH 1. intros v.
  destruct v as [|b|q|s|vs|vs|kvs];
    [apply HN | apply HB | apply HQ | apply HS | | | ].
  - apply HL. revert vs. fix IHl 1. intros [|x r]; constructor;
      [apply IH | apply IHl].
  - apply HT. revert vs. fix IHl 1. intros [|x r]; constructor;
      [apply IH | apply IHl].
  - apply HD. revert kvs. fix IHl 1. intros [|[k x] r]; constructor;
      [apply IH | apply IHl].
Qed.

Lemma bind_no_raise {A B : Type} (m : outcome A) (k : A -> outcome B) :
  (forall e, m <> Raise e) -> (forall a e, k a <> Raise e) ->
  forall e, bind m k <> Raise e.
Proof.
  intros Hm Hk e. destruct m as [a|e'|]; cbn [bind];
    [apply Hk | exfalso; now apply (Hm e') | discriminate].
Qed.

Lemma build_json_no_raise (host : PythonHost)
  (local_vars : list (string * Value)) :
  forall spec e, build_json host local_vars spec <> Raise e.
Proof.
  intros spec. induction spec as [|b|q|s|vs IHvs|vs _|kvs IHkvs]
    using Value_nested_ind; intros e; try (simpl; discriminate).
  - simpl. destruct (py_eval host s json_builtins local_vars); discriminate.
  - cbn [build_json]. apply bind_no_raise; [|discriminate].
    induction IHvs as [|item items Hitem _ IHl]; intros e'; [discriminate|].
    apply bind_no_raise.
    + intros e''. destruct item; try discriminate. apply Hitem.
    + intros v e''. apply bind_no_raise; [exact IHl | discriminate].
  - cbn [build_json]. apply bind_no_raise; [|discriminate].
    generalize (@nil (string * Value)).
    induction IHkvs as [|[key value_spec] kvs Hv _ IHl]; intros acc e';
      [discriminate|].
    apply bind_no_raise; [exact Hv|]. intros v e''. apply IHl.
Qed.

(** X14: building a JSON value from a schema never raises: an
    expression that fails to evaluate is emitted as its own text. *)
Theorem json_schema_evaluation_never_raises (host : PythonHost)
  (ex : Executor) (schema : list (string * Value)) (input_value : Value)
  (e : exn) :
  _build_json_from_schema host ex schema input_value <> Raise e
  /\ _execute_json host ex [("type", VStr "json"); ("schema", VDict schema)]
                   input_value <> Raise e.
Proof.
  split; [apply build_json_no_raise|].
  unfold _execute_json. cbn [dict_get String.eqb Ascii.eqb Bool.eqb].
  apply build_json_no_raise.
Qed.

(* ================================================================= *)
(** ** The symbol table of formulas *)

Lemma dict_mem_set_mono {V : Type} (d : list (string * V)) k v k' :
  dict_mem d k' = true -> dict_mem (dict_set d k v) k' = true.
Proof.
  intros H. destruct (string_dec k k') as [->|Hne].
  - apply dict_mem_set_same.
  - now rewrite dict_mem_set_other.
Qed.

Lemma dict_mem_true_iff {V : Type} (d : list (string * V)) k :
  dict_mem d k = true <-> exists v, dict_get d k = Some v.
Proof.
  unfold dict_mem. destruct (dict_get d k) as [v|]; split; eauto;
    try discriminate.
  intros [v H]; discriminate.
Qed.

Lemma bind_free_identifiers (input_value : Value) (names : list string) :
  forall lv,
    let lv' :=
      fold_left
        (fun lv name =>
           if (negb (dict_mem lv name) && negb (set_mem name reserved))%bool
           then dict_set lv name input_value
           else lv) names lv in
    (forall k v, dict_get lv k = Some v -> dict_get lv' k = Some v)
    /\ (forall name, In name names -> set_mem name reserved = false ->
                     dict_mem lv' name = true).
Proof.
  induction names as [|n names IH]; intros lv; cbn zeta; cbn [fold_left].
  - split; [auto | intros name []].
  - set (lv1 := if (negb (dict_mem lv n) && negb (set_mem n reserved))%bool
                then dict_set lv n input_value else lv).
    destruct (IH lv1) as [Hkeep Hbound]. cbn zeta in Hkeep, Hbound.
    assert (Hstep : forall k v, dict_get lv k = Some v ->
                                dict_get lv1 k = Some v).
    { intros k v Hk. unfold lv1.
      destruct (dict_mem lv n) eqn:Em; cbn [negb andb]; [exact Hk|].
      destruct (set_mem n reserved); cbn [negb]; [exact Hk|].
      rewrite dict_get_set_other; [exact Hk|].
      intros ->. unfold dict_mem in Em. now rewrite Hk in Em. }
    split.
    + intros k v Hk. apply Hkeep. now apply Hstep.
    + intros name [<-|Hin] Hr; [|now apply Hbound].
      assert (H1 : dict_mem lv1 n = true).
      { unfold lv1. destruct (dict_mem lv n) eqn:Em; cbn [negb andb]; [exact Em|].
        rewrite Hr. cbn [negb]. apply dict_mem_set_same. }
      apply dict_mem_true_iff in H1. destruct H1 as [v E].
      apply dict_mem_true_iff. exists v. now apply Hkeep.
Qed.

(** X15: for an input that is neither a tuple nor a record, the symbol
    table of a formula binds [x], [input] and [value] to the input, binds
    every identifier of the expression that is not a reserved word, and
    leaves every constant or variable of another name at its value: a
    free identifier never shadows a constant. *)
Theorem formula_symbol_table_for_scalars (ex : Executor) (expr : string)
  (input_value : Value) :
  (forall vs, input_value <> VTuple vs) ->
  (forall kvs, input_value <> VDict kvs) ->
  let lv := formula_locals ex expr input_value in
  dict_get lv "x" = Some input_value
  /\ dict_get lv "input" = Some input_value
  /\ dict_get lv "value" = Some input_value
  /\ (forall name, In name (identifiers expr) ->
                   set_mem name reserved = false -> dict_mem lv name = true)
  /\ (forall name v,
         dict_get (base_locals ex) name = Some v ->
         name <> "x" -> name <> "input" -> name <> "value" ->
         dict_get lv name = Some v).
Proof.
  intros Ht Hd. cbn zeta.
  set (lv0 := dict_set (dict_set (dict_set (base_locals ex) "x" input_value)
                                 "input" input_value) "value" input_value).
  assert (Hl : formula_locals ex expr input_value
               = fold_left
                   (fun lv name =>
                      if (negb (dict_mem lv name)
                          && negb (set_mem name reserved))%bool
                      then dict_set lv name input_value
                      else lv) (identifiers expr) lv0).
  { unfold formula_locals.
    destruct input_value; try reflexivity;
      [exfalso; eapply Ht; reflexivity | exfalso; eapply Hd; reflexivity]. }
  rewrite Hl.
  destruct (bind_free_identifiers input_value (identifiers expr) lv0)
    as [Hkeep Hbound]. cbn zeta in Hkeep, Hbound.
  repeat split.
  - apply Hkeep. unfold lv0.
    rewrite !dict_get_set_other by discriminate. apply dict_get_set_same.
  - apply Hkeep. unfold lv0.
    rewrite dict_get_set_other by discriminate. apply dict_get_set_same.
  - apply Hkeep. unfold lv0. apply dict_get_set_same.
  - exact Hbound.
  - intros name v Hv Hx Hi Hva. apply Hkeep. unfold lv0.
    rewrite !dict_get_set_other by congruence. exact Hv.
Qed.

Lemma formula_symbol_table_for_scalars_witness :
  let lv := formula_locals (Executor_init no_host None)
              "co2 = fuel * emission_factor" (VNum 100) in
  dict_get lv "fuel" = Some (VNum 100)
  /\ dict_get lv "emission_factor" = Some (VNum (25 / 10)).
Proof.
  destruct (formula_symbol_table_for_scalars (Executor_init no_host None)
              "co2 = fuel * emission_factor" (VNum 100))
    as (_ & _ & _ & _ & Hconst); [discriminate | discriminate |].
  split; [reflexivity|].
  apply Hconst; [reflexivity | discriminate | discriminate | discriminate].
Defined.

(* ================================================================= *)
(** ** Linear plans as DAGs *)

(** X16: a search from a type to itself returns exactly one result, the
    identity at cost 0 and confidence 1, whatever the catalog holds. *)
Theorem synthesize_backward_same_type (catalog : Catalog) (t : string)
  (max_cost : Q) (max_results : Z) (fuel : nat) :
  (2 <= fuel)%nat -> (0 < max_results)%Z ->
  synthesize_backward fuel catalog t t max_cost max_results
  = Ok [identity_result t].
Proof.
  intros Hf Hm. destruct fuel as [|[|fuel]]; try lia.
  unfold synthesize_backward, discovered.
  cbn [search_loop List.length Z.of_nat].
  assert (H0 : (0 <? max_results)%Z = true) by now apply Z.ltb_lt.
  rewrite H0. cbn [negb heappop e_type]. rewrite String.eqb_refl.
  cbn [e_path result_proof bind app List.length].
  destruct (negb (Z.of_nat 1 <? max_results)%Z); reflexivity.
Qed.

Lemma synthesize_backward_same_type_witness :
  synthesize_backward 2 linear_catalog "A" "A" 100 10
  = Ok [identity_result "A"].
Proof.
  apply (synthesize_backward_same_type linear_catalog "A" 100 10 2); lia.
Defined.

(** X17: executing the two-node DAG that wraps a linear result, with the
    value of its source given under the source id, is executing the path
    of that result on the value. *)
Theorem single_path_dag_runs_the_path (host : PythonHost) (ex : Executor)
  (src_id src_type goal_type : string) (r : SynthesisResult) (v : Value)
  (fuel : nat) :
  src_id <> "goal" -> (2 <= fuel)%nat ->
  execute_dag host fuel ex (_single_path_to_dag src_id src_type goal_type r)
              [(src_id, v)]
  = execute_path host ex (sr_path r) v.
Proof.
  intros Hne Hf. destruct fuel as [|[|fuel]]; try lia.
  assert (E1 : String.eqb src_id "goal" = false).
  { destruct (String.eqb src_id "goal") eqn:E; [|reflexivity].
    apply String.eqb_eq in E. contradiction. }
  assert (E2 : String.eqb "goal" src_id = false)
    by (rewrite String.eqb_sym; exact E1).
  unfold execute_dag, topological_order, _single_path_to_dag.
  cbn [nodes goal_node dict_set]. rewrite E1.
  cbn [visit set_mem existsb fst snd dict_get]. rewrite E1.
  cbn [dict_get]. rewrite String.eqb_refl.
  cbn [n_inputs fold_bind visit set_mem existsb fst snd orb bind].
  rewrite E1. cbn [orb dict_get]. rewrite String.eqb_refl.
  cbn [n_inputs source_node fold_bind bind fst snd app].
  unfold execute_nodes. cbn [fold_bind].
  unfold execute_node at 1. cbn [nodes dict_get]. rewrite String.eqb_refl.
  cbn [n_node_type source_node String.eqb Ascii.eqb Bool.eqb].
  unfold bind_source. cbn [dict_get]. rewrite String.eqb_refl. cbn [bind dict_set].
  unfold execute_node. cbn [nodes dict_get]. rewrite E1, String.eqb_refl.
  cbn [n_node_type String.eqb Ascii.eqb Bool.eqb orb n_inputs].
  unfold node_value at 1. cbn [dict_get]. rewrite String.eqb_refl. cbn [bind].
  unfold apply_node. cbn [n_path n_func].
  destruct (sr_path r) as [|f path] eqn:Ep.
  - cbn [last_func bind dict_set execute_path]. rewrite E1.
    unfold node_value. cbn [dict_get]. rewrite E1, String.eqb_refl. reflexivity.
  - destruct (execute_path host ex (f :: path) v) as [res| |]; cbn [bind];
      try reflexivity.
    cbn [dict_set]. rewrite E1. unfold node_value. cbn [dict_get].
    rewrite E1, String.eqb_refl. reflexivity.
Qed.

Lemma single_path_dag_runs_the_path_witness :
  execute_dag no_host 2 (Executor_init no_host None)
    (_single_path_to_dag "s" "A" "A" (identity_result "A")) [("s", VNum 3)]
  = Ok (VNum 3).
Proof.
  rewrite (single_path_dag_runs_the_path no_host (Executor_init no_host None)
             "s" "A" "A" (identity_result "A") (VNum 3) 2).
  - reflexivity.
  - discriminate.
  - lia.
Defined.

(** X18: on a built catalog with non-negative costs, with a single
    source and no chain of catalog functions from its type to the goal
    type, [synthesize_and_execute] raises the no-path execution error,
    whatever the budget. *)
Theorem synthesize_and_execute_without_a_plan (host : PythonHost)
  (catalog : Catalog) (src_type : string) (src_value : Value)
  (goal : string) (ctx : option ExecutionContext) (max_cost : Q)
  (fuel : nat) :
  built catalog -> nonneg_funcs catalog ->
  (search_fuel catalog <= fuel)%nat ->
  (forall path, ~ route catalog src_type goal path) ->
  synthesize_and_execute host fuel catalog [(src_type, src_value)] goal ctx
                         max_cost
  = Raise (ExecutionError
             ("No path found from " ++ src_type ++ " to " ++ goal)%string).
Proof.
  intros Hb Hnf Hf Hno. pose proof (built_nonneg catalog Hb Hnf) as Hn.
  destruct (synthesize_backward_terminates catalog src_type goal max_cost
              default_max_results fuel Hn Hf) as [ds [Hd Hs]].
  unfold synthesize_and_execute. rewrite Hs. cbn [bind].
  pose proof (discovered_routes _ _ _ _ _ _ _ Hb Hd) as Hp.
  destruct ds as [|r ds]; [reflexivity|].
  inversion Hp as [|? ? Hr _]; subst. now apply Hno in Hr.
Qed.

Lemma no_function_into_A (path : list Func) :
  ~ route one_catalog "B" "A" path.
Proof.
  apply route_needs_a_function; [repeat constructor | reflexivity|].
  discriminate.
Qed.

Lemma synthesize_and_execute_without_a_plan_witness :
  synthesize_and_execute no_host 10 one_catalog [("B", VNum 1)] "A" None (-1)
  = Raise (ExecutionError "No path found from B to A").
Proof.
  apply (synthesize_and_execute_without_a_plan no_host one_catalog "B" (VNum 1)
           "A" None (-1) 10).
  - repeat constructor.
  - repeat constructor. discriminate.
  - vm_compute; lia.
  - exact no_function_into_A.
Defined.

(* ================================================================= *)
(** ** Ties in the selection *)

Lemma filter_head_split {A : Type} (f : A -> bool) (l : list A) (d : A)
  (tl : list A) :
  filter f l = d :: tl ->
  exists l1 l2, l = l1 ++ d :: l2 /\ Forall (fun x => f x = false) l1.
Proof.
  induction l as [|x l IH]; simpl; [discriminate|].
  destruct (f x) eqn:E.
  - intros H; inversion H; subst. exists [], l. split; [reflexivity | constructor].
  - intros H. destruct (IH H) as (l1 & l2 & -> & Hall).
    exists (x :: l1), l2. split; [reflexivity | constructor; assumption].
Qed.

(** X19: when cost decides ([prefer_multiarg] false), the DAG returned is
    the first of the cheapest candidates in the order Strategy A,
    Strategy B, Strategy C: every candidate before it is strictly more
    expensive. *)
Theorem cost_ties_go_to_the_earlier_strategy (ma pr si : list SynthesisDAG)
  (d : SynthesisDAG) :
  select_result false ma pr si = Some d ->
  exists before after,
    ma ++ pr ++ si = before ++ d :: after
    /\ Forall (fun x => (total_cost d < total_cost x)%Q) before
    /\ Forall (fun x => (total_cost d <= total_cost x)%Q) after.
Proof.
  unfold select_result. intros H.
  destruct (sorted total_cost (ma ++ pr ++ si)) as [|d' rest] eqn:E;
    [discriminate|].
  inversion H; subst d'.
  destruct (sorted_head_first total_cost _ _ _ E) as [tl Hk].
  destruct (sorted_head_min total_cost _ _ _ E) as [_ Hmin].
  unfold with_key in Hk.
  destruct (filter_head_split _ _ _ _ Hk) as (l1 & l2 & Hl & Hall).
  exists l1, l2. split; [exact Hl|]. split.
  - apply Forall_forall. intros x Hx.
    rewrite Forall_forall in Hall. specialize (Hall x Hx).
    assert (Hle : (total_cost d <= total_cost x)%Q).
    { apply Hmin. rewrite Hl. apply in_or_app. now left. }
    apply Qle_lteq in Hle. destruct Hle as [Hlt|Heq]; [exact Hlt|].
    assert (Qeq_bool (total_cost x) (total_cost d) = true)
      by (apply Qeq_bool_iff; now symmetry).
    congruence.
  - apply Forall_forall. intros x Hx. apply Hmin. rewrite Hl.
    apply in_or_app. right. now right.
Qed.

Lemma cost_ties_go_to_the_earlier_strategy_witness :
  exists before after,
    [_single_path_to_dag "a" "A" "A" (identity_result "A")] ++ []
      ++ [_single_path_to_dag "b" "A" "A" (identity_result "A")]
    = before
        ++ _single_path_to_dag "a" "A" "A" (identity_result "A") :: after
    /\ Forall (fun x =>
                 (total_cost (_single_path_to_dag "a" "A" "A"
                                (identity_result "A")) < total_cost x)%Q)
              before
    /\ Forall (fun x =>
                 (total_cost (_single_path_to_dag "a" "A" "A"
                                (identity_result "A")) <= total_cost x)%Q)
              after.
Proof.
  apply (cost_ties_go_to_the_earlier_strategy
           [_single_path_to_dag "a" "A" "A" (identity_result "A")] []
           [_single_path_to_dag "b" "A" "A" (identity_result "A")]).
  reflexivity.
Defined.

(* ================================================================= *)
(** ** The size of a tracked graph *)

(** X20: a sequence of tracked calls returns one id per call and adds to
    the graph one generation per call and one usage and one derivation
    per input of each call. *)
Theorem tracked_calls_add_one_edge_per_input (calls : list Call) :
  forall t w outs t' w',
    enabled t = true ->
    track_all t w calls = (outs, t', w') ->
    List.length outs = List.length calls
    /\ List.length (generations (graph t'))
       = (List.length (generations (graph t)) + List.length calls)%nat
    /\ List.length (usages (graph t'))
       = (List.length (usages (graph t)) + total_inputs calls)%nat
    /\ List.length (derivations (graph t'))
       = (List.length (derivations (graph t)) + total_inputs calls)%nat.
Proof.
  induction calls as [|c calls IH]; intros t w outs t' w' He H; simpl in H.
  - inversion H; subst. simpl. repeat split; lia.
  - destruct (track_function_execution t w (call_func_id c)
                (call_func_signature c) (call_inputs c) (call_output_value c)
                (call_output_type c)) as [[out t1] w1] eqn:H1.
    destruct (track_all t1 w1 calls) as [[outs' t2] w2] eqn:H2.
    inversion H; subst outs t' w'; clear H.
    destruct (track_function_execution_spec _ _ _ _ _ _ He H1)
      as (E & A & ts & us & _ & He1 & Hg & Hu & Hm & Hd).
    destruct (IH _ _ _ _ _ He1 H2) as (Hlo & Hlg & Hlu & Hld).
    assert (Hus : List.length us = List.length (call_inputs c)).
    { apply (f_equal (@List.length _)) in Hm. now rewrite !length_map in Hm. }
    rewrite Hlg, Hlu, Hld, Hg, Hu, Hd, !length_app, length_map, Hus.
    simpl. repeat split; lia.
Qed.

Lemma tracked_calls_add_one_edge_per_input_witness :
  let calls := [mkCall "f" "A -> B" ["src"] (VNum 1) "B";
                mkCall "agg" "(B, C) -> G" ["entity_1"; "c"] (VNum 2) "G"] in
  let '(t0, w0) := ProvenanceTracker_init None counting_world in
  let '(outs, t', _) := track_all t0 w0 calls in
  List.length outs = 2%nat
  /\ List.length (generations (graph t')) = 2%nat
  /\ List.length (usages (graph t')) = 3%nat
  /\ List.length (derivations (graph t')) = 3%nat.
Proof.
  cbv zeta.
  destruct (ProvenanceTracker_init None counting_world) as [t0 w0] eqn:H0.
  destruct (track_all t0 w0
              [mkCall "f" "A -> B" ["src"] (VNum 1) "B";
               mkCall "agg" "(B, C) -> G" ["entity_1"; "c"] (VNum 2) "G"])
    as [[outs t'] w'] eqn:H.
  assert (He : enabled t0 = true) by (vm_compute in H0; now inversion H0).
  assert (Hg : graph t0 = fst (ProvenanceGraph_init default_namespace
                                                     counting_world))
    by (vm_compute in H0; now inversion H0).
  destruct (tracked_calls_add_one_edge_per_input _ _ _ _ _ _ He H)
    as (H1 & H2 & H3 & H4).
  rewrite Hg in H2, H3, H4. exact (conj H1 (conj H2 (conj H3 H4))).
Defined.

(* ================================================================= *)
(** ** Lineage queries *)

Lemma derivation_source_In (g : ProvenanceGraph) (c s : string) :
  derivation_source g c = Some s ->
  In s (map source_entity_id (derivations g)).
Proof.
  unfold derivation_source.
  destruct (find (fun d => String.eqb (derived_entity_id d) c) (derivations g))
    as [d|] eqn:E; [|discriminate].
  intros H; inversion H; subst. apply find_some in E. destruct E as [E _].
  now apply in_map.
Qed.

Lemma lineage_loop_spec (g : ProvenanceGraph) (universe : list string) :
  incl (map source_entity_id (derivations g)) universe ->
  forall fuel current lineage visited,
    NoDup visited -> incl visited universe ->
    (forall c, current = Some c -> In c universe) ->
    lineage = rev visited ->
    (List.length universe - List.length visited < fuel)%nat ->
    exists l,
      lineage_loop fuel g current lineage visited = Ok l
      /\ NoDup l
      /\ exists more, l = lineage ++ more.
Proof.
  intros Hsrc. induction fuel as [|fuel IH];
    intros current lineage visited Hnd Hincl Hcur Hl Hf; [lia|].
  assert (Hndl : NoDup lineage) by (subst; now apply NoDup_rev).
  cbn [lineage_loop]. destruct current as [c|].
  - destruct (String.eqb c "" || set_mem c visited)%bool eqn:E.
    + exists lineage. split; [reflexivity|]. split; [exact Hndl|].
      exists []. now rewrite app_nil_r.
    + apply orb_false_iff in E. destruct E as [_ E].
      assert (Hnin : ~ In c visited).
      { intros Hin. apply set_mem_In in Hin. congruence. }
      assert (Hnd' : NoDup (c :: visited)) by now constructor.
      assert (Hincl' : incl (c :: visited) universe).
      { intros x [<-|Hx]; [now apply Hcur | now apply Hincl]. }
      pose proof (NoDup_incl_length Hnd' Hincl') as Hlen. simpl in Hlen.
      destruct (IH (derivation_source g c) (lineage ++ [c]) (c :: visited))
        as (l & Hl' & Hndl' & more & Hmore); try assumption.
      * intros s Hs. apply Hsrc. now apply derivation_source_In in Hs.
      * simpl. now rewrite Hl.
      * simpl. lia.
      * exists l. split; [exact Hl'|]. split; [exact Hndl'|].
        exists (c :: more). now rewrite Hmore, <- app_assoc.
  - exists lineage. split; [reflexivity|]. split; [exact Hndl|].
    exists []. now rewrite app_nil_r.
Qed.

(** X21: a lineage walk always ends, within one step per derivation edge
    of the graph, also when the derivation edges form a cycle; the
    lineage lists no entity twice, and starts with the entity asked for
    when its id is not empty. *)
Theorem entity_lineage_terminates (g : ProvenanceGraph) (entity_id : string)
  (fuel : nat) :
  (lineage_fuel g <= fuel)%nat ->
  exists l,
    get_entity_lineage fuel g entity_id = Ok l
    /\ NoDup l
    /\ (entity_id <> "" -> exists rest, l = entity_id :: rest).
Proof.
  intros Hf. unfold get_entity_lineage, lineage_fuel in *.
  destruct (lineage_loop_spec g
              (entity_id :: map source_entity_id (derivations g))
              (fun x Hx => or_intror Hx)
              fuel (Some entity_id) [] [])
    as (l & Hl & Hnd & more & Hmore).
  - constructor.
  - intros x [].
  - intros c Hc. inversion Hc; subst. now left.
  - reflexivity.
  - simpl. rewrite length_map. lia.
  - exists l. split; [exact Hl|]. split; [exact Hnd|].
    intros Hne. destruct fuel as [|fuel]; [lia|].
    cbn [lineage_loop set_mem existsb orb] in Hl.
    destruct (String.eqb entity_id "") eqn:E;
      [apply String.eqb_eq in E; contradiction|].
    cbn [orb] in Hl.
    destruct (lineage_loop_spec g
                (entity_id :: map source_entity_id (derivations g))
                (fun x Hx => or_intror Hx)
                fuel (derivation_source g entity_id) [entity_id] [entity_id])
      as (l' & Hl' & _ & more' & Hmore').
    + repeat constructor. intros [].
    + intros x [<-|[]]. now left.
    + intros c Hc. right. now apply derivation_source_In in Hc.
    + reflexivity.
    + simpl. rewrite length_map. lia.
    + cbn [app] in Hl. rewrite Hl' in Hl. inversion Hl; subst.
      simpl. eauto.
Qed.

Lemma entity_lineage_terminates_witness :
  exists l,
    get_entity_lineage 4
      (add_derivation
         (add_derivation
            (fst (ProvenanceGraph_init default_namespace counting_world))
            "b" "a" None) "a" "b" None) "b" = Ok l
    /\ NoDup l
    /\ ("b" <> "" -> exists rest, l = "b" :: rest).
Proof.
  apply (entity_lineage_terminates
           (add_derivation
              (add_derivation
                 (fst (ProvenanceGraph_init default_namespace counting_world))
                 "b" "a" None) "a" "b" None) "b" 4).
  vm_compute; lia.
Defined.

(* ================================================================= *)
(** ** The DAG of Strategy A *)

Lemma supplies_sources (fuel : nat) (catalog : Catalog)
  (sources : list (string * string)) (remaining : Q)
  (required : list string) (st st' : ArgState) :
  supplies fuel catalog sources remaining required st st' ->
  Forall (fun a => In (fst a) (map fst sources)) (arg_results st) ->
  Forall (fun a => In (fst a) (map fst sources)) (arg_results st').
Proof.
  induction 1 as [st|T rest st st' s Hin _ _ IH
                 |T rest st st' s ty r rs _ Hin _ _ IH]; intros Hall;
    [exact Hall| |]; apply IH; cbn [arg_results];
    (apply Forall_app; split; [exact Hall|]); constructor; try constructor;
    cbn [fst]; apply (in_map fst) in Hin; exact Hin.
Qed.

Lemma add_source_nodes_keys (sources : list (string * string)) :
  forall s, In s (map fst sources) ->
            dict_mem (add_source_nodes sources) s = true.
Proof.
  unfold add_source_nodes.
  assert (G : forall (acc : list (string * DAGNode)) s,
             dict_mem acc s = true \/ In s (map fst sources) ->
             dict_mem (fold_left
                         (fun nodes '(src_id, src_type) =>
                            dict_set nodes src_id (source_node src_id src_type))
                         sources acc) s = true).
  { induction sources as [|[i ty] rest IH]; intros acc s [H|H]; simpl;
      try assumption; try contradiction.
    - apply IH. left. now apply dict_mem_set_mono.
    - destruct H as [<-|H]; apply IH; [left; apply dict_mem_set_same | now right]. }
  intros s Hs. apply G. now right.
Qed.

Lemma build_step_inputs (T : string) (i : nat) (s : string)
  (r : SynthesisResult) (st : BuildState) :
  dict_mem (bs_nodes st) s = true ->
  Forall (fun k => dict_mem (bs_nodes st) k = true) (bs_inputs st) ->
  let st' := build_step T i s r st in
  List.length (bs_inputs st') = S (List.length (bs_inputs st))
  /\ Forall (fun k => dict_mem (bs_nodes st') k = true) (bs_inputs st')
  /\ (forall k, dict_mem (bs_nodes st) k = true ->
                dict_mem (bs_nodes st') k = true).
Proof.
  intros Hs Hall. cbn zeta. unfold build_step.
  destruct (sr_path r) as [|f path]; cbn [bs_inputs bs_nodes];
    rewrite length_app; simpl.
  - split; [lia|]. split; [|auto].
    apply Forall_app. split; [exact Hall | constructor; [exact Hs | constructor]].
  - split; [lia|]. split; [|intros k Hk; now apply dict_mem_set_mono].
    apply Forall_app. split.
    + eapply Forall_impl; [|exact Hall]. intros k Hk. now apply dict_mem_set_mono.
    + constructor; [apply dict_mem_set_same | constructor].
Qed.

Lemma build_arg_nodes_inputs (g : Func) (args : list (string * SynthesisResult)) :
  forall i st st',
    Forall (fun a => dict_mem (bs_nodes st) (fst a) = true) args ->
    Forall (fun k => dict_mem (bs_nodes st) k = true) (bs_inputs st) ->
    build_arg_nodes g i args st = Ok st' ->
    List.length (bs_inputs st')
    = (List.length (bs_inputs st) + List.length args)%nat
    /\ Forall (fun k => dict_mem (bs_nodes st') k = true) (bs_inputs st').
Proof.
  induction args as [|[s r] args IH]; intros i st st' Ha Hi H; simpl in H.
  - inversion H; subst. split; [simpl; lia | exact Hi].
  - destruct (nth_error (dom_types g) i) as [T|]; [|discriminate].
    inversion Ha as [|? ? Hs Ha']; subst. cbn [fst] in Hs.
    destruct (build_step_inputs T i s r st Hs Hi) as (Hl & Hall & Hmono).
    cbn zeta in Hl, Hall, Hmono.
    destruct (IH (S i) (build_step T i s r st) st') as [Hl' Hall'];
      [|exact Hall|exact H|].
    + eapply Forall_impl; [|exact Ha']. intros a Hk. now apply Hmono.
    + split; [rewrite Hl', Hl; simpl; lia | exact Hall'].
Qed.

(** X23: the DAG Strategy A builds for an aggregator [g] has the node
    ["goal"] as its goal, carrying [g], with one input per argument of
    [g], and every input of that node names a node of the DAG; its source
    nodes are the ids of the sources. *)
Theorem strategy_A_dag_is_well_formed (catalog : Catalog)
  (sources : list (string * string)) (goal_type : string) (g : Func)
  (max_cost : Q) (fuel : nat) :
  nonneg_costs catalog -> (search_fuel catalog <= fuel)%nat ->
  exists o,
    _try_synthesize_multiarg_func fuel catalog sources goal_type g max_cost
    = Ok o
    /\ forall d, o = Some d ->
         goal_node d = "goal"
         /\ source_nodes d = map fst sources
         /\ exists gn,
              dict_get (nodes d) "goal" = Some gn
              /\ n_func gn = Some g
              /\ n_type_name gn = goal_type
              /\ List.length (n_inputs gn) = arity g
              /\ Forall (fun k => dict_mem (nodes d) k = true) (n_inputs gn).
Proof.
  intros Hn Hf. unfold _try_synthesize_multiarg_func.
  destruct (resolve_args_total catalog fuel Hn Hf sources
              (max_cost - f_cost g)%Q (dom_types g)
              (mkArgState [] (f_cost g) (f_conf g) []))
    as [o [Ho Hp]]; [constructor|].
  rewrite Ho. cbn [bind]. destruct o as [st|];
    [|eexists; split; [reflexivity | discriminate]].
  destruct (Hp st eq_refl) as (Hsup & _ & new & Hnew & Hlen & Hcost).
  pose proof (supplies_sources _ _ _ _ _ _ _ Hsup (Forall_nil _)) as Hsrc.
  simpl in Hnew. unfold _build_dag_from_multiarg.
  destruct (build_arg_nodes_spec g (arg_results st) 0
              (mkBuildState (add_source_nodes sources) [] []))
    as (bst & Hb & _ & _);
    [rewrite Hnew; simpl; lia | apply keys_ok_sources |].
  rewrite Hb. cbn [bind].
  destruct (make_composition_Ok (make_tuple (bs_proofs bst)) [make_func g])
    as [q Hq].
  rewrite Hq. cbn [bind]. eexists. split; [reflexivity|].
  intros d Hd. inversion Hd; subst d; clear Hd.
  cbn [goal_node source_nodes nodes].
  split; [reflexivity|]. split; [reflexivity|].
  rewrite dict_get_set_same. eexists. split; [reflexivity|].
  cbn [n_func n_type_name n_inputs].
  destruct (build_arg_nodes_inputs g (arg_results st) 0
              (mkBuildState (add_source_nodes sources) [] []) bst)
    as [Hl Hall]; [| |exact Hb|].
  - cbn [bs_nodes]. eapply Forall_impl; [|exact Hsrc].
    intros a Ha. now apply add_source_nodes_keys.
  - constructor.
  - repeat split.
    + rewrite Hl, Hnew. simpl. exact Hlen.
    + eapply Forall_impl; [|exact Hall]. intros k Hk.
      now apply dict_mem_set_mono.
Qed.

Lemma strategy_A_dag_is_well_formed_witness :
  exists o,
    _try_synthesize_multiarg_func 10 pair_catalog [("a", "A")] "G"
      (fn "agg" (Multi ["A"; "B"]) "G" 1 1) 100 = Ok o
    /\ forall d, o = Some d ->
         goal_node d = "goal"
         /\ source_nodes d = map fst [("a", "A")]
         /\ exists gn,
              dict_get (nodes d) "goal" = Some gn
              /\ n_func gn = Some (fn "agg" (Multi ["A"; "B"]) "G" 1 1)
              /\ n_type_name gn = "G"
              /\ List.length (n_inputs gn)
                 = arity (fn "agg" (Multi ["A"; "B"]) "G" 1 1)
              /\ Forall (fun k => dict_mem (nodes d) k = true) (n_inputs gn).
Proof.
  apply (strategy_A_dag_is_well_formed pair_catalog [("a", "A")] "G"
           (fn "agg" (Multi ["A"; "B"]) "G" 1 1) 100 10).
  - nonneg_by_computation.
  - vm_compute; lia.
Defined.

(* ================================================================= *)
(** ** The topological order *)

Lemma visit_post_refl (nodes : list (string * DAGNode))
  (st : list string * list string) : visit_post nodes st st.
Proof.
  exists []. split; [now rewrite app_nil_r|]. split; [constructor|].
  split; [intros x []|].
  split; [intros x; split; [auto | intros [H|[]]; exact H]|].
  intros x [].
Qed.

Lemma visit_post_trans (nodes : list (string * DAGNode))
  (st1 st2 st3 : list string * list string) :
  visit_post nodes st1 st2 -> visit_post nodes st2 st3 ->
  visit_post nodes st1 st3.
Proof.
  intros (n1 & O1 & D1 & F1 & V1 & C1) (n2 & O2 & D2 & F2 & V2 & C2).
  exists (n1 ++ n2). split; [now rewrite O2, O1, app_assoc|].
  split.
  { apply NoDup_app; try assumption.
    intros x H1 H2. apply (F2 x H2). apply V1. now right. }
  split.
  { intros x Hx Hin. apply in_app_or in Hx. destruct Hx as [Hx|Hx].
    - now apply (F1 x Hx).
    - apply (F2 x Hx). apply V1. now left. }
  split.
  { intros x. rewrite V2, V1, in_app_iff. tauto. }
  intros x Hx. apply in_app_or in Hx. destruct Hx as [Hx|Hx].
  - destruct (C1 x Hx) as (n & Hn & Hi). exists n. split; [exact Hn|].
    intros i Hin. apply V2. left. now apply Hi.
  - now apply C2.
Qed.

Lemma fold_visit_post (nodes : list (string * DAGNode)) (fuel : nat) :
  (forall id st st', visit fuel nodes id st = Ok st' ->
                     visit_post nodes st st' /\ In id (fst st')) ->
  forall ids st st',
    fold_bind (visit fuel nodes) ids st = Ok st' ->
    visit_post nodes st st' /\ forall i, In i ids -> In i (fst st').
Proof.
  intros Hv. induction ids as [|id ids IH]; intros st st' H; simpl in H.
  - inversion H; subst. split; [apply visit_post_refl | contradiction].
  - inv_bind H. destruct (Hv _ _ _ Ha) as [P1 I1].
    destruct (IH _ _ H) as [P2 I2].
    split; [eapply visit_post_trans; eauto|].
    intros i [<-|Hi]; [|now apply I2].
    destruct P2 as (n2 & _ & _ & _ & V2 & _). apply V2. now left.
Qed.

Lemma visit_spec (nodes : list (string * DAGNode)) :
  forall fuel id st st',
    visit fuel nodes id st = Ok st' ->
    (visit_post nodes st st' /\ In id (fst st'))
    /\ (~ In id (fst st) -> exists pre, snd st' = snd st ++ pre ++ [id]).
Proof.
  induction fuel as [|fuel IH]; intros id st st' H; [discriminate|].
  cbn [visit] in H. destruct (set_mem id (fst st)) eqn:Em.
  - inversion H; subst. apply set_mem_In in Em.
    split; [split; [apply visit_post_refl | exact Em] | contradiction].
  - assert (Hnin : ~ In id (fst st)).
    { intros Hin. apply set_mem_In in Hin. congruence. }
    destruct (dict_get nodes id) as [n|] eqn:En; [|discriminate].
    inv_bind H. inversion H; subst st'; clear H. cbn [fst snd].
    destruct (fold_visit_post nodes fuel (fun i s s' Hs => proj1 (IH i s s' Hs))
                _ _ _ Ha) as [(new & O1 & D1 & F1 & V1 & C1) Hin].
    cbn [fst snd] in *.
    split; [split|].
    + exists (new ++ [id]). split; [now rewrite O1, app_assoc|].
      split.
      { apply NoDup_app; try assumption; [repeat constructor; intros []|].
        intros x Hx [Heq|[]]. apply (F1 x Hx). left. exact Heq. }
      split.
      { intros x Hx Hv. apply in_app_or in Hx. destruct Hx as [Hx|[Heq|[]]].
        - apply (F1 x Hx). now right.
        - subst x. contradiction. }
      split.
      { intros x. rewrite V1, in_app_iff. simpl. tauto. }
      intros x Hx. apply in_app_or in Hx. destruct Hx as [Hx|[Heq|[]]].
      * now apply C1.
      * subst x. exists n. split; [exact En | exact Hin].
    + apply V1. left. now left.
    + intros _. exists new. now rewrite O1, app_assoc.
Qed.

Lemma filter_length_le {A : Type} (f g : A -> bool) (l : list A) :
  (forall x, g x = true -> f x = true) ->
  (List.length (filter g l) <= List.length (filter f l))%nat.
Proof.
  intros H. induction l as [|x l IH]; simpl; [lia|].
  destruct (g x) eqn:Eg; [rewrite (H x Eg); simpl; lia|].
  destruct (f x); simpl; lia.
Qed.

Lemma filter_length_lt {A : Type} (f g : A -> bool) (l : list A) (a : A) :
  (forall x, g x = true -> f x = true) ->
  In a l -> f a = true -> g a = false ->
  (List.length (filter g l) < List.length (filter f l))%nat.
Proof.
  intros H. induction l as [|x l IH]; intros Hin Hf Hg; [contradiction|].
  simpl. destruct Hin as [->|Hin].
  - rewrite Hf, Hg. simpl. pose proof (filter_length_le f g l H). lia.
  - specialize (IH Hin Hf Hg).
    destruct (g x) eqn:Eg; [rewrite (H x Eg); simpl; lia|].
    destruct (f x); simpl; lia.
Qed.

Lemma unvisited_mono (nodes : list (string * DAGNode)) (V V' : list string) :
  incl V V' -> (unvisited nodes V' <= unvisited nodes V)%nat.
Proof.
  intros Hi. unfold unvisited. apply filter_length_le.
  intros [k n] Hk. cbn [fst] in *. apply negb_true_iff in Hk.
  apply negb_true_iff. destruct (set_mem k V) eqn:E; [|reflexivity].
  apply set_mem_In in E. apply Hi in E. apply set_mem_In in E. congruence.
Qed.

Lemma unvisited_cons_lt (nodes : list (string * DAGNode)) (V : list string)
  (x : string) :
  dict_mem nodes x = true -> set_mem x V = false ->
  (unvisited nodes (x :: V) < unvisited nodes V)%nat.
Proof.
  intros Hm Hv. apply dict_mem_true_iff in Hm. destruct Hm as [n Hn].
  apply dict_get_In in Hn. unfold unvisited.
  apply (filter_length_lt _ _ nodes (x, n)); try assumption.
  - intros [k m] Hk. cbn [fst] in *. apply negb_true_iff in Hk.
    apply negb_true_iff. destruct (set_mem k V) eqn:E; [|reflexivity].
    apply set_mem_In in E.
    assert (set_mem k (x :: V) = true) by (apply set_mem_In; now right).
    congruence.
  - cbn [fst]. now rewrite Hv.
  - cbn [fst]. apply negb_false_iff. apply set_mem_In. now left.
Qed.

Lemma visit_terminates (nodes : list (string * DAGNode)) :
  inputs_closed nodes ->
  forall fuel id st,
    dict_mem nodes id = true \/ In id (fst st) ->
    (unvisited nodes (fst st) < fuel)%nat ->
    exists st', visit fuel nodes id st = Ok st'.
Proof.
  intros Hc. induction fuel as [|fuel IH]; intros id st Hid Hf; [lia|].
  cbn [visit]. destruct (set_mem id (fst st)) eqn:Em; [eauto|].
  assert (Hk : dict_mem nodes id = true).
  { destruct Hid as [H|H]; [exact H|]. apply set_mem_In in H. congruence. }
  pose proof Hk as Hk'. unfold dict_mem in Hk'.
  destruct (dict_get nodes id) as [n|] eqn:En; [|discriminate].
  pose proof (unvisited_cons_lt nodes (fst st) id Hk Em) as Hlt.
  assert (Hfold : forall ids s,
             (forall i, In i ids -> dict_mem nodes i = true) ->
             (unvisited nodes (fst s) < fuel)%nat ->
             exists s', fold_bind (visit fuel nodes) ids s = Ok s').
  { induction ids as [|i ids IHi]; intros s Hin Hs; simpl; [eauto|].
    destruct (IH i s) as [s1 H1]; [left; apply Hin; now left | exact Hs |].
    rewrite H1. cbn [bind]. apply IHi; [intros; apply Hin; now right|].
    destruct (visit_spec nodes fuel i s s1 H1)
      as [[(new & _ & _ & _ & V1 & _) _] _].
    eapply Nat.le_lt_trans; [|exact Hs]. apply unvisited_mono.
    intros x Hx. apply V1. now left. }
  destruct (Hfold (n_inputs n) (id :: fst st, snd st)) as [s' Hs'].
  - intros i Hi. eapply Hc; eauto.
  - cbn [fst]. lia.
  - rewrite Hs'. cbn [bind]. eauto.
Qed.

Lemma split_at_last {A : Type} (before after l : list A) (x y : A) :
  before ++ x :: after = l ++ [y] ->
  (after = [] /\ before = l /\ x = y)
  \/ exists after', after = after' ++ [y] /\ l = before ++ x :: after'.
Proof.
  intros H. destruct after as [|a after0].
  - left. apply app_inj_tail in H. destruct H; auto.
  - right.
    destruct (exists_last (l := a :: after0)) as (after' & z & E);
      [discriminate|].
    rewrite E in H |- *.
    change (before ++ x :: after' ++ [z])
      with (before ++ (x :: after') ++ [z]) in H.
    rewrite app_assoc in H. apply app_inj_tail in H.
    destruct H as [H ->]. exists after'. split; [reflexivity | now symmetry].
Qed.

(** With ranked inputs a node under visit is no input of a node below
    it, so every input is in the order by the time its node is added. *)
Lemma visit_ordered (nodes : list (string * DAGNode)) (rank : string -> nat) :
  ranked rank nodes ->
  forall fuel id st st' stack,
    visit fuel nodes id st = Ok st' ->
    (forall x, In x stack -> (rank id < rank x)%nat) ->
    (forall x, In x (fst st) -> In x stack \/ In x (snd st)) ->
    inputs_first nodes (snd st) ->
    (forall x, In x (fst st') -> In x stack \/ In x (snd st'))
    /\ inputs_first nodes (snd st')
    /\ In id (snd st')
    /\ exists new, snd st' = snd st ++ new.
Proof.
  intros Hr. induction fuel as [|fuel IH]; intros id st st' stack H Hs Hc Ho;
    [discriminate|].
  cbn [visit] in H. destruct (set_mem id (fst st)) eqn:Em.
  - inversion H; subst st'; clear H. apply set_mem_In in Em.
    split; [exact Hc|]. split; [exact Ho|]. split.
    + destruct (Hc id Em) as [Hin|Hin]; [|exact Hin].
      specialize (Hs id Hin). lia.
    + exists []. now rewrite app_nil_r.
  - destruct (dict_get nodes id) as [n|] eqn:En; [|discriminate].
    inv_bind H. inversion H; subst st'; clear H. cbn [fst snd].
    assert (Hfold : forall ids s s',
               (forall i, In i ids -> (rank i < rank id)%nat) ->
               fold_bind (visit fuel nodes) ids s = Ok s' ->
               (forall x, In x (fst s) -> In x (id :: stack) \/ In x (snd s)) ->
               inputs_first nodes (snd s) ->
               (forall x, In x (fst s') ->
                          In x (id :: stack) \/ In x (snd s'))
               /\ inputs_first nodes (snd s')
               /\ (forall i, In i ids -> In i (snd s'))
               /\ exists new, snd s' = snd s ++ new).
    { induction ids as [|i ids IHi]; intros s s' Hlt Hf Hcs Hos; simpl in Hf.
      - inversion Hf; subst. split; [exact Hcs|]. split; [exact Hos|].
        split; [intros i []|]. exists []. now rewrite app_nil_r.
      - inv_bind Hf.
        destruct (IH i s a0 (id :: stack) Ha0) as (C1 & O1 & I1 & n1 & E1);
          [|exact Hcs|exact Hos|].
        { intros x [<-|Hx]; [apply Hlt; now left|].
          specialize (Hs x Hx). specialize (Hlt i (or_introl eq_refl)). lia. }
        destruct (IHi a0 s') as (C2 & O2 & I2 & n2 & E2);
          [intros; apply Hlt; now right | exact Hf | exact C1 | exact O1 |].
        split; [exact C2|]. split; [exact O2|]. split.
        + intros j [<-|Hj]; [|now apply I2].
          rewrite E2. apply in_or_app. now left.
        + exists (n1 ++ n2). now rewrite E2, E1, app_assoc. }
    destruct (Hfold (n_inputs n) (id :: fst st, snd st) a) as (C & O & I & new & E).
    + intros i Hi. eapply Hr; eauto.
    + exact Ha.
    + cbn [fst snd]. intros x [<-|Hx]; [left; now left|].
      destruct (Hc x Hx); [left; now right | now right].
    + exact Ho.
    + cbn [snd] in E. split; [|split; [|split]].
      * intros x Hx. destruct (C x Hx) as [[<-|Hin]|Hin].
        -- right. apply in_or_app. right. now left.
        -- now left.
        -- right. apply in_or_app. now left.
      * intros before x after Heq m Hm i Hi.
        symmetry in Heq. apply split_at_last in Heq.
        destruct Heq as [(_ & -> & ->)|(after' & _ & Heq)].
        -- rewrite En in Hm. inversion Hm; subst m. now apply I.
        -- eapply O; eauto.
      * apply in_or_app. right. now left.
      * exists (new ++ [id]). now rewrite E, app_assoc.
Qed.

Lemma topological_order_total (dag : SynthesisDAG) (fuel : nat) :
  inputs_closed (nodes dag) ->
  dict_mem (nodes dag) (goal_node dag) = true ->
  (List.length (nodes dag) < fuel)%nat ->
  exists order,
    topological_order fuel dag = Ok order
    /\ NoDup order
    /\ (exists before, order = before ++ [goal_node dag])
    /\ (forall x, In x order ->
          exists n, dict_get (nodes dag) x = Some n
                    /\ forall i, In i (n_inputs n) -> In i order)
    /\ forall rank, ranked rank (nodes dag) ->
                    inputs_first (nodes dag) order.
Proof.
  intros Hc Hg Hf. unfold topological_order.
  destruct (visit_terminates (nodes dag) Hc fuel (goal_node dag) ([], []))
    as [st' Hv]; [now left | |].
  { unfold unvisited. cbn [fst set_mem existsb negb].
    rewrite forallb_filter_id; [exact Hf|].
    apply forallb_forall. reflexivity. }
  rewrite Hv. cbn [bind].
  destruct (visit_spec _ _ _ _ _ Hv)
    as [[(new & O1 & D1 & F1 & V1 & C1) _] Hlast].
  cbn [fst snd app] in *. exists (snd st'). split; [reflexivity|].
  split; [now rewrite O1|]. split; [|split].
  - destruct Hlast as [pre Hpre]; [intros []|]. now exists pre.
  - intros x Hx. rewrite O1 in Hx. destruct (C1 x Hx) as (n & Hn & Hi).
    exists n. split; [exact Hn|]. intros i Hin. specialize (Hi i Hin).
    apply V1 in Hi. destruct Hi as [[]|Hi]. now rewrite O1.
  - intros rank Hr.
    destruct (visit_ordered (nodes dag) rank Hr fuel (goal_node dag) ([], [])
                st' [] Hv) as (_ & Ho & _).
    + intros x [].
    + intros x [].
    + intros before x after Heq. destruct before; discriminate.
    + exact Ho.
Qed.

(** X24: on a DAG whose inputs all name nodes, [topological_order]
    returns, within one level of recursion per node, an order without
    repetition that ends with the goal node and holds, with every node,
    all its inputs; and when the inputs form no cycle, every node comes
    after all its inputs in that order. *)
Theorem topological_order_puts_inputs_first (dag : SynthesisDAG)
  (fuel : nat) :
  inputs_closed (nodes dag) ->
  dict_mem (nodes dag) (goal_node dag) = true ->
  (List.length (nodes dag) < fuel)%nat ->
  exists order,
    topological_order fuel dag = Ok order
    /\ NoDup order
    /\ (exists before, order = before ++ [goal_node dag])
    /\ (forall x, In x order ->
          exists n, dict_get (nodes dag) x = Some n
                    /\ forall i, In i (n_inputs n) -> In i order)
    /\ forall rank, ranked rank (nodes dag) ->
                    inputs_first (nodes dag) order.
Proof. apply topological_order_total. Qed.

Lemma single_path_nodes_closed :
  inputs_closed (nodes (_single_path_to_dag "s" "A" "B" (identity_result "A"))).
Proof.
  assert (Hnodes : nodes (_single_path_to_dag "s" "A" "B"
                               (identity_result "A"))
                   = [("s", source_node "s" "A");
                      ("goal", mkDAGNode "goal" "goal" "B" None ["s"] []
                                         VNone)]) by reflexivity.
  rewrite Hnodes. intros k n Hk i Hi. cbn [dict_get] in Hk.
  destruct (String.eqb "s" k);
    [inversion Hk; subst; cbn in Hi; contradiction|].
  destruct (String.eqb "goal" k); [|discriminate].
  inversion Hk; subst. cbn in Hi. destruct Hi as [<-|[]]. reflexivity.
Qed.

Lemma single_path_nodes_ranked :
  ranked (fun k => if String.eqb k "goal" then 1 else 0)
         (nodes (_single_path_to_dag "s" "A" "B" (identity_result "A"))).
Proof.
  assert (Hnodes : nodes (_single_path_to_dag "s" "A" "B"
                               (identity_result "A"))
                   = [("s", source_node "s" "A");
                      ("goal", mkDAGNode "goal" "goal" "B" None ["s"] []
                                         VNone)]) by reflexivity.
  rewrite Hnodes. intros k n Hk i Hi. cbn [dict_get] in Hk.
  destruct (String.eqb "s" k) eqn:Es;
    [inversion Hk; subst; cbn in Hi; contradiction|].
  destruct (String.eqb "goal" k) eqn:Eg; [|discriminate].
  apply String.eqb_eq in Eg. subst k.
  inversion Hk; subst. cbn in Hi. destruct Hi as [<-|[]]. cbn. lia.
Qed.

Lemma topological_order_puts_inputs_first_witness :
  topological_order 3 (_single_path_to_dag "s" "A" "B" (identity_result "A"))
  = Ok ["s"; "goal"]
  /\ inputs_first
       (nodes (_single_path_to_dag "s" "A" "B" (identity_result "A")))
       ["s"; "goal"].
Proof.
  destruct (topological_order_puts_inputs_first
              (_single_path_to_dag "s" "A" "B" (identity_result "A")) 3)
    as (order & Ho & _ & _ & _ & Hfirst).
  - exact single_path_nodes_closed.
  - reflexivity.
  - cbn. lia.
  - assert (E : order = ["s"; "goal"]).
    { vm_compute in Ho. now inversion Ho. }
    subst order. split; [reflexivity|].
    apply (Hfirst _ single_path_nodes_ranked).
Defined.

(* ================================================================= *)
(** ** The DAGs of the planner can be ordered *)

Lemma closed_nodes_inputs_closed (nodes : list (string * DAGNode)) :
  closed_nodes nodes -> inputs_closed nodes.
Proof. intros H k n Hk. apply (H k n). now apply dict_get_In. Qed.

Lemma closed_nodes_set (nodes : list (string * DAGNode)) k v :
  closed_nodes nodes ->
  (forall i, In i (n_inputs v) -> dict_mem (dict_set nodes k v) i = true) ->
  closed_nodes (dict_set nodes k v).
Proof.
  intros Hc Hv k' n' Hin i Hi. apply dict_set_In in Hin.
  destruct Hin as [[-> ->]|Hin]; [now apply Hv|].
  apply dict_mem_set_mono. eapply Hc; eauto.
Qed.

Lemma add_source_nodes_inputs (sources : list (string * string)) :
  forall k n, In (k, n) (add_source_nodes sources) -> n_inputs n = [].
Proof.
  unfold add_source_nodes.
  assert (G : forall acc : list (string * DAGNode),
             (forall k n, In (k, n) acc -> n_inputs n = []) ->
             forall k n,
               In (k, n) (fold_left
                            (fun nodes '(src_id, src_type) =>
                               dict_set nodes src_id
                                        (source_node src_id src_type))
                            sources acc) ->
               n_inputs n = []).
  { induction sources as [|[i ty] rest IH]; intros acc Hacc k n; simpl; [apply Hacc|].
    apply IH. intros k' n' Hin. apply dict_set_In in Hin.
    destruct Hin as [[_ ->]|Hin]; [reflexivity | eapply Hacc; eauto]. }
  apply G. intros k n [].
Qed.

Lemma closed_nodes_sources (sources : list (string * string)) :
  closed_nodes (add_source_nodes sources).
Proof.
  intros k n Hin i Hi. rewrite (add_source_nodes_inputs sources k n Hin) in Hi.
  contradiction.
Qed.

Lemma build_step_closed (T : string) (i : nat) (s : string)
  (r : SynthesisResult) (st : BuildState) :
  dict_mem (bs_nodes st) s = true ->
  closed_nodes (bs_nodes st) ->
  closed_nodes (bs_nodes (build_step T i s r st)).
Proof.
  intros Hs Hc. unfold build_step. destruct (sr_path r) as [|f path];
    cbn [bs_nodes]; [exact Hc|].
  apply closed_nodes_set; [exact Hc|].
  intros k [<-|[]]. now apply dict_mem_set_mono.
Qed.

Lemma build_arg_nodes_closed (g : Func) (args : list (string * SynthesisResult)) :
  forall i st st',
    Forall (fun a => dict_mem (bs_nodes st) (fst a) = true) args ->
    closed_nodes (bs_nodes st) ->
    build_arg_nodes g i args st = Ok st' ->
    closed_nodes (bs_nodes st').
Proof.
  induction args as [|[s r] args IH]; intros i st st' Ha Hc H; simpl in H.
  - now inversion H; subst.
  - destruct (nth_error (dom_types g) i) as [T|]; [|discriminate].
    inversion Ha as [|? ? Hs Ha']; subst. cbn [fst] in Hs.
    apply (IH (S i) (build_step T i s r st) st'); [|now apply build_step_closed|exact H].
    eapply Forall_impl; [|exact Ha']. intros a Hk.
    unfold build_step. destruct (sr_path r); cbn [bs_nodes]; [exact Hk|].
    now apply dict_mem_set_mono.
Qed.

Lemma build_component_nodes_closed
  (comps : list (string * string * SynthesisResult)) :
  forall i st,
    Forall (fun c => dict_mem (bs_nodes st) (fst (fst c)) = true) comps ->
    closed_nodes (bs_nodes st) ->
    Forall (fun k => dict_mem (bs_nodes st) k = true) (bs_inputs st) ->
    closed_nodes (bs_nodes (build_component_nodes i comps st))
    /\ Forall (fun k => dict_mem (bs_nodes (build_component_nodes i comps st)) k
                        = true)
              (bs_inputs (build_component_nodes i comps st)).
Proof.
  induction comps as [|[[s c] r] comps IH]; intros i st Ha Hc Hi; simpl.
  - split; assumption.
  - inversion Ha as [|? ? Hs Ha']; subst. cbn [fst] in Hs.
    destruct (build_step_inputs c i s r st Hs Hi) as (_ & Hall & Hmono).
    cbn zeta in Hall, Hmono.
    apply IH; [|now apply build_step_closed|exact Hall].
    eapply Forall_impl; [|exact Ha']. intros a Hk. now apply Hmono.
Qed.

Lemma find_direct_component_Some (sources : list (string * string)) T s :
  find_direct_component sources T = Some s -> In s (map fst sources).
Proof.
  induction sources as [|[i ty] rest IH]; simpl; [discriminate|].
  destruct (String.eqb ty T); [intros H; inversion H; now left|].
  intros H. right. now apply IH.
Qed.

Lemma find_by_search_source (fuel : nat) (catalog : Catalog)
  (sources : list (string * string)) T budget s r :
  find_by_search fuel catalog sources T budget = Ok (Some (s, r)) ->
  In s (map fst sources).
Proof.
  induction sources as [|[i ty] rest IH]; simpl; [discriminate|].
  intros H. inv_bind H. destruct a as [|r0 rs].
  - right. now apply IH.
  - inversion H; subst. now left.
Qed.

Lemma resolve_components_sources (fuel : nat) (catalog : Catalog)
  (sources : list (string * string)) (remaining : Q)
  (components : list string) :
  forall st st',
    resolve_components fuel catalog sources components remaining st
    = Ok (Some st') ->
    Forall (fun c => In (fst (fst c)) (map fst sources)) (component_results st) ->
    Forall (fun c => In (fst (fst c)) (map fst sources)) (component_results st').
Proof.
  induction components as [|T rest IH]; intros st st' H Hall; simpl in H.
  - now inversion H; subst.
  - destruct (find_direct_component sources T) as [s|] eqn:Hd.
    + apply (IH _ _ H). cbn [component_results].
      apply Forall_app. split; [exact Hall|]. constructor; [|constructor].
      cbn [fst]. now apply find_direct_component_Some in Hd.
    + inv_bind H. destruct a as [[s r]|]; [|discriminate].
      apply (IH _ _ H). cbn [component_results].
      apply Forall_app. split; [exact Hall|]. constructor; [|constructor].
      cbn [fst]. now apply find_by_search_source in Ha.
Qed.

Lemma strategy_A_closed (catalog : Catalog) (fuel : nat)
  (sources : list (string * string)) (goal_type : string) (g : Func)
  (maxc : Q) (d : SynthesisDAG) :
  nonneg_costs catalog -> (search_fuel catalog <= fuel)%nat ->
  _try_synthesize_multiarg_func fuel catalog sources goal_type g maxc
  = Ok (Some d) ->
  closed_nodes (nodes d) /\ dict_mem (nodes d) (goal_node d) = true.
Proof.
  intros Hn Hf H. unfold _try_synthesize_multiarg_func in H.
  destruct (resolve_args_total catalog fuel Hn Hf sources
              (maxc - f_cost g)%Q (dom_types g)
              (mkArgState [] (f_cost g) (f_conf g) []))
    as [o [Ho Hp]]; [constructor|].
  rewrite Ho in H. cbn [bind] in H. destruct o as [st|]; [|discriminate].
  destruct (Hp st eq_refl) as (Hsup & _).
  pose proof (supplies_sources _ _ _ _ _ _ _ Hsup (Forall_nil _)) as Hsrc.
  inv_bind H. inversion H; subst d; clear H.
  unfold _build_dag_from_multiarg in Ha. inv_bind Ha. inv_bind Ha.
  inversion Ha; subst a; clear Ha. cbn [nodes goal_node].
  assert (Hargs : Forall (fun x => dict_mem (add_source_nodes sources) (fst x)
                                   = true) (arg_results st)).
  { eapply Forall_impl; [|exact Hsrc]. intros x Hx.
    now apply add_source_nodes_keys. }
  pose proof (build_arg_nodes_closed g (arg_results st) 0
                (mkBuildState (add_source_nodes sources) [] []) a0 Hargs
                (closed_nodes_sources sources) Ha0) as Hc.
  destruct (build_arg_nodes_inputs g (arg_results st) 0
              (mkBuildState (add_source_nodes sources) [] []) a0 Hargs
              (Forall_nil _) Ha0) as [_ Hall].
  split; [|apply dict_mem_set_same].
  apply closed_nodes_set; [exact Hc|]. cbn [n_inputs].
  intros i Hi. apply dict_mem_set_mono.
  rewrite Forall_forall in Hall. now apply Hall.
Qed.

Lemma strategy_B_closed (catalog : Catalog) (fuel : nat)
  (sources : list (string * string)) (goal_type pname : string)
  (pt : ProductType) (maxc : Q) (d : SynthesisDAG) :
  _try_synthesize_via_product fuel catalog sources goal_type pname pt maxc
  = Ok (Some d) ->
  closed_nodes (nodes d) /\ dict_mem (nodes d) (goal_node d) = true.
Proof.
  intros H. unfold _try_synthesize_via_product in H. inv_bind H.
  destruct a as [|agg rs]; [discriminate|]. inv_bind H.
  destruct a as [st|]; [|discriminate]. inv_bind H.
  inversion H; subst d; clear H.
  pose proof (resolve_components_sources _ _ _ _ _ _ _ Ha0 (Forall_nil _))
    as Hsrc.
  unfold _build_dag_from_product in Ha1. inv_bind Ha1.
  inversion Ha1; subst a; clear Ha1. cbn [nodes goal_node].
  assert (Hcomps : Forall (fun c => dict_mem (add_source_nodes sources)
                                      (fst (fst c)) = true)
                          (component_results st)).
  { eapply Forall_impl; [|exact Hsrc]. intros x Hx.
    now apply add_source_nodes_keys. }
  destruct (build_component_nodes_closed (component_results st) 0
              (mkBuildState (add_source_nodes sources) [] []) Hcomps
              (closed_nodes_sources sources) (Forall_nil _)) as [Hc Hall].
  split; [|apply dict_mem_set_same].
  apply closed_nodes_set; [exact Hc|]. cbn [n_inputs].
  intros i Hi. apply dict_mem_set_mono.
  rewrite Forall_forall in Hall. now apply Hall.
Qed.

Lemma strategy_C_closed (src_id src_type goal_type : string)
  (r : SynthesisResult) :
  closed_nodes (nodes (_single_path_to_dag src_id src_type goal_type r))
  /\ dict_mem (nodes (_single_path_to_dag src_id src_type goal_type r))
              (goal_node (_single_path_to_dag src_id src_type goal_type r))
     = true.
Proof.
  unfold _single_path_to_dag. cbn [nodes goal_node].
  split; [|apply dict_mem_set_same].
  apply closed_nodes_set.
  - intros k n [H|[]] i Hi. inversion H; subst. contradiction.
  - cbn [n_inputs]. intros i [<-|[]]. apply dict_mem_set_mono.
    apply (dict_mem_set_same []).
Qed.

Lemma multiarg_results_closed (catalog : Catalog) (fuel : nat)
  (sources : list (string * string)) (goal_type : string) (maxc : Q) :
  nonneg_costs catalog -> (search_fuel catalog <= fuel)%nat ->
  forall gs l,
    multiarg_results fuel catalog sources goal_type maxc gs = Ok l ->
    Forall (fun d => closed_nodes (nodes d)
                     /\ dict_mem (nodes d) (goal_node d) = true) l.
Proof.
  intros Hn Hf. induction gs as [|g gs IH]; intros l H; simpl in H.
  - inversion H; subst. constructor.
  - destruct (is_multiarg g); [|now apply IH].
    inv_bind H. inv_bind H. inversion H; subst l; clear H.
    destruct a as [d|]; [constructor|]; try now apply IH.
    eapply strategy_A_closed; eauto.
Qed.

Lemma product_results_closed (catalog : Catalog) (fuel : nat)
  (sources : list (string * string)) (goal_type : string) (maxc : Q) :
  forall ps l,
    product_results fuel catalog sources goal_type maxc ps = Ok l ->
    Forall (fun d => closed_nodes (nodes d)
                     /\ dict_mem (nodes d) (goal_node d) = true) l.
Proof.
  induction ps as [|[pname pt] ps IH]; intros l H; simpl in H.
  - inversion H; subst. constructor.
  - inv_bind H. inv_bind H. inversion H; subst l; clear H.
    destruct a as [d|]; [constructor|]; try now apply IH.
    eapply strategy_B_closed; eauto.
Qed.

Lemma single_results_closed (catalog : Catalog) (fuel : nat)
  (goal_type : string) (maxc : Q) :
  forall srcs l,
    single_results fuel catalog goal_type maxc srcs = Ok l ->
    Forall (fun d => closed_nodes (nodes d)
                     /\ dict_mem (nodes d) (goal_node d) = true) l.
Proof.
  induction srcs as [|[i ty] srcs IH]; intros l H; simpl in H.
  - inversion H; subst. constructor.
  - inv_bind H. inv_bind H. inversion H; subst l; clear H.
    destruct a as [|r rs]; [now apply IH|].
    constructor; [apply strategy_C_closed | now apply IH].
Qed.

Lemma node_rank_source (sources : list (string * string)) (s : string) :
  In s (map fst sources) -> node_rank sources s = 0.
Proof.
  intros H. unfold node_rank. apply set_mem_In in H. now rewrite H.
Qed.

Lemma node_rank_transform (sources : list (string * string)) (T : string)
  (i : nat) :
  plain_sources sources -> node_rank sources (transform_id T i) = 1.
Proof.
  intros Hp. unfold node_rank.
  destruct (set_mem (transform_id T i) (map fst sources)) eqn:E.
  - apply set_mem_In in E. destruct (Hp _ E) as (_ & _ & H).
    now destruct (H T i).
  - reflexivity.
Qed.

Lemma node_rank_goal (sources : list (string * string)) (k : string) :
  plain_sources sources -> k = "goal" \/ k = "aggregate" ->
  node_rank sources k = 2.
Proof.
  intros Hp Hk. unfold node_rank.
  destruct (set_mem k (map fst sources)) eqn:E.
  - apply set_mem_In in E. destruct (Hp _ E) as (H1 & H2 & _).
    destruct Hk; contradiction.
  - destruct Hk as [-> | ->]; reflexivity.
Qed.

Lemma ranked_nodes_ranked (rank : string -> nat)
  (nodes : list (string * DAGNode)) :
  ranked_nodes rank nodes -> ranked rank nodes.
Proof. intros H k n Hk. apply (H k n). now apply dict_get_In. Qed.

Lemma ranked_nodes_set (rank : string -> nat)
  (nodes : list (string * DAGNode)) k v :
  ranked_nodes rank nodes ->
  (forall i, In i (n_inputs v) -> (rank i < rank k)%nat) ->
  ranked_nodes rank (dict_set nodes k v).
Proof.
  intros Hc Hv k' n' Hin i Hi. apply dict_set_In in Hin.
  destruct Hin as [[-> ->]|Hin]; [now apply Hv | eapply Hc; eauto].
Qed.

Lemma ranked_nodes_sources (rank : string -> nat)
  (sources : list (string * string)) :
  ranked_nodes rank (add_source_nodes sources).
Proof.
  intros k n Hin i Hi. rewrite (add_source_nodes_inputs sources k n Hin) in Hi.
  contradiction.
Qed.

Lemma build_step_ranked (sources : list (string * string)) (T : string)
  (i : nat) (s : string) (r : SynthesisResult) (st : BuildState) :
  plain_sources sources -> In s (map fst sources) ->
  ranked_nodes (node_rank sources) (bs_nodes st) ->
  Forall (fun k => (node_rank sources k < 2)%nat) (bs_inputs st) ->
  ranked_nodes (node_rank sources) (bs_nodes (build_step T i s r st))
  /\ Forall (fun k => (node_rank sources k < 2)%nat)
            (bs_inputs (build_step T i s r st)).
Proof.
  intros Hp Hs Hc Hi. unfold build_step.
  destruct (sr_path r) as [|f path]; cbn [bs_nodes bs_inputs].
  - split; [exact Hc|]. apply Forall_app. split; [exact Hi|].
    constructor; [|constructor]. rewrite node_rank_source by assumption. lia.
  - split.
    + apply ranked_nodes_set; [exact Hc|]. intros k [<-|[]].
      rewrite node_rank_source, node_rank_transform by assumption. lia.
    + apply Forall_app. split; [exact Hi|].
      constructor; [|constructor].
      rewrite node_rank_transform by assumption. lia.
Qed.

Lemma build_arg_nodes_ranked (sources : list (string * string)) (g : Func)
  (args : list (string * SynthesisResult)) :
  plain_sources sources ->
  forall i st st',
    Forall (fun a => In (fst a) (map fst sources)) args ->
    ranked_nodes (node_rank sources) (bs_nodes st) ->
    Forall (fun k => (node_rank sources k < 2)%nat) (bs_inputs st) ->
    build_arg_nodes g i args st = Ok st' ->
    ranked_nodes (node_rank sources) (bs_nodes st')
    /\ Forall (fun k => (node_rank sources k < 2)%nat) (bs_inputs st').
Proof.
  intros Hp. induction args as [|[s r] args IH]; intros i st st' Ha Hc Hi H;
    simpl in H.
  - inversion H; subst. now split.
  - destruct (nth_error (dom_types g) i) as [T|]; [|discriminate].
    inversion Ha as [|? ? Hs Ha']; subst. cbn [fst] in Hs.
    destruct (build_step_ranked sources T i s r st Hp Hs Hc Hi) as [Hc' Hi'].
    exact (IH _ _ _ Ha' Hc' Hi' H).
Qed.

Lemma build_component_nodes_ranked (sources : list (string * string))
  (comps : list (string * string * SynthesisResult)) :
  plain_sources sources ->
  forall i st,
    Forall (fun c => In (fst (fst c)) (map fst sources)) comps ->
    ranked_nodes (node_rank sources) (bs_nodes st) ->
    Forall (fun k => (node_rank sources k < 2)%nat) (bs_inputs st) ->
    ranked_nodes (node_rank sources)
                 (bs_nodes (build_component_nodes i comps st))
    /\ Forall (fun k => (node_rank sources k < 2)%nat)
              (bs_inputs (build_component_nodes i comps st)).
Proof.
  intros Hp. induction comps as [|[[s c] r] comps IH]; intros i st Ha Hc Hi;
    simpl.
  - now split.
  - inversion Ha as [|? ? Hs Ha']; subst. cbn [fst] in Hs.
    destruct (build_step_ranked sources c i s r st Hp Hs Hc Hi) as [Hc' Hi'].
    exact (IH _ _ Ha' Hc' Hi').
Qed.

Lemma strategy_A_ranked (catalog : Catalog) (fuel : nat)
  (sources : list (string * string)) (goal_type : string) (g : Func)
  (maxc : Q) (d : SynthesisDAG) :
  nonneg_costs catalog -> (search_fuel catalog <= fuel)%nat ->
  plain_sources sources ->
  _try_synthesize_multiarg_func fuel catalog sources goal_type g maxc
  = Ok (Some d) ->
  ranked_nodes (node_rank sources) (nodes d).
Proof.
  intros Hn Hf Hp H. unfold _try_synthesize_multiarg_func in H.
  destruct (resolve_args_total catalog fuel Hn Hf sources
              (maxc - f_cost g)%Q (dom_types g)
              (mkArgState [] (f_cost g) (f_conf g) []))
    as [o [Ho Hq]]; [constructor|].
  rewrite Ho in H. cbn [bind] in H. destruct o as [st|]; [|discriminate].
  destruct (Hq st eq_refl) as (Hsup & _).
  pose proof (supplies_sources _ _ _ _ _ _ _ Hsup (Forall_nil _)) as Hsrc.
  inv_bind H. inversion H; subst d; clear H.
  unfold _build_dag_from_multiarg in Ha. inv_bind Ha. inv_bind Ha.
  inversion Ha; subst a; clear Ha. cbn [nodes].
  destruct (build_arg_nodes_ranked sources g (arg_results st) Hp 0
              (mkBuildState (add_source_nodes sources) [] []) a0 Hsrc
              (ranked_nodes_sources _ sources) (Forall_nil _) Ha0)
    as [Hc Hall].
  apply ranked_nodes_set; [exact Hc|]. cbn [n_inputs]. intros i Hi.
  rewrite Forall_forall in Hall. specialize (Hall i Hi).
  rewrite (node_rank_goal sources "goal" Hp) by now left. exact Hall.
Qed.

Lemma strategy_B_ranked (catalog : Catalog) (fuel : nat)
  (sources : list (string * string)) (goal_type pname : string)
  (pt : ProductType) (maxc : Q) (d : SynthesisDAG) :
  plain_sources sources ->
  _try_synthesize_via_product fuel catalog sources goal_type pname pt maxc
  = Ok (Some d) ->
  ranked_nodes (node_rank sources) (nodes d).
Proof.
  intros Hp H. unfold _try_synthesize_via_product in H. inv_bind H.
  destruct a as [|agg rs]; [discriminate|]. inv_bind H.
  destruct a as [st|]; [|discriminate]. inv_bind H.
  inversion H; subst d; clear H.
  pose proof (resolve_components_sources _ _ _ _ _ _ _ Ha0 (Forall_nil _))
    as Hsrc.
  unfold _build_dag_from_product in Ha1. inv_bind Ha1.
  inversion Ha1; subst a; clear Ha1. cbn [nodes].
  destruct (build_component_nodes_ranked sources (component_results st) Hp 0
              (mkBuildState (add_source_nodes sources) [] []) Hsrc
              (ranked_nodes_sources _ sources) (Forall_nil _)) as [Hc Hall].
  apply ranked_nodes_set; [exact Hc|]. cbn [n_inputs]. intros i Hi.
  rewrite Forall_forall in Hall. specialize (Hall i Hi).
  rewrite (node_rank_goal sources "aggregate" Hp) by now right. exact Hall.
Qed.

Lemma strategy_C_ranked (sources : list (string * string))
  (src_id src_type goal_type : string) (r : SynthesisResult) :
  plain_sources sources -> In src_id (map fst sources) ->
  ranked_nodes (node_rank sources)
               (nodes (_single_path_to_dag src_id src_type goal_type r)).
Proof.
  intros Hp Hs. unfold _single_path_to_dag. cbn [nodes].
  apply ranked_nodes_set.
  - intros k n [H|[]] i Hi. inversion H; subst. contradiction.
  - cbn [n_inputs]. intros i [<-|[]].
    rewrite node_rank_source, (node_rank_goal sources "goal" Hp)
      by (assumption || now left). lia.
Qed.

Lemma multiarg_results_ranked (catalog : Catalog) (fuel : nat)
  (sources : list (string * string)) (goal_type : string) (maxc : Q) :
  nonneg_costs catalog -> (search_fuel catalog <= fuel)%nat ->
  plain_sources sources ->
  forall gs l,
    multiarg_results fuel catalog sources goal_type maxc gs = Ok l ->
    Forall (fun d => ranked_nodes (node_rank sources) (nodes d)) l.
Proof.
  intros Hn Hf Hp. induction gs as [|g gs IH]; intros l H; simpl in H.
  - inversion H; subst. constructor.
  - destruct (is_multiarg g); [|now apply IH].
    inv_bind H. inv_bind H. inversion H; subst l; clear H.
    destruct a as [d|]; [constructor|]; try now apply IH.
    eapply strategy_A_ranked; eauto.
Qed.

Lemma product_results_ranked (catalog : Catalog) (fuel : nat)
  (sources : list (string * string)) (goal_type : string) (maxc : Q) :
  plain_sources sources ->
  forall ps l,
    product_results fuel catalog sources goal_type maxc ps = Ok l ->
    Forall (fun d => ranked_nodes (node_rank sources) (nodes d)) l.
Proof.
  intros Hp. induction ps as [|[pname pt] ps IH]; intros l H; simpl in H.
  - inversion H; subst. constructor.
  - inv_bind H. inv_bind H. inversion H; subst l; clear H.
    destruct a as [d|]; [constructor|]; try now apply IH.
    eapply strategy_B_ranked; eauto.
Qed.

Lemma single_results_ranked (catalog : Catalog) (fuel : nat)
  (sources : list (string * string)) (goal_type : string) (maxc : Q) :
  plain_sources sources ->
  forall srcs l,
    incl (map fst srcs) (map fst sources) ->
    single_results fuel catalog goal_type maxc srcs = Ok l ->
    Forall (fun d => ranked_nodes (node_rank sources) (nodes d)) l.
Proof.
  intros Hp. induction srcs as [|[i ty] srcs IH]; intros l Hi H; simpl in H.
  - inversion H; subst. constructor.
  - inv_bind H. inv_bind H. inversion H; subst l; clear H.
    assert (Hi' : incl (map fst srcs) (map fst sources)).
    { intros x Hx. apply Hi. now right. }
    destruct a as [|r rs]; [now apply IH|].
    constructor; [|now apply IH].
    apply strategy_C_ranked; [exact Hp|]. apply Hi. now left.
Qed.

(** X25: when no source id is ["goal"], ["aggregate"] or the id of a
    transform node, every DAG [synthesize_multiarg_full] returns can be
    ordered: each input of each of its nodes names a node, its goal node
    is one of its nodes, the inputs form no cycle, and
    [topological_order] returns an order without repetition that ends
    with the goal node and in which every node comes after all its
    inputs. *)
Theorem planned_dags_can_be_ordered (catalog : Catalog)
  (sources : list (string * string)) (goal_type : string) (max_cost : Q)
  (prefer_multiarg : bool) (fuel : nat) :
  nonneg_costs catalog -> (search_fuel catalog <= fuel)%nat ->
  plain_sources sources ->
  exists r,
    synthesize_multiarg_full fuel catalog sources goal_type max_cost
      prefer_multiarg = Ok r
    /\ forall d, r = Some d ->
         inputs_closed (nodes d)
         /\ dict_mem (nodes d) (goal_node d) = true
         /\ ranked (node_rank sources) (nodes d)
         /\ exists order,
              topological_order (S (List.length (nodes d))) d = Ok order
              /\ NoDup order
              /\ (exists before, order = before ++ [goal_node d])
              /\ inputs_first (nodes d) order.
Proof.
  intros Hn Hf Hp.
  destruct (multiarg_results_total catalog fuel Hn Hf sources goal_type
              max_cost (funcs_returning catalog goal_type)) as [ma [Hma _]].
  destruct (product_results_total catalog fuel Hn Hf sources goal_type
              max_cost (product_types catalog)) as [pr [Hpr _]].
  destruct (single_results_total catalog fuel Hn Hf goal_type max_cost sources)
    as [si [Hsi _]].
  exists (select_result prefer_multiarg ma pr si). split.
  - unfold synthesize_multiarg_full. now rewrite Hma, Hpr, Hsi.
  - intros d Hd. apply select_result_In in Hd.
    assert (Hall : Forall (fun d => closed_nodes (nodes d)
                                    /\ dict_mem (nodes d) (goal_node d) = true)
                          (ma ++ pr ++ si)).
    { repeat (apply Forall_app; split).
      - eapply multiarg_results_closed; eauto.
      - eapply product_results_closed; eauto.
      - eapply single_results_closed; eauto. }
    assert (Hrk : Forall (fun d => ranked_nodes (node_rank sources) (nodes d))
                         (ma ++ pr ++ si)).
    { repeat (apply Forall_app; split).
      - eapply multiarg_results_ranked; eauto.
      - eapply product_results_ranked; eauto.
      - eapply single_results_ranked; eauto. apply incl_refl. }
    rewrite Forall_forall in Hall, Hrk. destruct (Hall d Hd) as [Hc Hg].
    apply closed_nodes_inputs_closed in Hc.
    pose proof (ranked_nodes_ranked _ _ (Hrk d Hd)) as Hr.
    split; [exact Hc|]. split; [exact Hg|]. split; [exact Hr|].
    destruct (topological_order_total d (S (List.length (nodes d))) Hc Hg)
      as (order & Ho & Hnd & Hlast & _ & Hfirst); [lia|].
    exists order. split; [exact Ho|]. split; [exact Hnd|].
    split; [exact Hlast | exact (Hfirst _ Hr)].
Qed.

Lemma plain_sources_a : plain_sources [("a", "A")].
Proof.
  intros s [<-|[]]. split; [discriminate|]. split; [discriminate|].
  intros T j. unfold transform_id. discriminate.
Qed.

Lemma planned_dags_can_be_ordered_witness :
  exists d,
    synthesize_multiarg_full 10 pair_catalog [("a", "A")] "G" 100 true
    = Ok (Some d)
    /\ topological_order (S (List.length (nodes d))) d
       = Ok ["a"; transform_id "B" 1; "goal"]
    /\ inputs_first (nodes d) ["a"; transform_id "B" 1; "goal"].
Proof.
  destruct (planned_dags_can_be_ordered pair_catalog [("a", "A")] "G" 100 true
              10) as (r & Hr & Hd).
  - nonneg_by_computation.
  - vm_compute; lia.
  - exact plain_sources_a.
  - assert (Hsome : exists d, r = Some d).
    { assert (E : Ok r = synthesize_multiarg_full 10 pair_catalog
                           [("a", "A")] "G" 100 true) by now rewrite Hr.
      vm_compute in E. inversion E. eauto. }
    destruct Hsome as [d ->]. exists d. split; [exact Hr|].
    destruct (Hd d eq_refl) as (_ & _ & _ & order & Ho & _ & _ & Hfirst).
    assert (E : Ok (Some d) = synthesize_multiarg_full 10 pair_catalog
                                [("a", "A")] "G" 100 true) by now rewrite Hr.
    vm_compute in E. inversion E; subst d; clear E.
    assert (Eo : order = ["a"; transform_id "B" 1; "goal"]).
    { vm_compute in Ho. inversion Ho. reflexivity. }
    subst order. split; [exact Ho | exact Hfirst].
Defined.

(* ================================================================= *)
(** ** Tuple inputs are bound by position *)

Lemma arg_name_inj (i k : nat) :
  ("arg" ++ str_of_nat i)%string = ("arg" ++ str_of_nat k)%string -> i = k.
Proof. intros H. apply str_of_nat_inj. now inversion H. Qed.

Lemma x_name_inj (i k : nat) :
  ("x" ++ str_of_nat i)%string = ("x" ++ str_of_nat k)%string -> i = k.
Proof. intros H. apply str_of_nat_inj. now inversion H. Qed.

Lemma bind_tuple_args_frame (with_x : bool) (vals : list Value) :
  forall i lv name,
    (forall k, (i <= k)%nat -> name <> ("arg" ++ str_of_nat k)%string
                               /\ name <> ("x" ++ str_of_nat k)%string) ->
    dict_get (bind_tuple_args with_x i vals lv) name = dict_get lv name.
Proof.
  induction vals as [|v rest IH]; intros i lv name Hname;
    cbn [bind_tuple_args]; [reflexivity|].
  rewrite IH by (intros k Hk; apply Hname; lia).
  destruct (Hname i (le_n i)) as [Ha Hx].
  destruct with_x.
  - rewrite !dict_get_set_other by congruence. reflexivity.
  - rewrite dict_get_set_other by congruence. reflexivity.
Qed.

Lemma bind_tuple_args_arg (with_x : bool) (vals : list Value) :
  forall i lv j v,
    nth_error vals j = Some v ->
    dict_get (bind_tuple_args with_x i vals lv)
             ("arg" ++ str_of_nat (i + j))%string = Some v.
Proof.
  induction vals as [|v0 rest IH]; intros i lv j v Hj.
  - destruct j; discriminate.
  - destruct j as [|j]; simpl in Hj.
    + inversion Hj; subst v0. rewrite Nat.add_0_r. cbn [bind_tuple_args].
      rewrite bind_tuple_args_frame.
      * destruct with_x.
        -- rewrite dict_get_set_other by discriminate. apply dict_get_set_same.
        -- apply dict_get_set_same.
      * intros k Hk. split; [|discriminate].
        intros Heq. apply arg_name_inj in Heq. lia.
    + cbn [bind_tuple_args].
      replace (i + S j)%nat with (S i + j)%nat by lia. now apply IH.
Qed.

Lemma bind_tuple_args_x (vals : list Value) :
  forall i lv j v,
    nth_error vals j = Some v ->
    dict_get (bind_tuple_args true i vals lv)
             ("x" ++ str_of_nat (i + j))%string = Some v.
Proof.
  induction vals as [|v0 rest IH]; intros i lv j v Hj.
  - destruct j; discriminate.
  - destruct j as [|j]; simpl in Hj.
    + inversion Hj; subst v0. rewrite Nat.add_0_r. cbn [bind_tuple_args].
      rewrite bind_tuple_args_frame.
      * apply dict_get_set_same.
      * intros k Hk. split; [discriminate|].
        intros Heq. apply x_name_inj in Heq. lia.
    + cbn [bind_tuple_args].
      replace (i + S j)%nat with (S i + j)%nat by lia. now apply IH.
Qed.

Lemma bind_scopes_frame (vals : list Value) (lv : list (string * Value))
  (name : string) :
  name <> "scope1" -> name <> "scope2" -> name <> "scope3" ->
  dict_get (bind_scopes vals lv) name = dict_get lv name.
Proof.
  intros H1 H2 H3. unfold bind_scopes.
  destruct vals as [|v0 [|v1 [|v2 [|v3 vs]]]]; try reflexivity.
  rewrite !dict_get_set_other by congruence. reflexivity.
Qed.

Lemma bind_pair_frame (vals : list Value) (lv : list (string * Value))
  (name : string) :
  name <> "a" -> name <> "b" ->
  dict_get (bind_pair vals lv) name = dict_get lv name.
Proof.
  intros H1 H2. unfold bind_pair.
  destruct vals as [|v0 [|v1 [|v2 vs]]]; try reflexivity.
  rewrite !dict_get_set_other by congruence. reflexivity.
Qed.

(** X26: a tuple input is bound by position.  In the symbol table of a
    formula the [i]-th element is the value of both [arg<i>] and [x<i>],
    and in the symbol table of a template it is the value of [arg<i>],
    whatever constants and variables of these names the context holds. *)
Theorem tuple_inputs_are_bound_by_position (ex : Executor) (expr : string)
  (vals : list Value) (i : nat) (v : Value) :
  nth_error vals i = Some v ->
  dict_get (formula_locals ex expr (VTuple vals))
           ("arg" ++ str_of_nat i)%string = Some v
  /\ dict_get (formula_locals ex expr (VTuple vals))
              ("x" ++ str_of_nat i)%string = Some v
  /\ dict_get (template_locals ex (VTuple vals))
              ("arg" ++ str_of_nat i)%string = Some v.
Proof.
  intros Hi. unfold formula_locals, template_locals.
  repeat split.
  - rewrite bind_pair_frame, bind_scopes_frame by discriminate.
    apply (bind_tuple_args_arg true vals 0 _ i v Hi).
  - rewrite bind_pair_frame, bind_scopes_frame by discriminate.
    apply (bind_tuple_args_x vals 0 _ i v Hi).
  - rewrite bind_scopes_frame by discriminate.
    apply (bind_tuple_args_arg false vals 0 _ i v Hi).
Qed.

Lemma tuple_inputs_are_bound_by_position_witness :
  nth_error [VNum 10; VNum 20; VNum 30] 1 = Some (VNum 20)
  /\ dict_get (formula_locals (Executor_init no_host None)
                 "total = scope1 + scope2 + scope3"
                 (VTuple [VNum 10; VNum 20; VNum 30])) "arg1"
     = Some (VNum 20)
  /\ dict_get (formula_locals (Executor_init no_host None)
                 "total = scope1 + scope2 + scope3"
                 (VTuple [VNum 10; VNum 20; VNum 30])) "x1"
     = Some (VNum 20)
  /\ dict_get (template_locals (Executor_init no_host None)
                 (VTuple [VNum 10; VNum 20; VNum 30])) "arg1"
     = Some (VNum 20).
Proof.
  split; [reflexivity|].
  apply (tuple_inputs_are_bound_by_position (Executor_init no_host None)
           "total = scope1 + scope2 + scope3"
           [VNum 10; VNum 20; VNum 30] 1 (VNum 20)).
  reflexivity.
Defined.

(* ================================================================= *)
(** ** Provenance closure when the generated ids are distinct *)


